(** * HelioScope: the rooftop inference runner and its caller

    A shallow embedding of [modeltester_UI_mit.py] (patch tiling, per-patch
    inference, mask stitching, pixel counting, area reporting and the
    command-line entry point) and of the dashboard in
    [helioscopefinal_mit.py]: the scan of the runner's stdout, the solar
    and pricing figures, and the handler of the run button.

    - Python integers are [Z]; [np.int64] and [uint8] values are [Z] with
      the wrap-around written out.
    - Arrays are grids (a shape and a list of rows); slices follow Python's
      clamping rules, and a slice assignment of the wrong shape raises.
    - A raised exception is a value ([result]); [main] threads the lines
      printed so far through its steps ([io]).
    - Floating point is IEEE 754 binary64 as specified by the Standard
      Library ([SpecFloat]); [f"{x:.2f}"] and [float(s)] are the correctly
      rounded conversions.
    - The network, the normalisation pipeline, the file system, the raster
      library and the plotting library are parameters. *)

From Stdlib Require Import ZArith Lia String Ascii Bool.
From Stdlib Require Import DecimalString DecimalZ DecimalN DecimalFacts.
From Stdlib Require Import SpecFloat.
From stdpp Require Import base list.

Local Open Scope Z_scope.

(** ** Exceptions and fallible computations *)

(** A raised Python exception, identified by the name of its class;
    [SystemExit] carries the status passed to [sys.exit]. *)
Inductive exn : Type :=
| ValueError
| IndexError
| SystemExit (status : Z)
| OtherError (cls : string).

Inductive result (A : Type) : Type :=
| Ok (a : A)
| Raise (e : exn).
Arguments Ok {A} a.
Arguments Raise {A} e.

#[global] Instance result_ret : MRet result := fun _ a => Ok a.
#[global] Instance result_bind : MBind result := fun _ _ k r =>
  match r with
  | Ok a => k a
  | Raise e => Raise e
  end.

(** A [for] loop whose body may raise: the state is threaded through the
    elements in order and the first exception stops the loop. *)
Fixpoint for_each {A S} (body : S -> A -> result S) (l : list A) (s : S)
  : result S :=
  match l with
  | [] => Ok s
  | a :: l' => s' ← body s a; for_each body l' s'
  end.

(** ** Python and NumPy primitives *)

(** Number of elements of [range(start, stop, step)] for [step <> 0]. *)
Definition range_len (start stop step : Z) : Z :=
  if 0 <? step then
    if start <? stop then (stop - start - 1) / step + 1 else 0
  else
    if stop <? start then (start - stop - 1) / (- step) + 1 else 0.

(** [range(start, stop, step)], materialised; a zero step raises. *)
Definition py_range (start stop step : Z) : result (list Z) :=
  if step =? 0 then Raise ValueError
  else Ok ((fun i => start + Z.of_nat i * step)
            <$> seq 0 (Z.to_nat (range_len start stop step))).

(** Bounds of the slice [lo:hi] on a sequence of length [len]: a negative
    index counts from the end, both ends are clamped into [0, len]. *)
Definition slice_index (i len : Z) : Z :=
  if i <? 0 then Z.max (i + len) 0 else Z.min i len.

Definition slice_start (lo len : Z) : nat := Z.to_nat (slice_index lo len).

Definition slice_len (lo hi len : Z) : nat :=
  Z.to_nat (slice_index hi len - slice_index lo len).

Definition py_slice {A} (lo hi : Z) (l : list A) : list A :=
  let len := Z.of_nat (length l) in
  take (slice_len lo hi len) (drop (slice_start lo len) l).

(** A two-dimensional array: its shape and its rows.  The shape is kept
    beside the rows because an array with no row still has a width. *)
Record grid (A : Type) : Type := Grid {
  nrows : nat;
  ncols : nat;
  cells : list (list A)
}.
Arguments Grid {A} nrows ncols cells.
Arguments nrows {A} g.
Arguments ncols {A} g.
Arguments cells {A} g.

Definition shape {A} (g : grid A) : nat * nat := (nrows g, ncols g).

(** The cell at row [r] and column [c]. *)
Definition cell {A} (g : grid A) (r c : nat) : option A :=
  cells g !! r ≫= fun row => row !! c.

(** The rows agree with the declared shape. *)
Definition well_shaped {A} (g : grid A) : Prop :=
  length (cells g) = nrows g /\ Forall (fun row => length row = ncols g) (cells g).

(** [g[y0:y1, x0:x1]] *)
Definition grid_slice {A} (g : grid A) (y0 y1 x0 x1 : Z) : grid A :=
  let H := Z.of_nat (nrows g) in
  let W := Z.of_nat (ncols g) in
  Grid (slice_len y0 y1 H) (slice_len x0 x1 W)
       (py_slice x0 x1 <$> py_slice y0 y1 (cells g)).

(** [np.zeros((H, W), dtype=np.uint8)]; a negative dimension raises. *)
Definition np_zeros (H W : Z) : result (grid Z) :=
  if (H <? 0) || (W <? 0) then Raise ValueError
  else Ok (Grid (Z.to_nat H) (Z.to_nat W)
                (replicate (Z.to_nat H) (replicate (Z.to_nat W) 0))).

(** ** Configuration *)

Definition PATCH_SIZE : Z := 128.
Definition STRIDE : Z := 128.

(** ** The tiler *)

(** An RGB sample triple; the image is an H x W grid of them (the trailing
    channel axis of the H x W x 3 array). *)
Definition pixel : Type := Z * Z * Z.
Definition image : Type := grid pixel.

(** One iteration of the inner loop of [extract_patches]. *)
Definition patch_at (img : image) (size y x : Z) : image * (Z * Z) :=
  (grid_slice img y (y + size) x (x + size), (y, x)).

(** [extract_patches(image, size, stride)]: the nested loops append one
    patch and one position per pair [(y, x)], rows outermost.  The inner
    range does not depend on [y]; it is built once here (when the outer
    range is built the stride is known to be non-zero, so the inner one
    cannot raise). *)
Definition extract_patches (img : image) (size stride : Z)
  : result (list image * list (Z * Z) * Z * Z) :=
  let H := Z.of_nat (nrows img) in
  let W := Z.of_nat (ncols img) in
  ys ← py_range 0 (H - size + 1) stride;
  xs ← py_range 0 (W - size + 1) stride;
  let tiles := y ← ys; (fun x => patch_at img size y x) <$> xs in
  Ok (tiles.*1, tiles.*2, H, W).

(** ** Per-patch inference and stitching *)

(** Storing into a [uint8] array keeps the low eight bits. *)
Definition to_uint8 (v : Z) : Z := v mod 256.

(** Arithmetic on [np.int64] scalars wraps around. *)
Definition wrap_int64 (z : Z) : Z := (z + 2 ^ 63) mod 2 ^ 64 - 2 ^ 63.
Definition int64_add (a b : Z) : Z := wrap_int64 (a + b).

(** A source row or column of length 1 is stretched to the length of the
    destination (NumPy broadcasting); any other length is kept. *)
Definition stretch {A} (n : nat) (l : list A) : list A :=
  match l with
  | [a] => replicate n a
  | _ => l
  end.

Definition broadcastable (src dst : nat) : bool :=
  (src =? dst)%nat || (src =? 1)%nat.

(** Overwrite the [length new] elements of [l] that start at index [i]. *)
Definition splice {A} (i : nat) (new l : list A) : list A :=
  take i l ++ new ++ drop (i + length new) l.

(** The [nr] rows of [g] that start at row [r0]. *)
Definition old_rows {A} (g : grid A) (r0 nr : nat) : list (list A) :=
  take nr (drop r0 (cells g)).

(** The [nr] x [nc] block of [g] whose corner is at row [r0], column [c0]. *)
Definition block_cells {A} (g : grid A) (r0 c0 nr nc : nat) : list (list A) :=
  (fun old => take nc (drop c0 old)) <$> old_rows g r0 nr.

(** Overwrite that block, row by row, with [rows]. *)
Definition store_block {A} (g : grid A) (r0 c0 nr : nat) (rows : list (list A))
  : grid A :=
  Grid (nrows g) (ncols g)
       (splice r0
          (zip_with (fun new old => splice c0 new old) rows (old_rows g r0 nr))
          (cells g)).

(** [dst[y0:y1, x0:x1] = src] on a [uint8] destination: the source must
    broadcast to the shape of the selected block, otherwise [ValueError]. *)
Definition grid_assign (dst : grid Z) (y0 y1 x0 x1 : Z) (src : grid Z)
  : result (grid Z) :=
  let H := Z.of_nat (nrows dst) in
  let W := Z.of_nat (ncols dst) in
  let r0 := slice_start y0 H in
  let nr := slice_len y0 y1 H in
  let c0 := slice_start x0 W in
  let nc := slice_len x0 x1 W in
  if broadcastable (nrows src) nr && broadcastable (ncols src) nc then
    let rows := stretch nr ((fun row : list Z => to_uint8 <$> stretch nc row)
                              <$> cells src) in
    Ok (store_block dst r0 c0 nr rows)
  else Raise ValueError.

(** The number of entries of a row equal to [v]. *)
Definition count_row (v : Z) (row : list Z) : nat :=
  length (filter (fun c => c = v) row).

(** [np.sum(g == v)] *)
Definition count_eq (v : Z) (g : grid Z) : Z :=
  Z.of_nat (sum_list_with (count_row v) (cells g)).

Section Inference.
(** The normalised input tensor and the class scores are left abstract:
    [transform] is the Albumentations pipeline (resize, normalise, to
    tensor, add the batch axis), [model] the network's forward pass with
    the batch axis squeezed away, giving for each pixel the scores of the
    two classes, and [beats a b] tells that score [a] is the arg-max
    against the earlier score [b]. *)
Context {tensor logit : Type}.
Variable transform : image -> tensor.
Variable beats : logit -> logit -> bool.
Variable model : tensor -> grid (logit * logit).

(** [torch.argmax(_, dim=0)] over the two class scores of one pixel. *)
Definition argmax2 (scores : logit * logit) : Z :=
  if beats scores.2 scores.1 then 1 else 0.

(** The predicted label mask of one patch (the first lines of the loop
    body of [infer_full_mask]).  The output of [model] stands for the
    h x w array of score pairs left by [squeeze]; for an output with a
    side of length 1 [squeeze] would drop that axis too, a case that lies
    outside the 128 x 128 outputs the properties assume. *)
Definition predict (patch : image) : grid Z :=
  let input_tensor := transform patch in
  let pred := model input_tensor in
  Grid (nrows pred) (ncols pred) ((fun row : list (logit * logit) => argmax2 <$> row) <$> cells pred).

(** The loop body of [infer_full_mask] on the state
    [(mask_out, total_rooftop_pixels)]. *)
Definition infer_step (st : grid Z * Z) (tile : image * (Z * Z))
  : result (grid Z * Z) :=
  let '(mask_out, total_rooftop_pixels) := st in
  let '(patch, (y, x)) := tile in
  let pred_mask := predict patch in
  mask_out' ← grid_assign mask_out y (y + PATCH_SIZE) x (x + PATCH_SIZE) pred_mask;
  Ok (mask_out', int64_add total_rooftop_pixels (count_eq 1 pred_mask)).

Definition infer_full_mask (img : image) : result (grid Z * Z) :=
  '(patches, positions, H, W) ← extract_patches img PATCH_SIZE STRIDE;
  mask_out ← np_zeros H W;
  for_each infer_step (zip patches positions) (mask_out, 0).
End Inference.

(** The patch of side [size] at offset [pos = (y, x)] covers the pixel at
    row [r] and column [c]. *)
Definition covers (size : Z) (pos : Z * Z) (r c : Z) : Prop :=
  pos.1 <= r < pos.1 + size /\ pos.2 <= c < pos.2 + size.

(** A uniform test image. *)
Definition flat_image (H W : nat) (p : pixel) : image :=
  Grid H W (replicate H (replicate W p)).

(** ** Binary64 arithmetic and number formatting *)

(** IEEE 754 binary64 operations, from the Standard Library's executable
    specification of floating-point arithmetic. *)
Definition b64_mul : spec_float -> spec_float -> spec_float := SFmul 53 1024.

(** Conversion of an integer to the nearest binary64 value. *)
Definition b64_of_Z (n : Z) : spec_float := binary_normalize 53 1024 n 0 false.

(** The binary64 value nearest to [num / den] (ties to even), as produced
    by reading a decimal literal. *)
Definition b64_of_ratio (neg : bool) (num : N) (den : positive) : spec_float :=
  match num with
  | N0 => S754_zero neg
  | Npos p =>
      let '(q, e, l) := SFdiv_core_binary 53 1024 (Zpos p) 0 (Zpos den) 0 in
      binary_round_aux 53 1024 neg q e l
  end.

(** [PIXEL_AREA_M2 = 0.09] *)
Definition PIXEL_AREA_M2 : spec_float := b64_of_ratio false 9 100.

(** [str(n)] for an integer. *)
Definition str_int (n : Z) : string := NilZero.string_of_int (Z.to_int n).

(** [num / den] rounded to the nearest integer, ties to even ([den > 0]). *)
Definition round_half_even (num den : Z) : Z :=
  let q := num / den in
  match (2 * (num mod den) ?= den) with
  | Lt => q
  | Eq => if Z.even q then q else q + 1
  | Gt => q + 1
  end.

(** The magnitude [m * 2^e] in hundredths, correctly rounded. *)
Definition hundredths (m : positive) (e : Z) : Z :=
  if 0 <=? e then 100 * Zpos m * 2 ^ e
  else round_half_even (100 * Zpos m) (2 ^ (- e)).

Definition digit_char (d : Z) : ascii := ascii_of_nat (48 + Z.to_nat d).

(** A sign and a count [k] of hundredths written with two decimals. *)
Definition fixed2 (neg : bool) (k : Z) : string :=
  ((if neg then "-" else "") ++ str_int (k / 100) ++ "."
   ++ String (digit_char (k mod 100 / 10))
        (String (digit_char (k mod 10)) EmptyString))%string.

(** [f"{x:.2f}"] *)
Definition fmt_2f (x : spec_float) : string :=
  match x with
  | S754_zero s => fixed2 s 0
  | S754_infinity s => if s then "-inf"%string else "inf"%string
  | S754_nan => "nan"%string
  | S754_finite s m e => fixed2 s (hundredths m e)
  end.

(** [s.split(sep)] for a one-character separator. *)
Fixpoint py_split (sep : ascii) (s : string) : list string :=
  match s with
  | EmptyString => [EmptyString]
  | String a s' =>
      if Ascii.eqb a sep then EmptyString :: py_split sep s'
      else match py_split sep s' with
           | [] => [String a EmptyString]
           | w :: ws => String a w :: ws
           end
  end.

(** [10 ^ k] *)
Definition pow10 (k : nat) : positive := Nat.iter k (Pos.mul 10) 1%positive.

(** [int(s)] on the plain grammar: an optional sign and one or more ASCII
    digits.  (Surrounding blanks and digit-group underscores, which [int]
    tolerates as well, are not part of this grammar.) *)
Definition int_digits (neg : bool) (t : string) : result Z :=
  match NilZero.uint_of_string t with
  | Some d => Ok (if neg then - Z.of_uint d else Z.of_uint d)
  | None => Raise ValueError
  end.

Definition py_int (s : string) : result Z :=
  match s with
  | String "-" t => int_digits true t
  | String "+" t => int_digits false t
  | _ => int_digits false s
  end.

(** [float(s)] on the plain grammar: an optional sign, then [inf],
    [infinity], [nan], or digits with an optional fraction (at least one
    digit overall); the result is the binary64 value nearest to the
    decimal.  (Exponents, blanks, underscores and other letter cases are
    not part of this grammar.) *)
Definition float_value (neg : bool) (ip fp : string) : result spec_float :=
  match NilEmpty.uint_of_string ip, NilEmpty.uint_of_string fp with
  | Some i, Some f =>
      if (String.length ip + String.length fp =? 0)%nat then Raise ValueError
      else
        let den := pow10 (String.length fp) in
        Ok (b64_of_ratio neg (N.of_uint i * Npos den + N.of_uint f)%N den)
  | _, _ => Raise ValueError
  end.

Definition float_body (neg : bool) (t : string) : result spec_float :=
  if String.eqb t "inf" || String.eqb t "infinity" then Ok (S754_infinity neg)
  else if String.eqb t "nan" then Ok S754_nan
  else
    match py_split "." t with
    | [ip] => float_value neg ip EmptyString
    | [ip; fp] => float_value neg ip fp
    | _ => Raise ValueError
    end.

Definition py_float (s : string) : result spec_float :=
  match s with
  | String "-" t => float_body true t
  | String "+" t => float_body false t
  | _ => float_body false s
  end.

(** [float(f"{x:.2f}")]: the binary64 value nearest to [x] rounded to two
    decimals. *)
Definition round2 (x : spec_float) : spec_float :=
  match x with
  | S754_finite s m e => b64_of_ratio s (Z.to_N (hundredths m e)) 100
  | _ => x
  end.

(** ASCII decimal digits, and strings made of them. *)
Definition is_digit (a : ascii) : bool :=
  match a with
  | "0" | "1" | "2" | "3" | "4" | "5" | "6" | "7" | "8" | "9" => true
  | _ => false
  end%char.

Fixpoint all_digits (s : string) : bool :=
  match s with
  | EmptyString => true
  | String a s' => is_digit a && all_digits s'
  end.

(** The characters that a formatted number can hold. *)
Definition numeric_char (a : ascii) : bool :=
  is_digit a
  || match a with
     | "-" | "." | "i" | "n" | "f" | "a" => true
     | _ => false
     end%char.

Fixpoint all_numeric (s : string) : bool :=
  match s with
  | EmptyString => true
  | String a s' => numeric_char a && all_numeric s'
  end.

(** [c in s] for a character [c]. *)
Fixpoint contains_char (c : ascii) (s : string) : bool :=
  match s with
  | EmptyString => false
  | String a s' => Ascii.eqb a c || contains_char c s'
  end.

(** ** The process: standard output and exit status *)

(** A computation that prints lines and may raise: it maps the lines
    printed so far to the lines printed after it and its result. *)
Definition io (A : Type) : Type := list string -> list string * result A.

#[global] Instance io_ret : MRet io := fun _ a out => (out, Ok a).
#[global] Instance io_bind : MBind io := fun _ _ k m out =>
  match m out with
  | (out', Ok a) => k a out'
  | (out', Raise e) => (out', Raise e)
  end.

(** [print(s)] *)
Definition print (s : string) : io unit := fun out => (out ++ [s], Ok tt).

(** A step that prints nothing. *)
Definition lift {A} (r : result A) : io A := fun out => (out, r).

(** [sys.exit(status)] *)
Definition sys_exit {A} (status : Z) : io A := lift (Raise (SystemExit status)).

(** What the parent process observes: the printed lines and the exception
    that ended the interpreter, if any. *)
Record outcome : Type := Outcome {
  stdout : list string;
  raised : option exn
}.

Definition run_io (m : io unit) : outcome :=
  match m [] with
  | (out, Ok _) => Outcome out None
  | (out, Raise e) => Outcome out (Some e)
  end.

(** The exit status: 0 on normal termination, the argument of [sys.exit],
    and 1 for any other uncaught exception. *)
Definition exit_code (o : outcome) : Z :=
  match raised o with
  | None => 0
  | Some (SystemExit status) => status
  | Some _ => 1
  end.

(** The text of standard output: every printed line ends with a newline. *)
Definition LF : ascii := ascii_of_nat 10.

Fixpoint stdout_text (lines : list string) : string :=
  match lines with
  | [] => EmptyString
  | l :: ls => (l ++ String LF (stdout_text ls))%string
  end.

(** ** The raster reader *)

(** An opened raster dataset: its band count, its size, and the sample of
    band [b] (numbered from 1) at a row and a column. *)
Record dataset : Type := Dataset {
  ds_count : nat;
  ds_height : nat;
  ds_width : nat;
  ds_sample : nat -> nat -> nat -> Z
}.

(** [src.read([1, 2, 3]).astype(np.uint8)] followed by the transposition
    from band-major to H x W x 3: a band index beyond the band count raises
    [IndexError]. *)
Definition read_rgb (src : dataset) : result image :=
  if (ds_count src <? 3)%nat then Raise IndexError
  else
    let sample b r c := to_uint8 (ds_sample src b r c) in
    Ok (Grid (ds_height src) (ds_width src)
          ((fun r => (fun c => (sample 1%nat r c, sample 2%nat r c, sample 3%nat r c))
                       <$> seq 0 (ds_width src))
             <$> seq 0 (ds_height src))).

(** ** The runner *)

Section Runner.
Context {tensor logit : Type}.
Variable transform : image -> tensor.
Variable beats : logit -> logit -> bool.

(** [str(round(x, 2))], the text of the rounded area in the free-form
    progress line; its digits are left abstract. *)
Variable str_round2 : spec_float -> string.

(** What the runner finds outside itself: the file system, the weights
    behind [MODEL_PATH] (a placeholder in the source, filled in by the
    user), the raster library and the plotting library. *)
Record world : Type := World {
  os_path_exists : string -> bool;
  load_model : result (tensor -> grid (logit * logit));
  rasterio_open : string -> result dataset;
  save_figure : image -> grid Z -> string -> result unit
}.

(** The rooftop area in square metres. *)
Definition area_of (rooftop_pixels : Z) : spec_float :=
  b64_mul (b64_of_Z rooftop_pixels) PIXEL_AREA_M2.

(** The four lines of the results block. *)
Definition results_block (rooftop_pixels : Z) (rooftop_area : spec_float)
  : list string :=
  [ "RESULTS_START";
    "ROOFTOP_PIXELS:" ++ str_int rooftop_pixels;
    "ROOFTOP_AREA:" ++ fmt_2f rooftop_area;
    "RESULTS_END" ]%string.

(** The title drawn above the mask in [results.png]. *)
Definition figure_title (rooftop_area : spec_float) : string :=
  ("Predicted Rooftops" ++ String LF ("Area: " ++ fmt_2f rooftop_area ++ " m²"))%string.

(** The free-form lines printed before the results block. *)
Definition progress_lines (rooftop_pixels : Z) (rooftop_area : spec_float)
  : list string :=
  [ "Loading model...";
    "Reading image...";
    "Running inference...";
    "Rooftop Pixels: " ++ str_int rooftop_pixels;
    "Estimated Rooftop Area: " ++ str_round2 rooftop_area ++ " m²" ]%string.

(** [main(image_path)] *)
Definition main (w : world) (image_path : string) : io unit :=
  _ ← print "Loading model...";
  model ← lift (load_model w);
  _ ← print "Reading image...";
  src ← lift (rasterio_open w image_path);
  img ← lift (read_rgb src);
  _ ← print "Running inference...";
  '(mask, rooftop_pixels) ← lift (infer_full_mask transform beats model img);
  let rooftop_area := area_of rooftop_pixels in
  _ ← print ("Rooftop Pixels: " ++ str_int rooftop_pixels);
  _ ← print ("Estimated Rooftop Area: " ++ str_round2 rooftop_area ++ " m²");
  _ ← lift (save_figure w img mask (figure_title rooftop_area));
  _ ← print "RESULTS_START";
  _ ← print ("ROOFTOP_PIXELS:" ++ str_int rooftop_pixels);
  _ ← print ("ROOFTOP_AREA:" ++ fmt_2f rooftop_area);
  print "RESULTS_END".

(** The [if __name__ == "__main__":] block, on [sys.argv]. *)
Definition script (w : world) (argv : list string) : io unit :=
  if negb (length argv =? 2)%nat then
    _ ← print "Usage: python modeltester_UI.py <image_path>";
    sys_exit 1
  else
    match argv !! 1%nat with
    | None => lift (Raise IndexError)
    | Some image_path =>
        if negb (os_path_exists w image_path) then
          _ ← print ("Error: Image file " ++ image_path ++ " not found");
          sys_exit 1
        else main w image_path
    end.

Definition run (w : world) (argv : list string) : outcome :=
  run_io (script w argv).
End Runner.

(** ** The caller's scan of the runner's output *)

(** The body of the loop over [output_lines] in the dashboard, on the state
    [(rooftop_pixels, rooftop_area)]. *)
Definition scan_line (st : option Z * option spec_float) (line : string)
  : result (option Z * option spec_float) :=
  if String.prefix "ROOFTOP_PIXELS:" line then
    match py_split ":" line !! 1%nat with
    | Some field => v ← py_int field; Ok (Some v, st.2)
    | None => Raise IndexError
    end
  else if String.prefix "ROOFTOP_AREA:" line then
    match py_split ":" line !! 1%nat with
    | Some field => v ← py_float field; Ok (st.1, Some v)
    | None => Raise IndexError
    end
  else Ok st.

(** The printed lines other than the two sentinels. *)
Definition without_sentinels (lines : list string) : list string :=
  List.filter (fun line => negb (String.eqb line "RESULTS_START")
                           && negb (String.eqb line "RESULTS_END"))
              lines.

(** The parse of [result.stdout]. *)
Definition parse_stdout (text : string) : result (option Z * option spec_float) :=
  for_each scan_line (py_split LF text) (None, None).

(** ** Notions used to state the properties of the inference *)

(** An offset at which [infer_full_mask] stores a patch mask into an
    [H] x [W] array: a multiple of the patch size whose block fits. *)
Definition tile_ok (H W : Z) (pos : Z * Z) : Prop :=
  (0 <= pos.1 /\ pos.1 + PATCH_SIZE <= H /\ pos.1 mod PATCH_SIZE = 0)
  /\ (0 <= pos.2 /\ pos.2 + PATCH_SIZE <= W /\ pos.2 mod PATCH_SIZE = 0).

(** The network returns, for every input, one pair of class scores per
    pixel of a patch. *)
Definition patch_shaped {T L : Type} (model : T -> grid (L * L)) : Prop :=
  forall t, well_shaped (model t) /\ shape (model t) = (128%nat, 128%nat).

(** The all-zero [H] x [W] mask allocated by [infer_full_mask]. *)
Definition zero_mask (H W : nat) : grid Z :=
  Grid H W (replicate H (replicate W 0)).

Section InferenceNotions.
Context {tensor logit : Type}.
Variable transform : image -> tensor.
Variable beats : logit -> logit -> bool.
Variable model : tensor -> grid (logit * logit).

(** The number of pixels labelled 1 in the predicted mask of a tile. *)
Definition tile_ones (tile : image * (Z * Z)) : nat :=
  sum_list_with (count_row 1) (cells (predict transform beats model tile.1)).

(** The running total after a sequence of tiles, as the loop computes it. *)
Definition running_total (total : Z) (tiles : list (image * (Z * Z))) : Z :=
  foldl (fun acc tile =>
           int64_add acc (count_eq 1 (predict transform beats model tile.1)))
        total tiles.
End InferenceNotions.

(** The tiles that [extract_patches] yields with the default size and
    stride: offsets [(128 i, 128 j)] for [i < H / 128] and [j < W / 128],
    rows outermost. *)
Definition grid_tiles (img : image) : list (image * (Z * Z)) :=
  let ys := (fun i => 0 + Z.of_nat i * 128)
              <$> seq 0 (Z.to_nat (Z.of_nat (nrows img) / 128)) in
  let xs := (fun i => 0 + Z.of_nat i * 128)
              <$> seq 0 (Z.to_nat (Z.of_nat (ncols img) / 128)) in
  y ← ys; (fun x => patch_at img 128 y x) <$> xs.

Section PatchSum.
Context {tensor logit : Type}.
Variable transform : image -> tensor.
Variable beats : logit -> logit -> bool.
Variable model : tensor -> grid (logit * logit).

(** The sum, over a sequence of patches, of the number of pixels that
    the network labels 1 (an unbounded integer sum). *)
Definition patch_sum (patches : list image) : Z :=
  foldr (fun patch acc => count_eq 1 (predict transform beats model patch) + acc)
        0 patches.
End PatchSum.

(** ** A small concrete network and world, for examples *)

(** Its "tensor" is the patch itself, its scores are integers, and it
    labels every pixel of a patch 1 exactly when the top-left pixel of the
    patch has a non-zero red sample. *)
Definition toy_transform (patch : image) : image := patch.

Definition toy_beats (a b : Z) : bool := b <? a.

Definition toy_model (t : image) : grid (Z * Z) :=
  let score := match cell t 0 0 with Some (red, _, _) => red | None => 0 end in
  Grid 128 128 (replicate 128 (replicate 128 (0, score))).

(** A 130 x 140 raster with [bands] bands whose samples are all 7. *)
Definition toy_dataset (bands : nat) : dataset :=
  Dataset bands 130 140 (fun _ _ _ => 7).

(** A world in which every path exists and holds [src], the weights
    load, and the figure is saved. *)
Definition toy_world (src : result dataset) : world :=
  World (fun _ => true) (Ok toy_model) (fun _ => src) (fun _ _ _ => Ok tt).

Definition toy_argv : list string := ["modeltester_UI.py"; "tile.tif"]%string.

(** ** Notions used to state the properties of the runner *)

(** A line that belongs to a results block: a sentinel or one of the two
    key:value lines. *)
Definition results_line (l : string) : bool :=
  String.eqb l "RESULTS_START"
  || String.prefix "ROOFTOP_PIXELS:" l
  || String.prefix "ROOFTOP_AREA:" l
  || String.eqb l "RESULTS_END".

Definition is_system_exit (e : exn) : bool :=
  match e with
  | SystemExit _ => true
  | _ => false
  end.

(** The load step of [main] raises [e] on [path]: the raster library
    cannot open the file, or the file opens and has fewer than three
    bands, in which case reading band 3 raises [IndexError]. *)
Definition load_fails {T L : Type} (w : @world T L) (path : string) (e : exn) : Prop :=
  (rasterio_open w path = Raise e /\ is_system_exit e = false)
  \/ (exists src, rasterio_open w path = Ok src
                  /\ (ds_count src < 3)%nat /\ e = IndexError).

(** ** Notions used to state further properties of the tiler *)

(** The values of [range(0, stop, step)] for a positive step. *)
Definition range_from_0 (stop step : Z) : list Z :=
  (fun i => 0 + Z.of_nat i * step) <$> seq 0 (Z.to_nat (range_len 0 stop step)).

(** The (patch, position) pairs that the loops of [extract_patches]
    visit, for a positive stride. *)
Definition tiling (img : image) (size stride : Z) : list (image * (Z * Z)) :=
  y ← range_from_0 (Z.of_nat (nrows img) - size + 1) stride;
  (fun x => patch_at img size y x)
    <$> range_from_0 (Z.of_nat (ncols img) - size + 1) stride.

(** The number of steps of a sliding window of [size] over [len] cells. *)
Definition window_count (len size stride : Z) : Z :=
  if size <=? len then (len - size) / stride + 1 else 0.

(** ** The dashboard: solar figures *)

(** Binary64 division; Python raises [ZeroDivisionError] on a zero
    divisor. *)
Definition b64_div : spec_float -> spec_float -> spec_float := SFdiv 53 1024.

Definition is_zero (x : spec_float) : bool :=
  match x with
  | S754_zero _ => true
  | _ => false
  end.

Definition py_truediv (a b : spec_float) : result spec_float :=
  if is_zero b then Raise (OtherError "ZeroDivisionError") else Ok (b64_div a b).

(** [x > 0] *)
Definition b64_gt_0 (x : spec_float) : bool := SFltb (S754_zero false) x.

(** [int(x)] for a float: the integer part; an infinity raises
    [OverflowError], a NaN [ValueError]. *)
Definition int_of_float (x : spec_float) : result Z :=
  match x with
  | S754_zero _ => Ok 0
  | S754_infinity _ => Raise (OtherError "OverflowError")
  | S754_nan => Raise ValueError
  | S754_finite s m e =>
      let magnitude := if 0 <=? e then Zpos m * 2 ^ e else Zpos m / 2 ^ (- e) in
      Ok (if s then - magnitude else magnitude)
  end.

(** A positive decimal literal [num / den]. *)
Definition dec (num : N) (den : positive) : spec_float := b64_of_ratio false num den.

(** The options of the location select box. *)
Definition LOCATIONS : list string :=
  [ "Washington, D.C."; "Houston, TX"; "Dallas, TX"; "Austin, TX" ]%string.

(** [d.get(key, default)] on a dict written as its items. *)
Definition dict_get {V} (d : list (string * V)) (key : string) (default : V) : V :=
  match List.find (fun item : string * V => String.eqb item.1 key) d with
  | Some item => item.2
  | None => default
  end.

(** Daily irradiance in kWh/m² by location. *)
Definition LOCATION_IRRADIANCE : list (string * spec_float) :=
  [ ("Washington, D.C.", dec 47 10);
    ("Houston, TX", dec 527 100);
    ("Dallas, TX", dec 547 100);
    ("Austin, TX", dec 541 100) ]%string.

Record city_pricing : Type := CityPricing {
  rate : spec_float;
  install : spec_float
}.

Definition CITY_PRICING : list (string * city_pricing) :=
  [ ("Washington, D.C.", CityPricing (dec 13 100) (dec 130 100));
    ("Houston, TX", CityPricing (dec 11 100) (dec 110 100));
    ("Austin, TX", CityPricing (dec 12 100) (dec 100 100));
    ("Dallas, TX", CityPricing (dec 12 100) (dec 105 100)) ]%string.

(** The four figures of the "Solar Potential Insights" row, with the
    irradiance they use. *)
Record insights : Type := Insights {
  potential_panels : Z;
  irradiance : spec_float;
  potential_power : spec_float;
  annual_energy : spec_float;
  carbon_reduction : spec_float
}.

Definition solar_insights (location : string) (rooftop_area : spec_float)
  : result insights :=
  per_panel ← py_truediv rooftop_area (b64_of_Z 20);
  potential_panels ← int_of_float per_panel;
  let irradiance := dict_get LOCATION_IRRADIANCE location (dec 5 1) in
  let potential_power := b64_mul rooftop_area (dec 15 100) in
  annual_energy ←
    py_truediv
      (b64_mul (b64_mul (b64_mul rooftop_area irradiance) (b64_of_Z 365))
               (dec 20 100))
      (b64_of_Z 1000);
  let carbon_reduction := b64_mul potential_power (dec 14 10) in
  Ok (Insights potential_panels irradiance potential_power annual_energy
               carbon_reduction).

(** The four figures of the "Pricing & ROI Calculator" row.  The integer
    0 of the two guarded expressions is shown as the float zero. *)
Record roi_report : Type := RoiReport {
  install_cost : spec_float;
  annual_savings : spec_float;
  roi : spec_float;
  payback_years : spec_float
}.

Definition roi_calculator (location : string) (rooftop_area irradiance : spec_float)
  : result roi_report :=
  let panel_efficiency := dec 20 100 in
  let loss_factor := dec 85 100 in
  let city_data :=
    dict_get CITY_PRICING location (CityPricing (dec 12 100) (dec 110 100)) in
  let electricity_rate := rate city_data in
  let install_cost_per_watt := install city_data in
  let capacity_kw := b64_mul rooftop_area panel_efficiency in
  let annual_output_kwh :=
    b64_mul (b64_mul (b64_mul capacity_kw irradiance) (b64_of_Z 365)) loss_factor in
  let annual_savings := b64_mul annual_output_kwh electricity_rate in
  let install_cost :=
    b64_mul (b64_mul capacity_kw install_cost_per_watt) (b64_of_Z 1000) in
  roi ← (if b64_gt_0 install_cost then py_truediv annual_savings install_cost
         else Ok (S754_zero false));
  payback_years ← (if b64_gt_0 annual_savings
                   then py_truediv install_cost annual_savings
                   else Ok (S754_zero false));
  Ok (RoiReport install_cost annual_savings roi payback_years).

(** ** The dashboard: the handler of the run button *)

(** What [subprocess.run(..., capture_output=True, text=True)] returns. *)
Record completed_process : Type := CompletedProcess {
  returncode : Z;
  cp_stdout : string;
  cp_stderr : string
}.

(** What the handler does to the page and to the file system, block by
    block; the figures are kept as numbers, their layout and formatting
    are left out. *)
Inductive effect : Type :=
| ShowSuccess
| ShowCounts (rooftop_pixels : Z) (rooftop_area : spec_float)
| ShowFigure
| ShowInsights (i : insights)
| ShowRoi (r : roi_report)
| ShowError (text : string)
| Unlink (path : string).

(** A step of the handler: it appends to the effects so far and may
    raise. *)
Definition act (A : Type) : Type := list effect -> list effect * result A.

#[global] Instance act_ret : MRet act := fun _ a done => (done, Ok a).
#[global] Instance act_bind : MBind act := fun _ _ k m done =>
  match m done with
  | (done', Ok a) => k a done'
  | (done', Raise e) => (done', Raise e)
  end.

Definition emit (e : effect) : act unit := fun done => (done ++ [e], Ok tt).

Definition lift_act {A} (r : result A) : act A := fun done => (done, r).

(** [try: body  except ...: handler] *)
Definition try_except {A} (body : act A) (handler : exn -> act A) : act A :=
  fun done =>
    match body done with
    | (done', Ok a) => (done', Ok a)
    | (done', Raise e) => handler e done'
    end.

(** [try: body  finally: cleanup], for a cleanup that does not raise. *)
Definition try_finally {A} (body : act A) (cleanup : act unit) : act A :=
  fun done =>
    let '(done', r) := body done in
    (fst (cleanup done'), r).

(** The classes caught by [except Exception]: every class of this model
    but [BaseException] itself, [SystemExit], [KeyboardInterrupt] and
    [GeneratorExit]. *)
Definition is_Exception (e : exn) : bool :=
  match e with
  | SystemExit _ => false
  | OtherError cls =>
      negb (String.eqb cls "BaseException" || String.eqb cls "SystemExit"
            || String.eqb cls "KeyboardInterrupt" || String.eqb cls "GeneratorExit")
  | _ => true
  end.

Definition is_TimeoutExpired (e : exn) : bool :=
  match e with
  | OtherError cls => String.eqb cls "TimeoutExpired"
  | _ => false
  end.

Section Dashboard.
(** [str(e)], the message of an exception, and whether [results.png]
    exists when the results are shown. *)
Variable exn_text : exn -> string.
Variable results_png : bool.

(** The page after a successful parse. *)
Definition show_results (location : string) (rooftop_pixels : Z)
    (rooftop_area : spec_float) : act unit :=
  _ ← emit ShowSuccess;
  _ ← emit (ShowCounts rooftop_pixels rooftop_area);
  _ ← (if results_png then emit ShowFigure else mret tt);
  i ← lift_act (solar_insights location rooftop_area);
  _ ← emit (ShowInsights i);
  r ← lift_act (roi_calculator location rooftop_area (irradiance i));
  emit (ShowRoi r).

(** The body of the [try] block, on the outcome of [subprocess.run]. *)
Definition detect (sub : result completed_process) (location : string)
  : act unit :=
  result ← lift_act sub;
  if returncode result =? 0 then
    '(rooftop_pixels, rooftop_area) ← lift_act (parse_stdout (cp_stdout result));
    match rooftop_pixels, rooftop_area with
    | Some rooftop_pixels, Some rooftop_area =>
        show_results location rooftop_pixels rooftop_area
    | _, _ => emit (ShowError "❌ Could not parse model results")
    end
  else emit (ShowError ("❌ Model execution failed: " ++ cp_stderr result)).

(** The two [except] clauses. *)
Definition on_exception (e : exn) : act unit :=
  if is_TimeoutExpired e then
    emit (ShowError
            "❌ Model execution timed out. Please try with a smaller image.")
  else if is_Exception e then
    emit (ShowError ("❌ Error running detection: " ++ exn_text e))
  else lift_act (Raise e).

(** The handler of the run button: [try], the two [except] clauses, and
    the [finally] clause that removes the temporary image whatever
    happened (a failure of the removal itself is swallowed). *)
Definition run_detection (sub : result completed_process)
    (location temp_image_path : string) : list effect * result unit :=
  try_finally (try_except (detect sub location) on_exception)
              (emit (Unlink temp_image_path)) [].
End Dashboard.

(** What the dashboard's child process returns for an outcome of the
    runner, with [err] on standard error. *)
Definition completed (o : outcome) (err : string) : completed_process :=
  CompletedProcess (exit_code o) (stdout_text (stdout o)) err.

(** The success banner or a results block among the effects. *)
Definition shows_results (e : effect) : bool :=
  match e with
  | ShowSuccess | ShowCounts _ _ | ShowFigure | ShowInsights _ | ShowRoi _ => true
  | _ => false
  end.

(** A line that the caller's scan reads: it starts with one of the two
    keys. *)
Definition key_line (l : string) : bool :=
  String.prefix "ROOFTOP_PIXELS:" l || String.prefix "ROOFTOP_AREA:" l.

Definition is_unlink (e : effect) : bool :=
  match e with
  | Unlink _ => true
  | _ => false
  end.

(** A float that is a zero or a NaN. *)
Definition zero_or_nan (x : spec_float) : bool :=
  match x with
  | S754_zero _ | S754_nan => true
  | _ => false
  end.


(* ===================================================================== *)
(** * Properties *)

(** ** The primitives on concrete inputs *)

Example range_200 : py_range 0 (200 - 128 + 1) 128 = Ok [0].
Proof. reflexivity. Qed.

Example range_256 : py_range 0 (256 - 128 + 1) 128 = Ok [0; 128].
Proof. reflexivity. Qed.

Example range_small : py_range 0 (100 - 128 + 1) 128 = Ok [].
Proof. reflexivity. Qed.

Example range_zero_step : py_range 0 5 0 = Raise ValueError.
Proof. reflexivity. Qed.

Example slice_clamped : py_slice 3 10 [0; 1; 2; 3; 4] = [3; 4].
Proof. reflexivity. Qed.

Example slice_negative : py_slice (-2) 5 [0; 1; 2; 3; 4] = [3; 4].
Proof. reflexivity. Qed.

Example assign_wrong_shape :
  grid_assign (zero_mask 3 3) 2 4 0 2 (Grid 2 2 [[1; 1]; [1; 1]]) = Raise ValueError.
Proof. reflexivity. Qed.

Example assign_block :
  grid_assign (zero_mask 3 3) 1 3 0 2 (Grid 2 2 [[1; 0]; [257; 1]])
  = Ok (Grid 3 3 [[0; 0; 0]; [1; 0; 0]; [1; 1; 0]]).
Proof. reflexivity. Qed.

Example pixel_area_bits :
  PIXEL_AREA_M2 = S754_finite false 6485183463413514 (-56).
Proof. reflexivity. Qed.

Example area_12345 : fmt_2f (b64_mul (b64_of_Z 12345) PIXEL_AREA_M2) = "1111.05"%string.
Proof. reflexivity. Qed.

Example fmt_tie_to_even : fmt_2f (b64_of_ratio false 1 8) = "0.12"%string.
Proof. reflexivity. Qed.

Example fmt_negative_zero : fmt_2f (b64_of_ratio true 1 1000) = "-0.00"%string.
Proof. reflexivity. Qed.

Example float_read : py_float "0.09" = Ok PIXEL_AREA_M2.
Proof. reflexivity. Qed.

Example int_read : py_int "-0123" = Ok (-123).
Proof. reflexivity. Qed.

Example split_lines :
  py_split LF (stdout_text ["a"; "b"]%string) = ["a"; "b"; ""]%string.
Proof. reflexivity. Qed.

(** ** Ranges and the tiler *)

Lemma py_range_pos start stop step :
  0 < step ->
  py_range start stop step
  = Ok ((fun i => start + Z.of_nat i * step) <$> seq 0 (Z.to_nat (range_len start stop step))).
Proof.
  intros Hs. unfold py_range.
  destruct (step =? 0) eqn:E; [lia | reflexivity].
Qed.

Lemma range_len_tiles n :
  0 <= n -> range_len 0 (n - 128 + 1) 128 = n / 128.
Proof.
  intros Hn. unfold range_len. change (0 <? 128) with true. cbv iota.
  destruct (0 <? n - 128 + 1) eqn:E.
  - apply Z.ltb_lt in E.
    replace (n - 128 + 1 - 0 - 1) with (n + (-1) * 128) by lia.
    rewrite Z.div_add by lia. lia.
  - apply Z.ltb_ge in E. symmetry. apply Z.div_small. lia.
Qed.

Lemma length_tiles {A B C} (f : A -> B -> C) (ys : list A) (xs : list B) :
  length (y ← ys; f y <$> xs) = (length ys * length xs)%nat.
Proof.
  induction ys as [|y ys IH]; [reflexivity|].
  rewrite bind_cons, length_app, length_fmap, IH. reflexivity.
Qed.

(** With the default size and stride the tiles are the pairs of multiples
    of 128 below [H / 128] and [W / 128], rows outermost. *)
Lemma extract_patches_default (img : image) :
  let H := Z.of_nat (nrows img) in
  let W := Z.of_nat (ncols img) in
  let ys := (fun i => 0 + Z.of_nat i * 128) <$> seq 0 (Z.to_nat (H / 128)) in
  let xs := (fun i => 0 + Z.of_nat i * 128) <$> seq 0 (Z.to_nat (W / 128)) in
  let tiles := y ← ys; (fun x => patch_at img 128 y x) <$> xs in
  extract_patches img PATCH_SIZE STRIDE = Ok (tiles.*1, tiles.*2, H, W).
Proof.
  intros H W ys xs tiles. unfold extract_patches, PATCH_SIZE, STRIDE.
  rewrite !py_range_pos by lia.
  rewrite !range_len_tiles by lia. reflexivity.
Qed.

(** C1: with patch size and stride 128, an image of height and width at
    least 128 gives exactly floor(H/128) * floor(W/128) patches (and as many
    positions); a 200 x 200 image gives the single patch [image[0:128, 0:128]]
    at offset (0, 0), and no patch covers a pixel of the border rows and
    columns 128..199. *)
Theorem extract_patches_count (img : image) :
  (128 <= nrows img)%nat -> (128 <= ncols img)%nat ->
  exists patches positions,
    extract_patches img PATCH_SIZE STRIDE
    = Ok (patches, positions, Z.of_nat (nrows img), Z.of_nat (ncols img))
    /\ Z.of_nat (length patches)
       = (Z.of_nat (nrows img) / 128) * (Z.of_nat (ncols img) / 128)
    /\ length positions = length patches
    /\ (nrows img = 200%nat -> ncols img = 200%nat ->
        positions = [(0, 0)]
        /\ patches = [grid_slice img 0 128 0 128]
        /\ shape (grid_slice img 0 128 0 128) = (128%nat, 128%nat)
        /\ forall r c, 0 <= r < 200 -> 0 <= c < 200 -> 128 <= r \/ 128 <= c ->
             forall pos, pos ∈ positions -> ~ covers PATCH_SIZE pos r c).
Proof.
  intros HH HW. pose proof (extract_patches_default img) as E. cbv zeta in E.
  eexists _, _. split; [exact E|].
  split; [|split].
  - rewrite length_fmap, length_tiles, !length_fmap, !length_seq.
    rewrite Nat2Z.inj_mul, !Z2Nat.id; [reflexivity| |];
      apply Z.div_pos; lia.
  - rewrite !length_fmap. reflexivity.
  - intros Hr Hc. rewrite Hr, Hc.
    change (Z.to_nat (Z.of_nat 200 / 128)) with 1%nat.
    split; [reflexivity|]. split; [reflexivity|]. split.
    + unfold shape, grid_slice. simpl. rewrite Hr, Hc. reflexivity.
    + intros r c Hrr Hcc Hb pos Hpos.
      apply list_elem_of_singleton in Hpos. subst pos.
      unfold covers, PATCH_SIZE. simpl. lia.
Qed.

Lemma extract_patches_count_witness :
  exists patches positions,
    extract_patches (flat_image 200 200 (0, 0, 0)) PATCH_SIZE STRIDE
    = Ok (patches, positions, 200, 200)
    /\ Z.of_nat (length patches) = 1
    /\ length positions = length patches.
Proof.
  destruct (extract_patches_count (flat_image 200 200 (0, 0, 0)))
    as (ps & qs & E & Hn & Hl & _).
  - simpl. lia.
  - simpl. lia.
  - exists ps, qs. split; [exact E|]. split; [exact Hn | exact Hl].
Defined.

(** C7: a 256 x 256 image gives exactly four patches, at the offsets
    (0,0), (0,128), (128,0), (128,128) in that order: the tiling starts at
    the origin and advances along the width first, then the height. *)
Theorem extract_patches_256 (img : image) :
  nrows img = 256%nat -> ncols img = 256%nat ->
  exists patches,
    extract_patches img PATCH_SIZE STRIDE
    = Ok (patches, [(0, 0); (0, 128); (128, 0); (128, 128)], 256, 256)
    /\ patches = [grid_slice img 0 128 0 128; grid_slice img 0 128 128 256;
                  grid_slice img 128 256 0 128; grid_slice img 128 256 128 256]
    /\ length patches = 4%nat.
Proof.
  intros Hr Hc. eexists. split; [|split; reflexivity].
  rewrite extract_patches_default. rewrite Hr, Hc.
  change (Z.to_nat (Z.of_nat 256 / 128)) with 2%nat. reflexivity.
Qed.

Lemma extract_patches_256_witness :
  exists patches,
    extract_patches (flat_image 256 256 (7, 8, 9)) PATCH_SIZE STRIDE
    = Ok (patches, [(0, 0); (0, 128); (128, 0); (128, 128)], 256, 256)
    /\ patches = [grid_slice (flat_image 256 256 (7, 8, 9)) 0 128 0 128;
                  grid_slice (flat_image 256 256 (7, 8, 9)) 0 128 128 256;
                  grid_slice (flat_image 256 256 (7, 8, 9)) 128 256 0 128;
                  grid_slice (flat_image 256 256 (7, 8, 9)) 128 256 128 256]
    /\ length patches = 4%nat.
Proof.
  apply (extract_patches_256 (flat_image 256 256 (7, 8, 9))); reflexivity.
Defined.

(** ** Slices and splices *)

Lemma slice_start_in (lo len : Z) :
  0 <= lo <= len -> slice_start lo len = Z.to_nat lo.
Proof.
  intros H. unfold slice_start, slice_index.
  destruct (lo <? 0) eqn:E; [lia|]. f_equal. lia.
Qed.

Lemma slice_len_in (lo n len : Z) :
  0 <= lo -> 0 <= n -> lo + n <= len -> slice_len lo (lo + n) len = Z.to_nat n.
Proof.
  intros H1 H2 H3. unfold slice_len, slice_index.
  destruct (lo <? 0) eqn:E1; [lia|].
  destruct (lo + n <? 0) eqn:E2; [lia|]. f_equal. lia.
Qed.

Lemma length_splice {A} (i : nat) (new l : list A) :
  (i + length new <= length l)%nat -> length (splice i new l) = length l.
Proof.
  intros H. unfold splice.
  rewrite !length_app, length_take, length_drop. lia.
Qed.

Lemma lookup_splice_outside {A} (i : nat) (new l : list A) (k : nat) :
  (i + length new <= length l)%nat ->
  (k < i \/ i + length new <= k)%nat ->
  splice i new l !! k = l !! k.
Proof.
  intros Hl Hk. unfold splice. destruct Hk as [Hk | Hk].
  - rewrite lookup_app_l by (rewrite length_take; lia).
    apply lookup_take_lt. exact Hk.
  - rewrite lookup_app_r by (rewrite length_take; lia).
    rewrite length_take.
    rewrite lookup_app_r by lia.
    rewrite lookup_drop. f_equal. lia.
Qed.

Lemma lookup_splice_inside {A} (i : nat) (new l : list A) (k : nat) :
  (i + length new <= length l)%nat ->
  (i <= k < i + length new)%nat ->
  splice i new l !! k = new !! (k - i)%nat.
Proof.
  intros Hl Hk. unfold splice.
  rewrite lookup_app_r by (rewrite length_take; lia).
  rewrite length_take.
  rewrite lookup_app_l by lia. f_equal. lia.
Qed.

Lemma count_row_app v (a b : list Z) :
  count_row v (a ++ b) = (count_row v a + count_row v b)%nat.
Proof. unfold count_row. rewrite filter_app, length_app. reflexivity. Qed.

Lemma split_at {A} (i n : nat) (l : list A) :
  l = take i l ++ take n (drop i l) ++ drop (i + n) l.
Proof.
  rewrite <- (take_drop i l) at 1. f_equal.
  rewrite <- (take_drop n (drop i l)) at 1. f_equal.
  apply drop_drop.
Qed.

(** Overwriting a segment of a row changes the count by what the new
    segment has and the old one had. *)
Lemma count_row_splice v (i : nat) (new l : list Z) :
  (count_row v (splice i new l) + count_row v (take (length new) (drop i l))
   = count_row v l + count_row v new)%nat.
Proof.
  rewrite (split_at i (length new) l) at 3.
  unfold splice. rewrite !count_row_app. lia.
Qed.

Lemma sum_zip_splice v (x n : nat) (news olds : list (list Z)) :
  length news = length olds ->
  Forall (fun new => length new = n) news ->
  (sum_list_with (count_row v) (zip_with (fun new old => splice x new old) news olds)
   + sum_list_with (count_row v) ((fun old => take n (drop x old)) <$> olds)
   = sum_list_with (count_row v) olds + sum_list_with (count_row v) news)%nat.
Proof.
  revert olds. induction news as [|new news IH]; intros [|old olds] Hlen Hn;
    csimpl in *; try discriminate; [reflexivity|].
  inversion Hn as [|? ? Hnew Hrest]; subst.
  injection Hlen as Hlen.
  specialize (IH olds Hlen Hrest).
  pose proof (count_row_splice v x new old). lia.
Qed.

(** ** Storing a block into a mask *)

Section StoreBlock.
Variables (g : grid Z) (r0 c0 nr nc : nat) (rows : list (list Z)).
Hypothesis g_ok : well_shaped g.
Hypothesis rows_len : length rows = nr.
Hypothesis rows_width : Forall (fun row => length row = nc) rows.
Hypothesis fits_rows : (r0 + nr <= nrows g)%nat.
Hypothesis fits_cols : (c0 + nc <= ncols g)%nat.

Local Abbreviation olds := (old_rows g r0 nr).
Local Abbreviation block :=
  (zip_with (fun new old => splice c0 new old) rows (old_rows g r0 nr)).

Lemma olds_length : length olds = nr.
Proof.
  destruct g_ok as [Hl _]. unfold old_rows.
  rewrite length_take, length_drop. lia.
Qed.

Lemma block_length : length block = nr.
Proof.
  rewrite length_zip_with, rows_len, olds_length. lia.
Qed.

Lemma row_width (r : nat) (row : list Z) :
  cells g !! r = Some row -> length row = ncols g.
Proof.
  destruct g_ok as [_ Hw]. intros Hr.
  exact (proj1 (Forall_lookup _ _) Hw r row Hr).
Qed.

Lemma block_lookup (i : nat) (new old : list Z) :
  rows !! i = Some new -> cells g !! (r0 + i)%nat = Some old ->
  block !! i = Some (splice c0 new old).
Proof.
  intros Hn Ho. rewrite lookup_zip_with, Hn. simpl.
  unfold old_rows. rewrite lookup_take_lt by (apply lookup_lt_Some in Hn; lia).
  rewrite lookup_drop, Ho. reflexivity.
Qed.

Lemma store_block_cells :
  cells (store_block g r0 c0 nr rows) = splice r0 block (cells g).
Proof. reflexivity. Qed.

Lemma store_block_well_shaped : well_shaped (store_block g r0 c0 nr rows).
Proof.
  pose proof g_ok as [Hl Hw]. split; rewrite store_block_cells; simpl.
  - rewrite length_splice; rewrite ?block_length; lia.
  - apply Forall_lookup. intros r row Hr.
    destruct (decide (r0 <= r < r0 + nr)%nat) as [Hin | Hout].
    + rewrite lookup_splice_inside in Hr by (rewrite block_length; lia).
      destruct (lookup_lt_is_Some_2 rows (r - r0)) as [new Hnew]; [lia|].
      destruct (lookup_lt_is_Some_2 (cells g) (r0 + (r - r0))) as [old Hold]; [lia|].
      rewrite (block_lookup _ _ _ Hnew Hold) in Hr. injection Hr as <-.
      rewrite length_splice.
      * eapply row_width; eassumption.
      * rewrite (proj1 (Forall_lookup _ _) rows_width _ _ Hnew).
        rewrite (row_width _ _ Hold). lia.
    + rewrite lookup_splice_outside in Hr by (rewrite block_length; lia).
      eapply row_width; eassumption.
Qed.

(** A cell outside the block keeps its value. *)
Lemma store_block_outside (r c : nat) :
  ~ ((r0 <= r < r0 + nr)%nat /\ (c0 <= c < c0 + nc)%nat) ->
  cell (store_block g r0 c0 nr rows) r c = cell g r c.
Proof.
  pose proof g_ok as [Hl Hw]. intros Hout. unfold cell.
  rewrite store_block_cells.
  destruct (decide (r0 <= r < r0 + nr)%nat) as [Hin | Hrow].
  - rewrite lookup_splice_inside by (rewrite block_length; lia).
    destruct (lookup_lt_is_Some_2 rows (r - r0)) as [new Hnew]; [lia|].
    destruct (lookup_lt_is_Some_2 (cells g) (r0 + (r - r0))) as [old Hold]; [lia|].
    rewrite (block_lookup _ _ _ Hnew Hold).
    replace (r0 + (r - r0))%nat with r in Hold by lia. rewrite Hold. simpl.
    apply lookup_splice_outside.
    + rewrite (proj1 (Forall_lookup _ _) rows_width _ _ Hnew).
      rewrite (row_width _ _ Hold). lia.
    + rewrite (proj1 (Forall_lookup _ _) rows_width _ _ Hnew). lia.
  - rewrite lookup_splice_outside by (rewrite block_length; lia).
    reflexivity.
Qed.

(** The count of [v] after the store, plus what the overwritten block
    held, is the count before plus what the new rows hold. *)
Lemma store_block_count (v : Z) :
  (sum_list_with (count_row v) (cells (store_block g r0 c0 nr rows))
   + sum_list_with (count_row v) (block_cells g r0 c0 nr nc)
   = sum_list_with (count_row v) (cells g) + sum_list_with (count_row v) rows)%nat.
Proof.
  rewrite store_block_cells. unfold splice at 1.
  rewrite !sum_list_with_app, block_length.
  assert (sum_list_with (count_row v) (cells g)
          = sum_list_with (count_row v) (take r0 (cells g))
            + sum_list_with (count_row v) olds
            + sum_list_with (count_row v) (drop (r0 + nr) (cells g)))%nat as ->.
  { rewrite (split_at r0 nr (cells g)) at 1.
    rewrite !sum_list_with_app. unfold old_rows. lia. }
  pose proof (sum_zip_splice v c0 nc rows olds) as Hs.
  rewrite rows_len, olds_length in Hs. specialize (Hs eq_refl rows_width).
  unfold block_cells. lia.
Qed.

(** An entry of the block is a cell of the grid. *)
Lemma block_cells_lookup (i j : nat) (row : list Z) (v : Z) :
  block_cells g r0 c0 nr nc !! i = Some row -> row !! j = Some v ->
  cell g (r0 + i) (c0 + j) = Some v /\ (i < nr)%nat /\ (j < nc)%nat.
Proof.
  unfold block_cells. rewrite list_lookup_fmap. intros Hr Hj.
  destruct (old_rows g r0 nr !! i) as [old|] eqn:Ho; [|discriminate].
  simpl in Hr. injection Hr as <-.
  unfold old_rows in Ho.
  apply lookup_take_Some in Ho as [Ho Hi]. rewrite lookup_drop in Ho.
  apply lookup_take_Some in Hj as [Hj Hjn]. rewrite lookup_drop in Hj.
  unfold cell. rewrite Ho. simpl. auto.
Qed.
End StoreBlock.

(** ** Facts about counting and tiles *)

Lemma stretch_id {A} (n : nat) (l : list A) :
  length l <> 1%nat -> stretch n l = l.
Proof. destruct l as [|a [|b l]]; simpl; intros Hl; congruence. Qed.

Lemma count_row_none (row : list Z) :
  (forall j v, row !! j = Some v -> v <> 1) -> count_row 1 row = 0%nat.
Proof.
  unfold count_row. induction row as [|a row IH]; intros Hall; [reflexivity|].
  rewrite filter_cons. destruct (decide (a = 1)) as [Ha | Ha].
  - exfalso. exact (Hall 0%nat a eq_refl Ha).
  - apply IH. intros j v Hj. exact (Hall (S j) v Hj).
Qed.

Lemma sum_count_none (rows : list (list Z)) :
  (forall i row j v, rows !! i = Some row -> row !! j = Some v -> v <> 1) ->
  sum_list_with (count_row 1) rows = 0%nat.
Proof.
  induction rows as [|row rows IH]; intros Hall; [reflexivity|]. simpl.
  rewrite count_row_none, IH; [reflexivity| |].
  - intros i r j v Hi Hj. exact (Hall (S i) r j v Hi Hj).
  - intros j v Hj. exact (Hall 0%nat row j v eq_refl Hj).
Qed.

Lemma count_row_le (v : Z) (row : list Z) : (count_row v row <= length row)%nat.
Proof. unfold count_row. apply length_filter. Qed.

Lemma sum_count_le (v : Z) (n : nat) (rows : list (list Z)) :
  Forall (fun row => length row = n) rows ->
  (sum_list_with (count_row v) rows <= length rows * n)%nat.
Proof.
  induction 1 as [|row rows Hrow _ IH]; simpl; [lia|].
  pose proof (count_row_le v row). lia.
Qed.

(** Two tile offsets whose blocks share a pixel are the same offset. *)
Lemma tiles_disjoint (H W : Z) (p q : Z * Z) (r c : Z) :
  tile_ok H W p -> tile_ok H W q ->
  covers PATCH_SIZE p r c -> covers PATCH_SIZE q r c -> p = q.
Proof.
  destruct p as [y1 x1], q as [y2 x2].
  unfold tile_ok, covers, PATCH_SIZE. simpl.
  intros [(? & ? & Hy1) (? & ? & Hx1)] [(? & ? & Hy2) (? & ? & Hx2)] [? ?] [? ?].
  f_equal; Z.div_mod_to_equations; lia.
Qed.

Lemma wrap_int64_small (z : Z) : - 2 ^ 63 <= z < 2 ^ 63 -> wrap_int64 z = z.
Proof.
  intros Hz. unfold wrap_int64.
  rewrite Z.mod_small by lia. lia.
Qed.

(** ** The inference loop *)

Section InferenceFacts.
Context {tensor logit : Type}.
Variable transform : image -> tensor.
Variable beats : logit -> logit -> bool.
Variable model : tensor -> grid (logit * logit).
Hypothesis model_ok : patch_shaped model.

Local Abbreviation predict := (predict transform beats model).
Local Abbreviation infer_step := (infer_step transform beats model).
Local Abbreviation tile_ones := (tile_ones transform beats model).
Local Abbreviation running_total := (running_total transform beats model).

Lemma argmax2_binary (s : logit * logit) :
  argmax2 beats s = 0 \/ argmax2 beats s = 1.
Proof. unfold argmax2. destruct (beats s.2 s.1); auto. Qed.

Lemma predict_shape (patch : image) :
  well_shaped (predict patch)
  /\ nrows (predict patch) = 128%nat /\ ncols (predict patch) = 128%nat.
Proof.
  destruct (model_ok (transform patch)) as [[Hl Hw] Hs].
  unfold shape in Hs. injection Hs as Hr Hc.
  unfold predict, well_shaped. simpl. repeat split; try assumption.
  - rewrite length_fmap. exact Hl.
  - apply Forall_fmap. eapply Forall_impl; [exact Hw|].
    intros row Hrow. simpl. rewrite length_fmap. exact Hrow.
Qed.

(** Every predicted label is 0 or 1. *)
Lemma predict_binary (patch : image) (r c : nat) (v : Z) :
  cell (predict patch) r c = Some v -> v = 0 \/ v = 1.
Proof.
  unfold cell, predict. simpl. rewrite list_lookup_fmap.
  destruct (cells (model (transform patch)) !! r) as [row|]; [|discriminate].
  simpl. rewrite list_lookup_fmap.
  destruct (row !! c) as [s|]; [|discriminate].
  simpl. intros [= <-]. apply argmax2_binary.
Qed.

Lemma predict_rows (patch : image) :
  length (cells (predict patch)) = 128%nat
  /\ Forall (fun row => length row = 128%nat) (cells (predict patch)).
Proof.
  destruct (predict_shape patch) as ([Hl Hw] & Hr & Hc).
  rewrite Hr in Hl. rewrite Hc in Hw. auto.
Qed.

(** Labels survive the conversion to [uint8] and no row is stretched. *)
Lemma predict_stored (patch : image) :
  stretch 128 ((fun row : list Z => to_uint8 <$> stretch 128 row)
                 <$> cells (predict patch))
  = cells (predict patch).
Proof.
  destruct (predict_rows patch) as [Hl Hw].
  rewrite stretch_id by (rewrite length_fmap, Hl; lia).
  apply list_eq. intros r. rewrite list_lookup_fmap.
  destruct (cells (predict patch) !! r) as [row|] eqn:Hr; [|reflexivity].
  simpl. f_equal.
  rewrite stretch_id
    by (rewrite (proj1 (Forall_lookup _ _) Hw r row Hr); lia).
  apply list_eq. intros c. rewrite list_lookup_fmap.
  destruct (row !! c) as [v|] eqn:Hc; [|reflexivity].
  simpl. f_equal.
  destruct (predict_binary patch r c v) as [-> | ->]; [|reflexivity..].
  unfold cell. rewrite Hr. exact Hc.
Qed.

Lemma count_eq_predict_bound (patch : image) :
  0 <= count_eq 1 (predict patch) <= 16384.
Proof.
  destruct (predict_rows patch) as [Hl Hw].
  pose proof (sum_count_le 1 128 _ Hw) as Hb. rewrite Hl in Hb.
  unfold count_eq. lia.
Qed.

(** Storing the mask of a patch at a tile offset succeeds and overwrites
    exactly the block of that tile. *)
Lemma grid_assign_tile (mask : grid Z) (patch : image) (y x : Z) :
  tile_ok (Z.of_nat (nrows mask)) (Z.of_nat (ncols mask)) (y, x) ->
  grid_assign mask y (y + PATCH_SIZE) x (x + PATCH_SIZE) (predict patch)
  = Ok (store_block mask (Z.to_nat y) (Z.to_nat x) 128 (cells (predict patch))).
Proof.
  unfold tile_ok, PATCH_SIZE. simpl.
  intros [(Hy0 & Hy1 & _) (Hx0 & Hx1 & _)].
  destruct (predict_shape patch) as (_ & Hr & Hc).
  unfold grid_assign.
  rewrite !slice_start_in, !slice_len_in by lia.
  rewrite Hr, Hc. change (Z.to_nat 128) with 128%nat.
  change (broadcastable 128 128) with true. cbn [andb].
  rewrite predict_stored. reflexivity.
Qed.
Lemma running_total_cons (total : Z) (tile : image * (Z * Z)) tiles :
running_total total (tile :: tiles)
= running_total (int64_add total (count_eq 1 (predict tile.1))) tiles.
Proof. reflexivity. Qed.

(** The loop over any sequence of distinct tile offsets: every store
    succeeds, cells outside the tiles are untouched, and if the blocks of
    the tiles held no 1 beforehand, the count of 1s grows by the labels
    counted. *)
Lemma infer_loop_spec (tiles : list (image * (Z * Z))) :
  forall (mask : grid Z) (total : Z),
    well_shaped mask ->
    Forall (tile_ok (Z.of_nat (nrows mask)) (Z.of_nat (ncols mask))) tiles.*2 ->
    NoDup tiles.*2 ->
    exists mask',
      for_each infer_step tiles (mask, total)
      = Ok (mask', running_total total tiles)
      /\ well_shaped mask' /\ shape mask' = shape mask
      /\ (forall r c,
            (forall pos, pos ∈ tiles.*2 ->
                         ~ covers PATCH_SIZE pos (Z.of_nat r) (Z.of_nat c)) ->
            cell mask' r c = cell mask r c)
      /\ ((forall pos r c v,
             pos ∈ tiles.*2 ->
             covers PATCH_SIZE pos (Z.of_nat r) (Z.of_nat c) ->
             cell mask r c = Some v -> v <> 1) ->
          count_eq 1 mask'
          = count_eq 1 mask + Z.of_nat (sum_list_with tile_ones tiles)).
Proof.
  induction tiles as [|[patch [y x]] tiles IH]; intros mask total Hm Hok Hnd.
  - exists mask. split; [reflexivity|]. split; [exact Hm|].
    split; [reflexivity|]. split; [reflexivity|].
    intros _. simpl. lia.
  - rewrite fmap_cons in Hok, Hnd. simpl in Hok, Hnd.
    apply Forall_cons in Hok as [Hyx Hok].
    apply NoDup_cons in Hnd as [Hfresh Hnd].
    destruct (predict_rows patch) as [Hl Hw].
    assert (Hfit : (Z.to_nat y + 128 <= nrows mask)%nat
                   /\ (Z.to_nat x + 128 <= ncols mask)%nat).
    { destruct Hyx as [(? & ? & _) (? & ? & _)].
      unfold PATCH_SIZE in *. simpl in *. lia. }
    destruct Hfit as [Hfr Hfc].
    set (mask1 := store_block mask (Z.to_nat y) (Z.to_nat x) 128
                              (cells (predict patch))).
    assert (Hm1 : well_shaped mask1)
      by (apply (store_block_well_shaped mask _ _ 128 128); assumption).
    assert (Hout : forall r c,
               ~ covers PATCH_SIZE (y, x) (Z.of_nat r) (Z.of_nat c) ->
               cell mask1 r c = cell mask r c).
    { intros r c Hc.
      apply (store_block_outside mask _ _ 128 128); try assumption.
      intros [Hr' Hc']. apply Hc.
      destruct Hyx as [(? & ? & _) (? & ? & _)].
      unfold covers, PATCH_SIZE in *. simpl in *. lia. }
    destruct (IH mask1 (int64_add total (count_eq 1 (predict patch))) Hm1 Hok Hnd)
      as (mask' & Hrun & Hm' & Hshape & Hkeep & Hcount).
    exists mask'. split; [|split; [exact Hm'|split; [exact Hshape|split]]].
    + simpl. unfold infer_step at 1. rewrite grid_assign_tile by exact Hyx.
      simpl. exact Hrun.
    + intros r c Hunc. rewrite Hkeep.
      * apply Hout. apply Hunc. rewrite fmap_cons. apply list_elem_of_here.
      * intros pos Hpos. apply Hunc. rewrite fmap_cons.
        apply list_elem_of_further. exact Hpos.
    + intros Hz. rewrite Hcount.
      * pose proof (store_block_count mask (Z.to_nat y) (Z.to_nat x) 128 128
                      (cells (predict patch)) Hm Hl Hw Hfr Hfc 1) as Hsum.
        rewrite (sum_count_none (block_cells mask _ _ _ _)) in Hsum.
        -- fold mask1 in Hsum. unfold count_eq.
           assert (sum_list_with tile_ones ((patch, (y, x)) :: tiles)
                   = (sum_list_with (count_row 1) (cells (predict patch))
                      + sum_list_with tile_ones tiles)%nat) as -> by reflexivity.
           lia.
        -- intros i row j v Hi Hj.
           destruct (block_cells_lookup mask _ _ _ _ i j row v Hi Hj)
             as (Hcell & Hi' & Hj').
           apply (Hz (y, x) (Z.to_nat y + i)%nat (Z.to_nat x + j)%nat v);
             [rewrite fmap_cons; apply list_elem_of_here| |exact Hcell].
           destruct Hyx as [(? & ? & _) (? & ? & _)].
           unfold covers, PATCH_SIZE in *. simpl in *. lia.
      * intros pos r c v Hpos Hcov Hcell.
        apply (Hz pos r c v); [rewrite fmap_cons; apply list_elem_of_further; exact Hpos|exact Hcov|].
        rewrite <- Hout; [exact Hcell|].
        intros Hcov'. apply Hfresh.
        assert (pos = (y, x)) as <-; [|exact Hpos].
        eapply tiles_disjoint; [|exact Hyx|exact Hcov|exact Hcov'].
        exact (proj1 (Forall_forall _ _) Hok pos Hpos).
Qed.
End InferenceFacts.

(** ** The default tiling *)

Lemma extract_patches_tiles (img : image) :
  extract_patches img PATCH_SIZE STRIDE
  = Ok ((grid_tiles img).*1, (grid_tiles img).*2,
        Z.of_nat (nrows img), Z.of_nat (ncols img)).
Proof. exact (extract_patches_default img). Qed.

Lemma grid_tiles_length (img : image) :
  Z.of_nat (length (grid_tiles img))
  = (Z.of_nat (nrows img) / 128) * (Z.of_nat (ncols img) / 128).
Proof.
  unfold grid_tiles. rewrite length_tiles, !length_fmap, !length_seq.
  rewrite Nat2Z.inj_mul, !Z2Nat.id; [reflexivity| |]; apply Z.div_pos; lia.
Qed.

Lemma fmap_tiles {A B C D} (g : C -> D) (f : A -> B -> C)
      (ys : list A) (xs : list B) :
  g <$> (y ← ys; f y <$> xs) = y ← ys; (fun x => g (f y x)) <$> xs.
Proof.
  induction ys as [|y ys IH]; [reflexivity|].
  rewrite !bind_cons, fmap_app, IH, <- list_fmap_compose. reflexivity.
Qed.

Lemma grid_tiles_positions (img : image) :
  (grid_tiles img).*2
  = y ← ((fun i => 0 + Z.of_nat i * 128)
           <$> seq 0 (Z.to_nat (Z.of_nat (nrows img) / 128)));
    (fun x => (y, x)) <$> ((fun i => 0 + Z.of_nat i * 128)
           <$> seq 0 (Z.to_nat (Z.of_nat (ncols img) / 128))).
Proof. unfold grid_tiles. apply fmap_tiles. Qed.

(** The offsets of the default tiling are the multiples of 128 below the
    last full block. *)
Lemma grid_tiles_offset (img : image) (pos : Z * Z) :
  pos ∈ (grid_tiles img).*2 <->
  exists i j : nat,
    Z.of_nat i < Z.of_nat (nrows img) / 128
    /\ Z.of_nat j < Z.of_nat (ncols img) / 128
    /\ pos = (Z.of_nat i * 128, Z.of_nat j * 128).
Proof.
  rewrite grid_tiles_positions, list_elem_of_bind. split.
  - intros (y & Hpos & Hy).
    apply list_elem_of_fmap in Hpos as (x & -> & Hx).
    apply list_elem_of_fmap in Hy as (i & -> & Hi).
    apply list_elem_of_fmap in Hx as (j & -> & Hj).
    apply elem_of_seq in Hi, Hj. exists i, j.
    split; [lia|]. split; [lia|]. f_equal; lia.
  - intros (i & j & Hi & Hj & ->).
    exists (0 + Z.of_nat i * 128). split.
    + apply list_elem_of_fmap. exists (0 + Z.of_nat j * 128).
      split; [f_equal; lia|].
      apply list_elem_of_fmap. exists j. split; [reflexivity|].
      apply elem_of_seq. lia.
    + apply list_elem_of_fmap. exists i. split; [reflexivity|].
      apply elem_of_seq. lia.
Qed.

Lemma grid_tiles_ok (img : image) :
  Forall (tile_ok (Z.of_nat (nrows img)) (Z.of_nat (ncols img)))
         (grid_tiles img).*2.
Proof.
  apply Forall_forall. intros pos Hpos.
  apply grid_tiles_offset in Hpos as (i & j & Hi & Hj & ->).
  unfold tile_ok, PATCH_SIZE. simpl.
  pose proof (Z.mul_div_le (Z.of_nat (nrows img)) 128 ltac:(lia)).
  pose proof (Z.mul_div_le (Z.of_nat (ncols img)) 128 ltac:(lia)).
  rewrite !Z.mod_mul by lia. lia.
Qed.

Lemma grid_tiles_NoDup (img : image) : NoDup (grid_tiles img).*2.
Proof.
  rewrite grid_tiles_positions.
  assert (Hseq : forall n, NoDup ((fun i => 0 + Z.of_nat i * 128) <$> seq 0 n)).
  { intros n. apply NoDup_fmap_2_strong; [|apply NoDup_seq].
    intros a b _ _ Hab. lia. }
  apply NoDup_bind; [| |apply Hseq].
  - intros y1 y2 pos _ _ H1 H2.
    apply list_elem_of_fmap in H1 as (x1 & -> & _).
    apply list_elem_of_fmap in H2 as (x2 & E & _). congruence.
  - intros y _. apply NoDup_fmap_2_strong; [|apply Hseq].
    intros a b _ _ Hab. congruence.
Qed.

(** The pixels no tile covers are those beyond the last full block. *)
Lemma uncovered_iff (img : image) (r c : nat) :
  (forall pos, pos ∈ (grid_tiles img).*2 ->
               ~ covers PATCH_SIZE pos (Z.of_nat r) (Z.of_nat c))
  <-> (Z.of_nat (nrows img) / 128 * 128 <= Z.of_nat r
       \/ Z.of_nat (ncols img) / 128 * 128 <= Z.of_nat c).
Proof.
  split.
  - intros Hunc.
    destruct (Z_le_gt_dec (Z.of_nat (nrows img) / 128 * 128) (Z.of_nat r))
      as [Hr | Hr]; [left; exact Hr|].
    destruct (Z_le_gt_dec (Z.of_nat (ncols img) / 128 * 128) (Z.of_nat c))
      as [Hc | Hc]; [right; exact Hc|].
    exfalso.
    apply (Hunc (Z.of_nat (r / 128) * 128, Z.of_nat (c / 128) * 128)).
    + apply grid_tiles_offset. exists (r / 128)%nat, (c / 128)%nat.
      rewrite !Nat2Z.inj_div. change (Z.of_nat 128) with 128.
      split; [|split; [|reflexivity]];
        apply Z.div_lt_upper_bound; lia.
    + unfold covers, PATCH_SIZE. cbn [fst snd].
      rewrite !Nat2Z.inj_div. change (Z.of_nat 128) with 128.
      pose proof (Z.mul_div_le (Z.of_nat r) 128 ltac:(lia)).
      pose proof (Z.mul_succ_div_gt (Z.of_nat r) 128 ltac:(lia)).
      pose proof (Z.mul_div_le (Z.of_nat c) 128 ltac:(lia)).
      pose proof (Z.mul_succ_div_gt (Z.of_nat c) 128 ltac:(lia)).
      lia.
  - intros Hout pos Hpos.
    apply grid_tiles_offset in Hpos as (i & j & Hi & Hj & ->).
    unfold covers, PATCH_SIZE. simpl. lia.
Qed.

(** ** The zero mask *)

Lemma np_zeros_nat (H W : nat) :
  np_zeros (Z.of_nat H) (Z.of_nat W) = Ok (zero_mask H W).
Proof.
  unfold np_zeros, zero_mask.
  assert ((Z.of_nat H <? 0) = false) as -> by (apply Z.ltb_ge; lia).
  assert ((Z.of_nat W <? 0) = false) as -> by (apply Z.ltb_ge; lia).
  simpl. rewrite !Nat2Z.id. reflexivity.
Qed.

Lemma zero_mask_well_shaped (H W : nat) : well_shaped (zero_mask H W).
Proof.
  split; simpl.
  - apply length_replicate.
  - apply Forall_replicate. apply length_replicate.
Qed.

Lemma zero_mask_cell (H W r c : nat) :
  (r < H)%nat -> (c < W)%nat -> cell (zero_mask H W) r c = Some 0.
Proof.
  intros Hr Hc. unfold cell, zero_mask. simpl.
  rewrite lookup_replicate_2 by exact Hr. simpl.
  apply lookup_replicate_2. exact Hc.
Qed.

Lemma zero_mask_cell_inv (H W r c : nat) (v : Z) :
  cell (zero_mask H W) r c = Some v -> v = 0.
Proof.
  unfold cell, zero_mask. simpl. intros Hv.
  destruct (replicate H (replicate W 0) !! r) as [row|] eqn:Hr; [|discriminate].
  apply lookup_replicate_1 in Hr as [-> _]. simpl in Hv.
  apply lookup_replicate_1 in Hv as [-> _]. reflexivity.
Qed.

Lemma zero_mask_count (H W : nat) : count_eq 1 (zero_mask H W) = 0.
Proof.
  unfold count_eq. rewrite sum_count_none; [reflexivity|].
  intros i row j v Hi Hj.
  assert (v = 0) as ->; [|lia].
  apply (zero_mask_cell_inv H W i j). unfold cell. rewrite Hi. exact Hj.
Qed.

(** The bound that keeps the [int64] total from wrapping. *)
Lemma tiles_area_bound (H W : Z) :
  0 <= H -> 0 <= W -> 16384 * ((H / 128) * (W / 128)) <= H * W.
Proof.
  intros HH HW.
  pose proof (Z.mul_div_le H 128 ltac:(lia)).
  pose proof (Z.mul_div_le W 128 ltac:(lia)).
  assert (0 <= H / 128) by (apply Z.div_pos; lia).
  assert (0 <= W / 128) by (apply Z.div_pos; lia).
  replace (16384 * (H / 128 * (W / 128)))
    with ((128 * (H / 128)) * (128 * (W / 128))) by ring.
  apply Z.mul_le_mono_nonneg; lia.
Qed.

(** ** The result of [infer_full_mask] *)

Section InferenceResults.
Context {tensor logit : Type}.
Variable transform : image -> tensor.
Variable beats : logit -> logit -> bool.
Variable model : tensor -> grid (logit * logit).

Local Abbreviation predict := (predict transform beats model).
Local Abbreviation infer_step := (infer_step transform beats model).
Local Abbreviation infer := (infer_full_mask transform beats model).
Local Abbreviation ones := (tile_ones transform beats model).
Local Abbreviation running_total := (running_total transform beats model).
Local Abbreviation patch_sum := (patch_sum transform beats model).

Lemma infer_full_mask_loop (img : image) :
  infer img
  = for_each infer_step (grid_tiles img) (zero_mask (nrows img) (ncols img), 0).
Proof.
  unfold infer_full_mask.
  rewrite extract_patches_tiles. simpl.
  rewrite np_zeros_nat. simpl. rewrite zip_fst_snd. reflexivity.
Qed.

Lemma patch_sum_tiles (tiles : list (image * (Z * Z))) :
  patch_sum tiles.*1 = Z.of_nat (sum_list_with ones tiles).
Proof.
  induction tiles as [|tile tiles IH]; [reflexivity|].
  rewrite fmap_cons.
  change (patch_sum (tile.1 :: tiles.*1))
    with (count_eq 1 (predict tile.1) + patch_sum tiles.*1).
  rewrite IH.
  change (sum_list_with ones (tile :: tiles))
    with (ones tile + sum_list_with ones tiles)%nat.
  change (count_eq 1 (predict tile.1)) with (Z.of_nat (ones tile)). lia.
Qed.

(** Without overflow the running total is the plain sum. *)
Lemma running_total_sum (tiles : list (image * (Z * Z))) :
  forall total,
    0 <= total ->
    total + Z.of_nat (sum_list_with ones tiles) < 2 ^ 63 ->
    running_total total tiles
    = total + Z.of_nat (sum_list_with ones tiles).
Proof.
  induction tiles as [|tile tiles IH]; intros total H0 Hb.
  - simpl. lia.
  - rewrite running_total_cons. simpl in Hb.
    assert (Hc : count_eq 1 (predict tile.1) = Z.of_nat (ones tile))
      by reflexivity.
    unfold int64_add. rewrite wrap_int64_small by lia.
    rewrite IH by lia. simpl. lia.
Qed.

Hypothesis model_ok : patch_shaped model.

Lemma tile_ones_bound (tiles : list (image * (Z * Z))) :
  Z.of_nat (sum_list_with ones tiles) <= 16384 * Z.of_nat (length tiles).
Proof.
  induction tiles as [|tile tiles IH]; simpl; [lia|].
  pose proof (count_eq_predict_bound transform beats model model_ok tile.1) as Hb.
  assert (Hc : count_eq 1 (predict tile.1) = Z.of_nat (ones tile))
    by reflexivity.
  lia.
Qed.

(** Any processing order of the generated tiles runs to completion with
    the same total, the plain sum of the per-patch counts. *)
Lemma infer_any_order (img : image) (tiles : list (image * (Z * Z))) :
  Z.of_nat (nrows img) * Z.of_nat (ncols img) < 2 ^ 63 ->
  tiles ≡ₚ grid_tiles img ->
  exists mask,
    for_each infer_step tiles (zero_mask (nrows img) (ncols img), 0)
    = Ok (mask, patch_sum (grid_tiles img).*1)
    /\ well_shaped mask /\ shape mask = (nrows img, ncols img)
    /\ (forall r c,
          (forall pos, pos ∈ (grid_tiles img).*2 ->
                       ~ covers PATCH_SIZE pos (Z.of_nat r) (Z.of_nat c)) ->
          cell mask r c = cell (zero_mask (nrows img) (ncols img)) r c)
    /\ count_eq 1 mask = patch_sum (grid_tiles img).*1.
Proof.
  intros Hsize Hperm.
  assert (Hpos : tiles.*2 ≡ₚ (grid_tiles img).*2) by (rewrite Hperm; reflexivity).
  destruct (infer_loop_spec transform beats model model_ok tiles
              (zero_mask (nrows img) (ncols img)) 0)
    as (mask & Hrun & Hm & Hshape & Hkeep & Hcount).
  - apply zero_mask_well_shaped.
  - simpl. rewrite Hpos. apply grid_tiles_ok.
  - rewrite Hpos. apply grid_tiles_NoDup.
  - assert (Hsum : sum_list_with ones tiles
                   = sum_list_with ones (grid_tiles img))
      by (rewrite Hperm; reflexivity).
    assert (Htot : running_total 0 tiles = patch_sum (grid_tiles img).*1).
    { rewrite patch_sum_tiles, <- Hsum.
      rewrite running_total_sum; [lia|lia|].
      pose proof (tile_ones_bound tiles) as Hb.
      rewrite (Permutation_length Hperm) in Hb.
      pose proof (grid_tiles_length img) as Hlen.
      pose proof (tiles_area_bound (Z.of_nat (nrows img)) (Z.of_nat (ncols img))
                    ltac:(lia) ltac:(lia)).
      lia. }
    exists mask. rewrite Hrun, Htot.
    split; [reflexivity|]. split; [exact Hm|]. split; [exact Hshape|]. split.
    + intros r c Hunc. apply Hkeep. intros pos Hin. apply Hunc.
      rewrite <- Hpos. exact Hin.
    + rewrite Hcount, zero_mask_count, patch_sum_tiles, Hsum; [lia|].
      intros pos r c v _ _ Hv. apply zero_mask_cell_inv in Hv. lia.
Qed.
End InferenceResults.

Lemma toy_model_ok : patch_shaped toy_model.
Proof.
  intros t. split; [split|reflexivity].
  - apply length_replicate.
  - apply Forall_replicate. apply length_replicate.
Defined.

(** ** Theorems about [infer_full_mask] *)

(** C2: the rooftop pixel count returned by [infer_full_mask] is the sum,
    over the generated patches, of the number of pixels labelled 1 in the
    predicted mask of the patch, and processing the patches in any other
    order gives the same total.  (The network returns a 128 x 128 score
    map, and the image has fewer than 2^63 pixels, as any array has.) *)
Theorem infer_total_is_patch_sum {tensor logit : Type}
    (transform : image -> tensor) (beats : logit -> logit -> bool)
    (model : tensor -> grid (logit * logit)) (img : image) :
  patch_shaped model ->
  Z.of_nat (nrows img) * Z.of_nat (ncols img) < 2 ^ 63 ->
  exists patches positions mask total,
    extract_patches img PATCH_SIZE STRIDE
    = Ok (patches, positions, Z.of_nat (nrows img), Z.of_nat (ncols img))
    /\ infer_full_mask transform beats model img = Ok (mask, total)
    /\ total = patch_sum transform beats model patches
    /\ forall tiles,
         tiles ≡ₚ zip patches positions ->
         exists mask',
           for_each (infer_step transform beats model) tiles
                    (zero_mask (nrows img) (ncols img), 0)
           = Ok (mask', total).
Proof.
  intros Hmodel Hsize.
  exists (grid_tiles img).*1, (grid_tiles img).*2.
  destruct (infer_any_order transform beats model Hmodel img (grid_tiles img)
              Hsize (reflexivity _)) as (mask & Hrun & _).
  exists mask, (patch_sum transform beats model (grid_tiles img).*1).
  split; [apply extract_patches_tiles|].
  split; [rewrite infer_full_mask_loop; exact Hrun|].
  split; [reflexivity|].
  intros tiles Hperm. rewrite zip_fst_snd in Hperm.
  destruct (infer_any_order transform beats model Hmodel img tiles Hsize Hperm)
    as (mask' & Hrun' & _).
  exists mask'. exact Hrun'.
Qed.

Lemma infer_total_is_patch_sum_witness :
  exists patches positions mask total,
    extract_patches (flat_image 130 260 (1, 2, 3)) PATCH_SIZE STRIDE
    = Ok (patches, positions, 130, 260)
    /\ infer_full_mask toy_transform toy_beats toy_model
                       (flat_image 130 260 (1, 2, 3)) = Ok (mask, total)
    /\ total = patch_sum toy_transform toy_beats toy_model patches
    /\ forall tiles,
         tiles ≡ₚ zip patches positions ->
         exists mask',
           for_each (infer_step toy_transform toy_beats toy_model) tiles
                    (zero_mask 130 260, 0)
           = Ok (mask', total).
Proof.
  apply (infer_total_is_patch_sum toy_transform toy_beats toy_model
           (flat_image 130 260 (1, 2, 3)) toy_model_ok).
  simpl. lia.
Defined.

(** C9: the total returned by [infer_full_mask] is the number of cells
    equal to 1 in the mask it returns; every predicted label is 0 or 1. *)
Theorem infer_total_is_mask_count {tensor logit : Type}
    (transform : image -> tensor) (beats : logit -> logit -> bool)
    (model : tensor -> grid (logit * logit)) (img : image) :
  patch_shaped model ->
  Z.of_nat (nrows img) * Z.of_nat (ncols img) < 2 ^ 63 ->
  (forall patch r c v,
      cell (predict transform beats model patch) r c = Some v -> v = 0 \/ v = 1)
  /\ exists mask total,
       infer_full_mask transform beats model img = Ok (mask, total)
       /\ total = count_eq 1 mask.
Proof.
  intros Hmodel Hsize. split.
  - apply predict_binary.
  - destruct (infer_any_order transform beats model Hmodel img (grid_tiles img)
                Hsize (reflexivity _)) as (mask & Hrun & _ & _ & _ & Hcount).
    exists mask, (patch_sum transform beats model (grid_tiles img).*1).
    split; [rewrite infer_full_mask_loop; exact Hrun|].
    symmetry. exact Hcount.
Qed.

Lemma infer_total_is_mask_count_witness :
  exists mask total,
    infer_full_mask toy_transform toy_beats toy_model
                    (flat_image 300 140 (5, 0, 0)) = Ok (mask, total)
    /\ total = count_eq 1 mask.
Proof.
  apply (infer_total_is_mask_count toy_transform toy_beats toy_model
           (flat_image 300 140 (5, 0, 0)) toy_model_ok).
  simpl. lia.
Defined.

(** C3 as the code has it: the stitched mask has the dimensions H x W of
    the image, and every cell outside the tiled region of
    floor(H/128)*128 rows and floor(W/128)*128 columns (equivalently,
    covered by no generated patch) holds 0. *)
Theorem infer_mask_shape {tensor logit : Type}
    (transform : image -> tensor) (beats : logit -> logit -> bool)
    (model : tensor -> grid (logit * logit)) (img : image) :
  patch_shaped model ->
  exists mask total,
    infer_full_mask transform beats model img = Ok (mask, total)
    /\ well_shaped mask
    /\ shape mask = (nrows img, ncols img)
    /\ forall r c,
         (r < nrows img)%nat -> (c < ncols img)%nat ->
         (Z.of_nat (nrows img) / 128 * 128 <= Z.of_nat r
          \/ Z.of_nat (ncols img) / 128 * 128 <= Z.of_nat c) ->
         cell mask r c = Some 0.
Proof.
  intros Hmodel.
  destruct (infer_loop_spec transform beats model Hmodel (grid_tiles img)
              (zero_mask (nrows img) (ncols img)) 0)
    as (mask & Hrun & Hm & Hshape & Hkeep & _).
  - apply zero_mask_well_shaped.
  - apply grid_tiles_ok.
  - apply grid_tiles_NoDup.
  - exists mask, (running_total transform beats model 0 (grid_tiles img)).
    split; [rewrite infer_full_mask_loop; exact Hrun|].
    split; [exact Hm|]. split; [exact Hshape|].
    intros r c Hr Hc Hout. rewrite Hkeep.
    + apply zero_mask_cell; assumption.
    + apply uncovered_iff. exact Hout.
Qed.

Lemma infer_mask_shape_witness :
  exists mask total,
    infer_full_mask toy_transform toy_beats toy_model
                    (flat_image 200 200 (5, 0, 0)) = Ok (mask, total)
    /\ well_shaped mask
    /\ shape mask = (200%nat, 200%nat)
    /\ forall r c,
         (r < 200)%nat -> (c < 200)%nat ->
         (Z.of_nat 200 / 128 * 128 <= Z.of_nat r
          \/ Z.of_nat 200 / 128 * 128 <= Z.of_nat c) ->
         cell mask r c = Some 0.
Proof.
  exact (infer_mask_shape toy_transform toy_beats toy_model
           (flat_image 200 200 (5, 0, 0)) toy_model_ok).
Defined.

(** C3 as stated fails: for a 200 x 200 image the stitched mask is
    200 x 200, not floor(200/128)*128 = 128 on each side. *)
Lemma stitched_mask_not_truncated :
  exists mask total,
    infer_full_mask toy_transform toy_beats toy_model
                    (flat_image 200 200 (5, 0, 0)) = Ok (mask, total)
    /\ shape mask = (200%nat, 200%nat)
    /\ shape mask <> (Z.to_nat (200 / 128 * 128), Z.to_nat (200 / 128 * 128)).
Proof.
  exists (store_block (zero_mask 200 200) 0 0 128 (replicate 128 (replicate 128 1))),
         16384.
  split; [vm_compute; reflexivity|].
  split; [reflexivity|]. vm_compute. discriminate.
Qed.

(** ** Strings: splitting, digits, and reading numbers back *)

Lemma contains_char_app (c : ascii) (a b : string) :
  contains_char c (a ++ b)%string = contains_char c a || contains_char c b.
Proof.
  induction a as [|x a IH]; simpl; [reflexivity|].
  rewrite IH. apply orb_assoc.
Qed.

Lemma py_split_app_sep (sep : ascii) (l rest : string) :
  contains_char sep l = false ->
  py_split sep (l ++ String sep rest)%string = l :: py_split sep rest.
Proof.
  induction l as [|a l IH]; simpl; intros Hl.
  - rewrite Ascii.eqb_refl. reflexivity.
  - apply orb_false_iff in Hl as [Ha Hl]. rewrite Ha, (IH Hl). reflexivity.
Qed.

Lemma py_split_no_sep (sep : ascii) (l : string) :
  contains_char sep l = false -> py_split sep l = [l].
Proof.
  induction l as [|a l IH]; simpl; intros Hl; [reflexivity|].
  apply orb_false_iff in Hl as [Ha Hl]. rewrite Ha, (IH Hl). reflexivity.
Qed.

(** Splitting the text of standard output gives back the printed lines,
    followed by the empty string after the last newline. *)
Lemma py_split_stdout (lines : list string) :
  Forall (fun l => contains_char LF l = false) lines ->
  py_split LF (stdout_text lines) = lines ++ [EmptyString].
Proof.
  induction 1 as [|l lines Hl _ IH]; [reflexivity|].
  simpl. rewrite py_split_app_sep by exact Hl. rewrite IH. reflexivity.
Qed.

Lemma all_numeric_app (a b : string) :
  all_numeric (a ++ b)%string = all_numeric a && all_numeric b.
Proof.
  induction a as [|x a IH]; simpl; [reflexivity|].
  rewrite IH. apply andb_assoc.
Qed.

Lemma all_digits_numeric (s : string) : all_digits s = true -> all_numeric s = true.
Proof.
  induction s as [|a s IH]; simpl; [reflexivity|].
  intros H. apply andb_true_iff in H as [Ha Hs].
  unfold numeric_char. rewrite Ha, (IH Hs). reflexivity.
Qed.

Lemma all_numeric_no (c : ascii) (s : string) :
  numeric_char c = false -> all_numeric s = true -> contains_char c s = false.
Proof.
  intros Hc. induction s as [|a s IH]; simpl; [reflexivity|].
  intros H. apply andb_true_iff in H as [Ha Hs]. rewrite (IH Hs).
  destruct (Ascii.eqb_spec a c) as [-> | _]; [congruence | reflexivity].
Qed.

Lemma all_digits_no (c : ascii) (s : string) :
  is_digit c = false -> all_digits s = true -> contains_char c s = false.
Proof.
  intros Hc. induction s as [|a s IH]; simpl; [reflexivity|].
  intros H. apply andb_true_iff in H as [Ha Hs]. rewrite (IH Hs).
  destruct (Ascii.eqb_spec a c) as [-> | _]; [congruence | reflexivity].
Qed.

Lemma all_digits_uint (d : Decimal.uint) :
  all_digits (NilEmpty.string_of_uint d) = true.
Proof. induction d; simpl; auto. Qed.

Lemma string_of_pos_uint (p : positive) :
  NilZero.string_of_uint (Pos.to_uint p) = NilEmpty.string_of_uint (Pos.to_uint p).
Proof.
  pose proof (DecimalPos.Unsigned.to_uint_nonnil p) as Hn.
  destruct (Pos.to_uint p); [contradiction|reflexivity..].
Qed.

Lemma str_int_digits (n : Z) : 0 <= n -> all_digits (str_int n) = true.
Proof.
  intros Hn. unfold str_int. destruct n as [|p|p]; [reflexivity| |lia].
  simpl. rewrite string_of_pos_uint. apply all_digits_uint.
Qed.

Lemma str_int_numeric (n : Z) : all_numeric (str_int n) = true.
Proof.
  unfold str_int. destruct n as [|p|p]; [reflexivity| |].
  - simpl. rewrite string_of_pos_uint.
    apply all_digits_numeric, all_digits_uint.
  - simpl. rewrite string_of_pos_uint.
    apply all_digits_numeric, all_digits_uint.
Qed.

Lemma str_int_nonempty (n : Z) : str_int n <> EmptyString.
Proof.
  unfold str_int. destruct n as [|p|p]; simpl; try discriminate.
  rewrite string_of_pos_uint.
  pose proof (DecimalPos.Unsigned.to_uint_nonnil p) as Hn.
  destruct (Pos.to_uint p); [contradiction|discriminate..].
Qed.

(** A string that starts with a digit carries no sign. *)
Lemma py_int_unsigned (a : ascii) (s : string) :
  is_digit a = true -> py_int (String a s) = int_digits false (String a s).
Proof.
  destruct a as [[] [] [] [] [] [] [] []]; try discriminate; reflexivity.
Qed.

Lemma py_float_unsigned (a : ascii) (s : string) :
  is_digit a = true -> py_float (String a s) = float_body false (String a s).
Proof.
  destruct a as [[] [] [] [] [] [] [] []]; try discriminate; reflexivity.
Qed.

(** [int(str(n)) == n] *)
Lemma py_int_str_int (n : Z) : py_int (str_int n) = Ok n.
Proof.
  unfold str_int. destruct n as [|p|p]; [reflexivity| |].
  - simpl. pose proof (str_int_digits (Zpos p) ltac:(lia)) as Hd.
    unfold str_int in Hd. simpl in Hd.
    destruct (NilZero.string_of_uint (Pos.to_uint p)) as [|a s] eqn:E.
    + exfalso. apply (str_int_nonempty (Zpos p)). exact E.
    + simpl in Hd. apply andb_true_iff in Hd as [Ha _].
      rewrite py_int_unsigned by exact Ha. rewrite <- E.
      unfold int_digits.
      rewrite NilZero.usu by apply DecimalPos.Unsigned.to_uint_nonnil.
      unfold Z.of_uint. rewrite DecimalPos.Unsigned.of_to. reflexivity.
  - simpl. unfold int_digits.
    rewrite NilZero.usu by apply DecimalPos.Unsigned.to_uint_nonnil.
    unfold Z.of_uint. rewrite DecimalPos.Unsigned.of_to. reflexivity.
Qed.

Lemma digit_cases (d : Z) :
  0 <= d < 10 ->
  d = 0 \/ d = 1 \/ d = 2 \/ d = 3 \/ d = 4 \/ d = 5 \/ d = 6 \/ d = 7 \/ d = 8 \/ d = 9.
Proof. lia. Qed.

(** Two digit characters read back as the number they spell. *)
Lemma two_digits_read (a b : Z) :
  0 <= a < 10 -> 0 <= b < 10 ->
  let dd := String (digit_char a) (String (digit_char b) EmptyString) in
  all_digits dd = true
  /\ exists f, NilEmpty.uint_of_string dd = Some f
               /\ N.of_uint f = Z.to_N (10 * a + b).
Proof.
  intros Ha Hb.
  destruct (digit_cases a Ha) as [-> | [-> | [-> | [-> | [-> | [-> | [-> | [-> | [-> | ->]]]]]]]]];
    destruct (digit_cases b Hb) as [-> | [-> | [-> | [-> | [-> | [-> | [-> | [-> | [-> | ->]]]]]]]]];
    (split; [reflexivity | eexists; split; reflexivity]).
Qed.

Lemma uint_of_str_int (q : Z) :
  0 <= q ->
  exists i, NilEmpty.uint_of_string (str_int q) = Some i /\ N.of_uint i = Z.to_N q.
Proof.
  intros Hq. unfold str_int. destruct q as [|p|p]; [| |lia].
  - exists (Decimal.D0 Decimal.Nil). split; reflexivity.
  - simpl. rewrite string_of_pos_uint. exists (Pos.to_uint p).
    split; [apply NilEmpty.usu|].
    unfold N.of_uint. apply DecimalPos.Unsigned.of_to.
Qed.

Lemma round_half_even_nonneg (num den : Z) :
  0 <= num -> 0 < den -> 0 <= round_half_even num den.
Proof.
  intros Hn Hd. unfold round_half_even.
  assert (0 <= num / den) by (apply Z.div_pos; lia).
  destruct (2 * (num mod den) ?= den); [destruct (Z.even (num / den))| |]; lia.
Qed.

Lemma hundredths_nonneg (m : positive) (e : Z) : 0 <= hundredths m e.
Proof.
  unfold hundredths. destruct (0 <=? e) eqn:E.
  - apply Z.leb_le in E. apply Z.mul_nonneg_nonneg; [lia|].
    apply Z.pow_nonneg. lia.
  - apply round_half_even_nonneg; [lia|]. apply Z.pow_pos_nonneg; lia.
Qed.

Lemma string_length_app (a b : string) :
  String.length (a ++ b)%string = (String.length a + String.length b)%nat.
Proof. induction a as [|x a IH]; simpl; [reflexivity|]. rewrite IH. reflexivity. Qed.

(** The text of [k] hundredths reads back as the binary64 value nearest
    to [k / 100]. *)
Lemma py_float_fixed2 (neg : bool) (k : Z) :
  0 <= k -> py_float (fixed2 neg k) = Ok (b64_of_ratio neg (Z.to_N k) 100).
Proof.
  intros Hk.
  assert (Hq : 0 <= k / 100) by (apply Z.div_pos; lia).
  assert (Ha : 0 <= k mod 100 / 10 < 10).
  { pose proof (Z.mod_pos_bound k 100 ltac:(lia)).
    split; [apply Z.div_pos; lia | apply Z.div_lt_upper_bound; lia]. }
  assert (Hb : 0 <= k mod 10 < 10) by (apply Z.mod_pos_bound; lia).
  destruct (two_digits_read _ _ Ha Hb) as (Hdd & f & Hf & Hfv).
  destruct (uint_of_str_int _ Hq) as (i & Hi & Hiv).
  set (dd := String (digit_char (k mod 100 / 10))
                    (String (digit_char (k mod 10)) EmptyString)) in *.
  set (ip := str_int (k / 100)) in *.
  assert (Hipd : all_digits ip = true) by (apply str_int_digits; exact Hq).
  assert (Hlen : String.length dd = 2%nat) by reflexivity.
  change (fixed2 neg k)
    with ((if neg then "-" else "") ++ ip ++ String "." dd)%string.
  assert (Hne : ip <> EmptyString) by apply str_int_nonempty.
  assert (Hhead : forall c t, (ip ++ String "." dd)%string = String c t ->
                              is_digit c = true).
  { intros c t Et. destruct ip as [|c' ip'] eqn:Eip; [contradiction|].
    simpl in Et. injection Et as <- _. simpl in Hipd.
    apply andb_true_iff in Hipd as [Hc _]. exact Hc. }
  assert (Hcons : (ip ++ String "." dd)%string <> EmptyString).
  { destruct ip; [contradiction|discriminate]. }
  clearbody ip dd.
  assert (Hbody : float_body neg (ip ++ String "." dd)%string
                  = Ok (b64_of_ratio neg (Z.to_N k) 100)).
  { unfold float_body.
    destruct (ip ++ String "." dd)%string as [|c t] eqn:Et; [contradiction|].
    pose proof (Hhead c t eq_refl) as Hc.
    destruct (String.eqb_spec (String c t) "inf") as [E | _];
      [injection E as -> _; discriminate|].
    destruct (String.eqb_spec (String c t) "infinity") as [E | _];
      [injection E as -> _; discriminate|].
    destruct (String.eqb_spec (String c t) "nan") as [E | _];
      [injection E as -> _; discriminate|].
    simpl orb. cbv iota. rewrite <- Et.
    rewrite py_split_app_sep by (apply all_digits_no; [reflexivity | exact Hipd]).
    rewrite py_split_no_sep by (apply all_digits_no; [reflexivity | exact Hdd]).
    unfold float_value. rewrite Hi, Hf.
    replace (String.length ip + String.length dd =? 0)%nat with false
      by (symmetry; apply Nat.eqb_neq; rewrite Hlen; lia).
    replace (pow10 (String.length dd)) with 100%positive
      by (rewrite Hlen; reflexivity).
    rewrite Hiv, Hfv. do 2 f_equal.
    clear -Hk Hq Ha Hb. Z.div_mod_to_equations.
    lia. }
  destruct neg.
  - simpl. exact Hbody.
  - simpl.
    destruct (ip ++ String "." dd)%string as [|c t] eqn:Et; [contradiction|].
    pose proof (Hhead c t eq_refl) as Hc.
    rewrite py_float_unsigned by exact Hc. exact Hbody.
Qed.

(** [float(f"{x:.2f}")] *)
Lemma py_float_fmt_2f (x : spec_float) : py_float (fmt_2f x) = Ok (round2 x).
Proof.
  destruct x as [s | s | | s m e].
  - simpl fmt_2f. rewrite py_float_fixed2 by lia. reflexivity.
  - destruct s; reflexivity.
  - reflexivity.
  - simpl fmt_2f. rewrite py_float_fixed2 by apply hundredths_nonneg.
    reflexivity.
Qed.

Lemma fixed2_numeric (neg : bool) (k : Z) : all_numeric (fixed2 neg k) = true.
Proof.
  assert (Ha : 0 <= k mod 100 / 10 < 10).
  { pose proof (Z.mod_pos_bound k 100 ltac:(lia)).
    split; [apply Z.div_pos; lia | apply Z.div_lt_upper_bound; lia]. }
  assert (Hb : 0 <= k mod 10 < 10) by (apply Z.mod_pos_bound; lia).
  destruct (two_digits_read _ _ Ha Hb) as (Hdd & _).
  unfold fixed2. rewrite !all_numeric_app, str_int_numeric.
  change (all_numeric (String "." ?s)) with (all_numeric s).
  rewrite (all_digits_numeric _ Hdd). destruct neg; reflexivity.
Qed.

Lemma fmt_2f_numeric (x : spec_float) : all_numeric (fmt_2f x) = true.
Proof.
  destruct x as [s | s | | s m e]; simpl fmt_2f;
    try apply fixed2_numeric; try destruct s; reflexivity.
Qed.

(** ** The runner and its caller *)

Lemma prefix_app (p s : string) : String.prefix p (p ++ s)%string = true.
Proof.
  induction p as [|a p IH]; simpl; [destruct s; reflexivity|].
  destruct (ascii_dec a a) as [_ | Hne]; [exact IH|contradiction].
Qed.

Lemma scan_pixels_line (st : option Z * option spec_float) (n : Z) :
  scan_line st ("ROOFTOP_PIXELS:" ++ str_int n)%string = Ok (Some n, st.2).
Proof.
  unfold scan_line. rewrite prefix_app.
  change ("ROOFTOP_PIXELS:" ++ str_int n)%string
    with ("ROOFTOP_PIXELS" ++ String ":" (str_int n))%string.
  rewrite py_split_app_sep by reflexivity.
  rewrite py_split_no_sep
    by (apply all_numeric_no; [reflexivity | apply str_int_numeric]).
  simpl. rewrite py_int_str_int. reflexivity.
Qed.

Lemma scan_area_line (st : option Z * option spec_float) (x : spec_float) :
  scan_line st ("ROOFTOP_AREA:" ++ fmt_2f x)%string = Ok (st.1, Some (round2 x)).
Proof.
  unfold scan_line.
  change (String.prefix "ROOFTOP_PIXELS:" ("ROOFTOP_AREA:" ++ fmt_2f x)) with false.
  rewrite prefix_app.
  change ("ROOFTOP_AREA:" ++ fmt_2f x)%string
    with ("ROOFTOP_AREA" ++ String ":" (fmt_2f x))%string.
  rewrite py_split_app_sep by reflexivity.
  rewrite py_split_no_sep
    by (apply all_numeric_no; [reflexivity | apply fmt_2f_numeric]).
  simpl. rewrite py_float_fmt_2f. reflexivity.
Qed.

Section RunnerFacts.
Context {tensor logit : Type}.
Variable transform : image -> tensor.
Variable beats : logit -> logit -> bool.
Variable str_round2 : spec_float -> string.

Local Abbreviation runner_main := (main transform beats str_round2).
Local Abbreviation runner := (run transform beats str_round2).
Local Abbreviation progress := (progress_lines str_round2).

(** A run of [main] in which no step raises. *)
Lemma main_runs (w : world) (path : string) model src img mask n out :
  load_model w = Ok model ->
  rasterio_open w path = Ok src ->
  read_rgb src = Ok img ->
  infer_full_mask transform beats model img = Ok (mask, n) ->
  save_figure w img mask (figure_title (area_of n)) = Ok tt ->
  runner_main w path out
  = (out ++ progress n (area_of n) ++ results_block n (area_of n), Ok tt).
Proof.
  intros H1 H2 H3 H4 H5.
  unfold main, mbind, io_bind, lift, print.
  rewrite H1, H2, H3, H4, H5.
  f_equal. rewrite <- !app_assoc. reflexivity.
Qed.

(** A run that ends without an exception went through every step. *)
Lemma run_success_inv (w : world) (argv : list string) :
  raised (runner w argv) = None ->
  exists prog path model src img mask n,
    argv = [prog; path]
    /\ os_path_exists w path = true
    /\ load_model w = Ok model
    /\ rasterio_open w path = Ok src
    /\ read_rgb src = Ok img
    /\ infer_full_mask transform beats model img = Ok (mask, n)
    /\ save_figure w img mask (figure_title (area_of n)) = Ok tt
    /\ runner w argv
       = Outcome (progress n (area_of n) ++ results_block n (area_of n)) None.
Proof.
  unfold run, script.
  destruct argv as [|prog [|path [|x rest]]]; try discriminate.
  simpl. destruct (os_path_exists w path) eqn:Hex; [|discriminate].
  simpl. intros Hrun.
  destruct (load_model w) as [model|e] eqn:H1;
    [|unfold main, mbind, io_bind, lift, print, run_io in Hrun;
      rewrite H1 in Hrun; discriminate].
  destruct (rasterio_open w path) as [src|e] eqn:H2;
    [|unfold main, mbind, io_bind, lift, print, run_io in Hrun;
      rewrite H1, H2 in Hrun; discriminate].
  destruct (read_rgb src) as [img|e] eqn:H3;
    [|unfold main, mbind, io_bind, lift, print, run_io in Hrun;
      rewrite H1, H2, H3 in Hrun; discriminate].
  destruct (infer_full_mask transform beats model img) as [[mask n]|e] eqn:H4;
    [|unfold main, mbind, io_bind, lift, print, run_io in Hrun;
      rewrite H1, H2, H3, H4 in Hrun; discriminate].
  destruct (save_figure w img mask (figure_title (area_of n))) as [[]|e] eqn:H5;
    [|unfold main, mbind, io_bind, lift, print, run_io in Hrun;
      rewrite H1, H2, H3, H4, H5 in Hrun; discriminate].
  exists prog, path, model, src, img, mask, n.
  repeat (split; [first [reflexivity | assumption]|]).
  unfold run_io. rewrite (main_runs w path model src img mask n []) by assumption.
  reflexivity.
Qed.
Lemma no_newline_numeric (s : string) :
  all_numeric s = true -> contains_char LF s = false.
Proof. apply all_numeric_no. reflexivity. Qed.

Lemma progress_no_newline (n : Z) (a : spec_float) :
  contains_char LF (str_round2 a) = false ->
  Forall (fun l => contains_char LF l = false)
         (progress n a ++ results_block n a).
Proof.
  intros Hr. unfold progress_lines, results_block.
  repeat apply Forall_cons_2; try apply Forall_nil_2; try reflexivity.
  - rewrite contains_char_app, (no_newline_numeric _ (str_int_numeric n)).
    reflexivity.
  - rewrite !contains_char_app, Hr. reflexivity.
  - rewrite contains_char_app, (no_newline_numeric _ (str_int_numeric n)).
    reflexivity.
  - rewrite contains_char_app, (no_newline_numeric _ (fmt_2f_numeric a)).
    reflexivity.
Qed.

Lemma scan_other (st : option Z * option spec_float) (l : string) :
  String.prefix "ROOFTOP_PIXELS:" l = false ->
  String.prefix "ROOFTOP_AREA:" l = false ->
  scan_line st l = Ok st.
Proof. intros H1 H2. unfold scan_line. rewrite H1, H2. reflexivity. Qed.

(** The caller's scan of the text of a successful run finds the two
    values, with or without the sentinel lines. *)
Lemma parse_results (n : Z) (a : spec_float) :
  contains_char LF (str_round2 a) = false ->
  parse_stdout (stdout_text (progress n a ++ results_block n a))
  = Ok (Some n, Some (round2 a))
  /\ parse_stdout (stdout_text (without_sentinels (progress n a ++ results_block n a)))
     = Ok (Some n, Some (round2 a)).
Proof.
  intros Hr. pose proof (progress_no_newline n a Hr) as Hnl.
  assert (Hw : without_sentinels (progress n a ++ results_block n a)
               = progress n a ++ ["ROOFTOP_PIXELS:" ++ str_int n;
                                  "ROOFTOP_AREA:" ++ fmt_2f a]%string)
    by reflexivity.
  split.
  - unfold parse_stdout. rewrite py_split_stdout by exact Hnl.
    unfold progress_lines, results_block. cbn [app for_each].
    repeat (rewrite scan_other by reflexivity; cbn [mbind result_bind]).
    rewrite scan_pixels_line. cbn [mbind result_bind].
    rewrite scan_area_line. cbn [mbind result_bind].
    repeat (rewrite scan_other by reflexivity; cbn [mbind result_bind]).
    reflexivity.
  - unfold parse_stdout. rewrite Hw. rewrite py_split_stdout.
    + unfold progress_lines. cbn [app for_each].
      repeat (rewrite scan_other by reflexivity; cbn [mbind result_bind]).
      rewrite scan_pixels_line. cbn [mbind result_bind].
      rewrite scan_area_line. cbn [mbind result_bind].
      repeat (rewrite scan_other by reflexivity; cbn [mbind result_bind]).
      reflexivity.
    + rewrite <- Hw. unfold without_sentinels.
      apply Forall_forall. intros l Hl.
      apply list_elem_of_In, List.filter_In in Hl as [Hl _].
      apply list_elem_of_In in Hl.
      exact (proj1 (Forall_forall _ _) Hnl l Hl).
Qed.
End RunnerFacts.

Lemma fmt_2f_no_newline (x : spec_float) : contains_char LF (fmt_2f x) = false.
Proof. apply no_newline_numeric, fmt_2f_numeric. Qed.

(** C5: a successful run prints, after the free-form progress lines, the
    lines RESULTS_START, ROOFTOP_PIXELS:<integer>, ROOFTOP_AREA:<area with
    two decimals> and RESULTS_END, in that order, where the integer is the
    count returned by [infer_full_mask]; the caller's scan for the two
    prefixes recovers the count and the printed area, and does so as well
    when the sentinel lines are left out.  (The progress line with the
    rounded area holds no line break.) *)
Theorem results_block_recovered {tensor logit : Type}
    (transform : image -> tensor) (beats : logit -> logit -> bool)
    (str_round2 : spec_float -> string) (w : world) (argv : list string) :
  (forall x, contains_char LF (str_round2 x) = false) ->
  raised (run transform beats str_round2 w argv) = None ->
  exists model src img mask n,
    load_model w = Ok model
    /\ read_rgb src = Ok img
    /\ infer_full_mask transform beats model img = Ok (mask, n)
    /\ exit_code (run transform beats str_round2 w argv) = 0
    /\ stdout (run transform beats str_round2 w argv)
       = progress_lines str_round2 n (area_of n)
         ++ [ "RESULTS_START"; "ROOFTOP_PIXELS:" ++ str_int n;
              "ROOFTOP_AREA:" ++ fmt_2f (area_of n); "RESULTS_END" ]%string
    /\ parse_stdout (stdout_text (stdout (run transform beats str_round2 w argv)))
       = Ok (Some n, Some (round2 (area_of n)))
    /\ parse_stdout
         (stdout_text (without_sentinels
                         (stdout (run transform beats str_round2 w argv))))
       = Ok (Some n, Some (round2 (area_of n))).
Proof.
  intros Hnl Hok.
  destruct (run_success_inv transform beats str_round2 w argv Hok)
    as (prog & path & model & src & img & mask & n
        & -> & Hex & H1 & H2 & H3 & H4 & H5 & Hrun).
  exists model, src, img, mask, n. rewrite Hrun.
  destruct (parse_results str_round2 n (area_of n) (Hnl _)) as [Hp1 Hp2].
  repeat (split; [first [assumption | reflexivity]|]). exact Hp2.
Qed.

Lemma results_block_recovered_witness :
  exists n,
    stdout (run toy_transform toy_beats fmt_2f (toy_world (Ok (toy_dataset 3))) toy_argv)
    = progress_lines fmt_2f n (area_of n)
      ++ [ "RESULTS_START"; "ROOFTOP_PIXELS:" ++ str_int n;
           "ROOFTOP_AREA:" ++ fmt_2f (area_of n); "RESULTS_END" ]%string
    /\ parse_stdout
         (stdout_text
            (stdout (run toy_transform toy_beats fmt_2f
                         (toy_world (Ok (toy_dataset 3))) toy_argv)))
       = Ok (Some n, Some (round2 (area_of n))).
Proof.
  destruct (results_block_recovered toy_transform toy_beats fmt_2f
              (toy_world (Ok (toy_dataset 3))) toy_argv)
    as (model & src & img & mask & n & _ & _ & _ & _ & Hout & Hparse & _).
  - exact fmt_2f_no_newline.
  - vm_compute. reflexivity.
  - exists n. split; [exact Hout | exact Hparse].
Defined.






Lemma read_rgb_few_bands (src : dataset) :
  (ds_count src < 3)%nat -> read_rgb src = Raise IndexError.
Proof.
  intros Hc. unfold read_rgb.
  destruct (ds_count src <? 3)%nat eqn:E; [reflexivity|].
  apply Nat.ltb_ge in E. lia.
Qed.

(** C8 as the code has it: when the raster library cannot open the file,
    or the file has fewer than three bands (reading band 3 then raises
    [IndexError]), the exception is not caught: the run ends with it, with
    exit status 1, having printed the two progress lines only; no line of
    a results block is printed.  No exception named ImageReadError is
    involved. *)
Theorem load_failure_aborts {tensor logit : Type}
    (transform : image -> tensor) (beats : logit -> logit -> bool)
    (str_round2 : spec_float -> string) (w : world)
    (prog path : string) (model : tensor -> grid (logit * logit)) (e : exn) :
  os_path_exists w path = true ->
  load_model w = Ok model ->
  load_fails w path e ->
  run transform beats str_round2 w [prog; path]
  = Outcome ["Loading model..."; "Reading image..."]%string (Some e)
  /\ exit_code (run transform beats str_round2 w [prog; path]) = 1
  /\ forallb (fun l => negb (results_line l))
             (stdout (run transform beats str_round2 w [prog; path])) = true.
Proof.
  intros Hex Hm Hfail.
  assert (Hrun : run transform beats str_round2 w [prog; path]
                 = Outcome ["Loading model..."; "Reading image..."]%string (Some e)).
  { unfold run, script. simpl. rewrite Hex. simpl.
    unfold run_io, main, mbind, io_bind, lift, print. rewrite Hm.
    destruct Hfail as [[Ho _] | (src & Ho & Hc & ->)].
    - rewrite Ho. reflexivity.
    - rewrite Ho, (read_rgb_few_bands src Hc). reflexivity. }
  rewrite Hrun. split; [reflexivity|]. split; [|reflexivity].
  unfold exit_code. simpl.
  destruct Hfail as [[_ He] | (src & _ & _ & ->)]; [|reflexivity].
  destruct e; try reflexivity. discriminate.
Qed.

Lemma load_failure_aborts_witness :
  run toy_transform toy_beats fmt_2f (toy_world (Ok (toy_dataset 2))) toy_argv
  = Outcome ["Loading model..."; "Reading image..."]%string (Some IndexError)
  /\ run toy_transform toy_beats fmt_2f
         (toy_world (Raise (OtherError "RasterioIOError"))) toy_argv
     = Outcome ["Loading model..."; "Reading image..."]%string
               (Some (OtherError "RasterioIOError")).
Proof.
  split.
  - apply (load_failure_aborts toy_transform toy_beats fmt_2f
             (toy_world (Ok (toy_dataset 2)))
             "modeltester_UI.py" "tile.tif" toy_model IndexError);
      [reflexivity | reflexivity |].
    right. exists (toy_dataset 2).
    split; [reflexivity|]. split; [simpl; lia | reflexivity].
  - apply (load_failure_aborts toy_transform toy_beats fmt_2f
             (toy_world (Raise (OtherError "RasterioIOError")))
             "modeltester_UI.py" "tile.tif" toy_model
             (OtherError "RasterioIOError"));
      [reflexivity | reflexivity |].
    left. split; reflexivity.
Defined.

(** C8 as stated fails: on a raster with two bands the run ends with
    [IndexError], not with an exception named ImageReadError. *)
Lemma two_band_raster_raises_IndexError :
  raised (run toy_transform toy_beats fmt_2f
              (toy_world (Ok (toy_dataset 2))) toy_argv) = Some IndexError
  /\ raised (run toy_transform toy_beats fmt_2f
                 (toy_world (Ok (toy_dataset 2))) toy_argv)
     <> Some (OtherError "ImageReadError").
Proof. split; [reflexivity | discriminate]. Qed.

(** ** Images smaller than a patch *)

Lemma grid_tiles_small (img : image) :
  (nrows img < 128)%nat \/ (ncols img < 128)%nat -> grid_tiles img = [].
Proof.
  intros Hs. apply nil_length_inv. apply Nat2Z.inj.
  rewrite grid_tiles_length. destruct Hs as [Hs | Hs].
  - rewrite (Z.div_small (Z.of_nat (nrows img))) by lia. reflexivity.
  - rewrite (Z.div_small (Z.of_nat (ncols img))) by lia. lia.
Qed.

(** C10: an image with H < 128 or W < 128 gives no patch, so
    [infer_full_mask] returns the all-zero H x W mask and the count 0
    whatever the network is (its loop body, the only place that calls the
    network, runs over an empty sequence), and a run on such an image
    that loads its model and saves its figure reports ROOFTOP_PIXELS:0
    and ROOFTOP_AREA:0.00. *)
Theorem small_image_reports_zero {tensor logit : Type}
    (transform : image -> tensor) (beats : logit -> logit -> bool)
    (str_round2 : spec_float -> string) (w : world)
    (prog path : string) (model : tensor -> grid (logit * logit))
    (src : dataset) (img : image) :
  (nrows img < 128)%nat \/ (ncols img < 128)%nat ->
  os_path_exists w path = true ->
  load_model w = Ok model ->
  rasterio_open w path = Ok src ->
  read_rgb src = Ok img ->
  save_figure w img (zero_mask (nrows img) (ncols img))
              (figure_title (area_of 0)) = Ok tt ->
  extract_patches img PATCH_SIZE STRIDE
  = Ok ([], [], Z.of_nat (nrows img), Z.of_nat (ncols img))
  /\ (forall (T L : Type) (tr : image -> T) (b : L -> L -> bool)
             (m : T -> grid (L * L)),
         infer_full_mask tr b m img
         = for_each (infer_step tr b m) [] (zero_mask (nrows img) (ncols img), 0)
         /\ infer_full_mask tr b m img
            = Ok (zero_mask (nrows img) (ncols img), 0))
  /\ run transform beats str_round2 w [prog; path]
     = Outcome (progress_lines str_round2 0 (area_of 0)
                ++ [ "RESULTS_START"; "ROOFTOP_PIXELS:0";
                     "ROOFTOP_AREA:0.00"; "RESULTS_END" ]%string)
               None.
Proof.
  intros Hs Hex Hm Ho Hr Hf.
  pose proof (grid_tiles_small img Hs) as Ht.
  assert (Hinfer : forall (T L : Type) (tr : image -> T) (b : L -> L -> bool)
                          (m : T -> grid (L * L)),
             infer_full_mask tr b m img
             = Ok (zero_mask (nrows img) (ncols img), 0)).
  { intros T L tr b m. rewrite infer_full_mask_loop, Ht. reflexivity. }
  split; [rewrite extract_patches_tiles, Ht; reflexivity|].
  split.
  - intros T L tr b m. split; [|apply Hinfer].
    rewrite infer_full_mask_loop, Ht. reflexivity.
  - unfold run, script. simpl. rewrite Hex. simpl. unfold run_io.
    rewrite (main_runs transform beats str_round2 w path model src img
               (zero_mask (nrows img) (ncols img)) 0 [])
      by (try assumption; apply Hinfer).
    reflexivity.
Qed.

Lemma small_image_reports_zero_witness :
  run toy_transform toy_beats fmt_2f
      (toy_world (Ok (Dataset 3 100 300 (fun _ _ _ => 255)))) toy_argv
  = Outcome (progress_lines fmt_2f 0 (area_of 0)
             ++ [ "RESULTS_START"; "ROOFTOP_PIXELS:0";
                  "ROOFTOP_AREA:0.00"; "RESULTS_END" ]%string)
            None.
Proof.
  apply (small_image_reports_zero toy_transform toy_beats fmt_2f
           (toy_world (Ok (Dataset 3 100 300 (fun _ _ _ => 255))))
           "modeltester_UI.py" "tile.tif" toy_model
           (Dataset 3 100 300 (fun _ _ _ => 255))
           (Grid 100 300
              ((fun r => (fun c => (255, 255, 255)) <$> seq 0 300) <$> seq 0 100)));
    try reflexivity.
  left. simpl. lia.
Defined.

(** ** Binary64 rounding *)

Lemma iter_pos_nat {A} (f : A -> A) (p : positive) (x : A) :
  SpecFloat.iter_pos f p x = Nat.iter (Pos.to_nat p) f x.
Proof.
  revert x. induction p as [p IH | p IH |]; intros x;
    cbn [SpecFloat.iter_pos].
  - rewrite !IH, Pos2Nat.inj_xI.
    replace (S (2 * Pos.to_nat p)) with (Pos.to_nat p + S (Pos.to_nat p))%nat by lia.
    rewrite Nat.iter_add. cbn [Nat.iter nat_rect].
    rewrite Nat.iter_swap. reflexivity.
  - rewrite !IH, Pos2Nat.inj_xO.
    replace (2 * Pos.to_nat p)%nat with (Pos.to_nat p + Pos.to_nat p)%nat by lia.
    rewrite Nat.iter_add. reflexivity.
  - reflexivity.
Qed.

Lemma shr_1_spec (m : Z) (r s : bool) :
  0 <= m ->
  shr_1 (Build_shr_record m r s) = Build_shr_record (m / 2) (Z.odd m) (r || s).
Proof.
  intros Hm. rewrite <- Z.div2_div.
  destruct m as [|[p|p|]|p]; try lia; reflexivity.
Qed.

(** Shifting right by [j + 1] bits keeps the quotient, the last bit
    shifted out, and whether any earlier bit was set. *)
Lemma shr_iter_spec (m : Z) (j : nat) :
  0 <= m ->
  Nat.iter (S j) shr_1 (Build_shr_record m false false)
  = Build_shr_record (m / 2 ^ (Z.of_nat j + 1))
                     (Z.odd (m / 2 ^ Z.of_nat j))
                     (negb (m mod 2 ^ Z.of_nat j =? 0)).
Proof.
  intros Hm. induction j as [|j IH].
  - change (Nat.iter 1 shr_1 ?x) with (shr_1 x).
    rewrite shr_1_spec by exact Hm.
    change (2 ^ (Z.of_nat 0 + 1)) with 2. change (2 ^ Z.of_nat 0) with 1.
    rewrite Z.div_1_r, Z.mod_1_r. reflexivity.
  - change (Nat.iter (S (S j)) shr_1 ?x) with (shr_1 (Nat.iter (S j) shr_1 x)).
    rewrite IH.
    assert (Hp : 0 < 2 ^ Z.of_nat j) by (apply Z.pow_pos_nonneg; lia).
    rewrite shr_1_spec by (apply Z.div_pos; [lia | apply Z.pow_pos_nonneg; lia]).
    replace (Z.of_nat (S j)) with (Z.of_nat j + 1) by lia.
    f_equal.
    + rewrite Z.div_div by lia.
      rewrite (Z.pow_add_r 2 (Z.of_nat j + 1) 1) by lia. reflexivity.
    + rewrite (Z.pow_add_r 2 (Z.of_nat j) 1) by lia.
      change (2 ^ 1) with 2.
      rewrite Z.rem_mul_r by lia.
      rewrite Zmod_odd.
      pose proof (Z.mod_pos_bound m (2 ^ Z.of_nat j) Hp) as Hb.
      destruct (Z.odd (m / 2 ^ Z.of_nat j));
        destruct (Z.eqb_spec (m mod 2 ^ Z.of_nat j) 0) as [E | E]; simpl;
        symmetry.
      * apply negb_true_iff, Z.eqb_neq. lia.
      * apply negb_true_iff, Z.eqb_neq. lia.
      * apply negb_false_iff, Z.eqb_eq. lia.
      * apply negb_true_iff, Z.eqb_neq. lia.
Qed.

Lemma digits2_pos_bounds (p : positive) :
  2 ^ (Zpos (digits2_pos p) - 1) <= Zpos p < 2 ^ Zpos (digits2_pos p).
Proof.
  induction p as [p IH | p IH |]; simpl digits2_pos.
  - rewrite Pos2Z.inj_succ.
    replace (Z.succ (Zpos (digits2_pos p)) - 1) with (Z.succ (Zpos (digits2_pos p) - 1)) by lia.
    rewrite !Z.pow_succ_r by lia. lia.
  - rewrite Pos2Z.inj_succ.
    replace (Z.succ (Zpos (digits2_pos p)) - 1) with (Z.succ (Zpos (digits2_pos p) - 1)) by lia.
    rewrite !Z.pow_succ_r by lia. lia.
  - simpl. lia.
Qed.

Lemma digits2_pos_unique (p : positive) (d : Z) :
  2 ^ (d - 1) <= Zpos p < 2 ^ d -> Zpos (digits2_pos p) = d.
Proof.
  intros [Hlo Hhi]. pose proof (digits2_pos_bounds p) as [Hl Hh].
  assert (Hd : 0 < d).
  { destruct (Z_lt_le_dec 0 d) as [?|Hd]; [assumption|].
    destruct (Z.eq_dec d 0) as [-> | Hne]; [simpl in Hhi; lia|].
    rewrite Z.pow_neg_r in Hhi by lia. lia. }
  destruct (Z.lt_trichotomy (Zpos (digits2_pos p)) d) as [Hlt | [Heq | Hgt]];
    [|exact Heq|].
  - assert (2 ^ Zpos (digits2_pos p) <= 2 ^ (d - 1))
      by (apply Z.pow_le_mono_r; lia). lia.
  - assert (2 ^ d <= 2 ^ (Zpos (digits2_pos p) - 1))
      by (apply Z.pow_le_mono_r; lia). lia.
Qed.

(** Rounding to nearest after a right shift by [k] bits moves the value by
    at most half a unit of the last kept bit. *)
Lemma round_shift (P k : Z) :
  0 <= P -> 0 < k ->
  let mrs := Nat.iter (Z.to_nat k) shr_1 (Build_shr_record P false false) in
  let m2 := round_nearest_even (shr_m mrs) (loc_of_shr_record mrs) in
  P / 2 ^ k <= m2 <= P / 2 ^ k + 1
  /\ - 2 ^ (k - 1) <= m2 * 2 ^ k - P <= 2 ^ (k - 1).
Proof.
  intros HP Hk.
  replace (Z.to_nat k) with (S (Z.to_nat (k - 1))) by lia.
  rewrite shr_iter_spec by exact HP.
  rewrite Z2Nat.id by lia. replace (k - 1 + 1) with k by lia.
  cbv zeta. cbn [shr_m].
  assert (HA : 0 < 2 ^ (k - 1)) by (apply Z.pow_pos_nonneg; lia).
  assert (Hk2 : 2 ^ k = 2 ^ (k - 1) * 2).
  { replace k with (k - 1 + 1) at 1 by lia. rewrite Z.pow_add_r by lia. reflexivity. }
  set (A := 2 ^ (k - 1)) in *.
  pose proof (Z.div_mod P A ltac:(lia)) as HdP.
  pose proof (Z.mod_pos_bound P A HA) as Hlo.
  assert (Hm1 : P / 2 ^ k = P / A / 2) by (rewrite Hk2, Z.div_div by lia; reflexivity).
  pose proof (Z.div_mod (P / A) 2 ltac:(lia)) as Hdq.
  rewrite Zmod_odd in Hdq.
  rewrite Hm1, Hk2.
  set (q := P / A) in *. set (lo := P mod A) in *. set (m1 := q / 2) in *.
  assert (HX : A * q = 2 * (A * m1) + A * (if Z.odd q then 1 else 0))
    by (rewrite Hdq at 1; ring).
  destruct (Z.odd q); destruct (Z.eqb_spec lo 0) as [E | E];
    cbn [negb loc_of_shr_record round_nearest_even].
  - destruct (Z.even m1); nia.
  - nia.
  - nia.
  - nia.
Qed.

Lemma fexp_normal (x : Z) : - 1074 <= x - 53 -> fexp 53 1024 x = x - 53.
Proof. intros Hx. unfold fexp, emin. lia. Qed.

(** The first shift of a rounding: a mantissa of more than 53 bits loses
    its low bits. *)
Lemma shr_fexp_long (P : positive) (e : Z) :
  53 < Zpos (digits2_pos P) ->
  - 1074 <= Zpos (digits2_pos P) + e - 53 ->
  shr_fexp 53 1024 (Zpos P) e loc_Exact
  = (Nat.iter (Z.to_nat (Zpos (digits2_pos P) - 53)) shr_1
              (Build_shr_record (Zpos P) false false),
     e + (Zpos (digits2_pos P) - 53)).
Proof.
  intros HD He. unfold shr_fexp. cbn [Zdigits2 shr_record_of_loc].
  rewrite fexp_normal by lia.
  replace (Zpos (digits2_pos P) + e - 53 - e)
    with (Zpos (Z.to_pos (Zpos (digits2_pos P) - 53))) by lia.
  cbn [shr]. rewrite iter_pos_nat. f_equal.
  - f_equal. lia.
  - lia.
Qed.

(** A mantissa of exactly 53 bits is kept. *)
Lemma shr_fexp_normal (m : positive) (e : Z) :
  Zpos (digits2_pos m) = 53 -> - 1074 <= e ->
  shr_fexp 53 1024 (Zpos m) e loc_Exact = (Build_shr_record (Zpos m) false false, e).
Proof.
  intros Hd He. unfold shr_fexp. cbn [Zdigits2 shr_record_of_loc].
  rewrite Hd, fexp_normal by lia.
  replace (53 + e - 53 - e) with 0 by lia. reflexivity.
Qed.

(** A mantissa rounded up to 2^53 is renormalised. *)
Lemma shr_fexp_carry (e : Z) :
  - 1074 <= e ->
  shr_fexp 53 1024 (2 ^ 53) e loc_Exact
  = (Build_shr_record (2 ^ 52) false false, e + 1).
Proof.
  intros He. unfold shr_fexp.
  change (Zdigits2 (2 ^ 53)) with 54.
  rewrite fexp_normal by lia.
  replace (54 + e - 53 - e) with 1 by lia. reflexivity.
Qed.

Lemma binary_round_aux_normal (s : bool) (m : positive) (e : Z) :
  Zpos (digits2_pos m) = 53 -> - 1074 <= e <= 971 ->
  binary_round_aux 53 1024 s (Zpos m) e loc_Exact = S754_finite s m e.
Proof.
  intros Hd He. unfold binary_round_aux.
  rewrite shr_fexp_normal by (trivial; lia).
  cbn [shr_m loc_of_shr_record round_nearest_even].
  rewrite shr_fexp_normal by (trivial; lia).
  cbn [shr_m].
  replace (e <=? 1024 - 53) with true by (symmetry; apply Z.leb_le; lia).
  reflexivity.
Qed.

(** Rounding an exact integer mantissa [P] of [D > 53] bits at exponent
    [e]: the result is finite and within half a unit in the last place,
    2^(D - 54) in units of 2^e, of [P]. *)
Lemma binary_round_aux_long (P : positive) (e : Z) :
  53 < Zpos (digits2_pos P) ->
  - 1074 <= Zpos (digits2_pos P) + e - 53 ->
  Zpos (digits2_pos P) + e - 53 + 1 <= 971 ->
  exists mf ef,
    binary_round_aux 53 1024 false (Zpos P) e loc_Exact = S754_finite false mf ef
    /\ Zpos (digits2_pos P) + e - 53 <= ef <= Zpos (digits2_pos P) + e - 53 + 1
    /\ - 2 ^ (Zpos (digits2_pos P) - 54)
       <= Zpos mf * 2 ^ (ef - e) - Zpos P
       <= 2 ^ (Zpos (digits2_pos P) - 54).
Proof.
  intros HD Hlo Hhi.
  set (D := Zpos (digits2_pos P)) in *. set (k := D - 53).
  pose proof (digits2_pos_bounds P) as [HPl HPh]. fold D in HPl, HPh.
  assert (Hk : 0 < k) by (unfold k; lia).
  assert (Hpk : 0 < 2 ^ k) by (apply Z.pow_pos_nonneg; lia).
  assert (HD1 : 2 ^ (D - 1) = 2 ^ k * 2 ^ 52).
  { rewrite <- Z.pow_add_r by lia. f_equal. unfold k. lia. }
  assert (HD2 : 2 ^ D = 2 ^ k * 2 ^ 53).
  { rewrite <- Z.pow_add_r by lia. f_equal. unfold k. lia. }
  assert (Hm1 : 2 ^ 52 <= Zpos P / 2 ^ k < 2 ^ 53).
  { split.
    - apply Z.div_le_lower_bound; lia.
    - apply Z.div_lt_upper_bound; lia. }
  destruct (round_shift (Zpos P) k ltac:(lia) Hk) as [Hm2 Herr].
  cbv zeta in Hm2, Herr.
  unfold binary_round_aux. rewrite shr_fexp_long by assumption.
  fold D. fold k.
  set (mrs := Nat.iter (Z.to_nat k) shr_1 (Build_shr_record (Zpos P) false false)) in *.
  set (m2 := round_nearest_even (shr_m mrs) (loc_of_shr_record mrs)) in *.
  replace (D - 54) with (k - 1) by (unfold k; lia).
  destruct (Z_lt_le_dec m2 (2 ^ 53)) as [Hlt | Hge].
  - destruct m2 as [|p2|p2] eqn:E2; try lia.
    assert (Hd2 : Zpos (digits2_pos p2) = 53)
      by (apply digits2_pos_unique; change (53 - 1) with 52; lia).
    rewrite shr_fexp_normal by (trivial; unfold k; lia).
    cbn [shr_m].
    replace (e + k <=? 1024 - 53) with true
      by (symmetry; apply Z.leb_le; unfold k; lia).
    exists p2, (e + k). split; [reflexivity|].
    split; [unfold k; lia|].
    replace (e + k - e) with k by lia. exact Herr.
  - assert (E2 : m2 = 2 ^ 53) by lia. rewrite E2.
    rewrite shr_fexp_carry by (unfold k; lia).
    cbn [shr_m].
    replace (e + k + 1 <=? 1024 - 53) with true
      by (symmetry; apply Z.leb_le; unfold k; lia).
    exists (Z.to_pos (2 ^ 52)), (e + k + 1). split; [reflexivity|].
    split; [unfold k; lia|].
    replace (e + k + 1 - e) with (k + 1) by lia.
    rewrite Z.pow_add_r by lia.
    change (Zpos (Z.to_pos (2 ^ 52)) * (2 ^ k * 2 ^ 1)) with (2 ^ 52 * (2 ^ k * 2)).
    rewrite E2 in Herr. lia.
Qed.

Lemma pos_iter_xO (p q : positive) :
  Zpos (Pos.iter xO p q) = Zpos p * 2 ^ Zpos q.
Proof.
  induction q as [|q IH] using Pos.peano_ind.
  - simpl. lia.
  - rewrite Pos.iter_succ, Pos2Z.inj_xO, IH, Pos2Z.inj_succ.
    rewrite Z.pow_succ_r by lia. ring.
Qed.

(** An integer below 2^52 converts exactly: its mantissa is the integer
    shifted up to 53 bits. *)
Lemma b64_of_Z_exact (p : positive) :
  Zpos (digits2_pos p) < 53 ->
  let q := Z.to_pos (53 - Zpos (digits2_pos p)) in
  b64_of_Z (Zpos p) = S754_finite false (Pos.iter xO p q) (- Zpos q)
  /\ Zpos (digits2_pos (Pos.iter xO p q)) = 53.
Proof.
  intros Hd q.
  pose proof (digits2_pos_bounds p) as [Hl Hh].
  set (d := Zpos (digits2_pos p)) in *.
  assert (Hq : Zpos q = 53 - d) by (unfold q; lia).
  assert (Hdig : Zpos (digits2_pos (Pos.iter xO p q)) = 53).
  { apply digits2_pos_unique. rewrite pos_iter_xO, Hq.
    assert (0 < 2 ^ (53 - d)) by (apply Z.pow_pos_nonneg; lia).
    replace (2 ^ (53 - 1)) with (2 ^ (d - 1) * 2 ^ (53 - d))
      by (rewrite <- Z.pow_add_r by lia; f_equal; lia).
    replace (2 ^ 53) with (2 ^ d * 2 ^ (53 - d))
      by (rewrite <- Z.pow_add_r by lia; f_equal; lia).
    split; [apply Z.mul_le_mono_nonneg_r | apply Z.mul_lt_mono_pos_r]; lia. }
  split; [|exact Hdig].
  unfold b64_of_Z, binary_normalize, binary_round, shl_align.
  fold d. rewrite Z.add_0_r, fexp_normal by lia.
  replace (d - 53 - 0) with (Zneg q) by lia.
  replace (d - 53) with (- Zpos q) by lia.
  apply binary_round_aux_normal; [exact Hdig | lia].
Qed.

Lemma round_half_even_near (num den k : Z) :
  0 < den -> 2 * Z.abs (num - k * den) < den -> round_half_even num den = k.
Proof.
  intros Hden Hnear. unfold round_half_even.
  pose proof (Z.div_mod num den ltac:(lia)) as Hdm.
  pose proof (Z.mod_pos_bound num den Hden) as Hb.
  destruct (Z_le_gt_dec (k * den) num) as [Hge | Hlt].
  - assert (Hq : num / den = k) by (symmetry; apply (Z.div_unique num den k (num - k * den)); lia).
    assert (Hr : num mod den = num - k * den) by (rewrite Hq in Hdm; lia).
    rewrite Hq, Hr.
    destruct (Z.compare_spec (2 * (num - k * den)) den); lia.
  - assert (Hq : num / den = k - 1)
      by (symmetry; apply (Z.div_unique num den (k - 1) (num - (k - 1) * den)); lia).
    assert (Hr : num mod den = num - (k - 1) * den) by (rewrite Hq in Hdm; lia).
    rewrite Hq, Hr.
    destruct (Z.compare_spec (2 * (num - (k - 1) * den)) den); lia.
Qed.

Lemma PIXEL_AREA_M2_value :
  PIXEL_AREA_M2 = S754_finite false 6485183463413514 (-56).
Proof. reflexivity. Qed.

(** The binary64 product of a count below 2^48 with the constant 0.09 is
    so close to the exact product that its two-decimal rounding is exact:
    [100 * area] rounds to [9 * n]. *)
Lemma area_of_hundredths (n : Z) :
  0 < n < 2 ^ 48 ->
  exists mf ef,
    area_of n = S754_finite false mf ef /\ hundredths mf ef = 9 * n.
Proof.
  intros [Hn0 Hn]. destruct n as [|p|p]; try lia.
  pose proof (digits2_pos_bounds p) as [Hl Hh].
  assert (Hd : Zpos (digits2_pos p) <= 48).
  { destruct (Z_le_gt_dec (Zpos (digits2_pos p)) 48) as [?|Hgt]; [assumption|].
    assert (2 ^ 48 <= 2 ^ (Zpos (digits2_pos p) - 1))
      by (apply Z.pow_le_mono_r; lia). lia. }
  destruct (b64_of_Z_exact p ltac:(lia)) as [Hconv Hdig]. cbv zeta in Hconv, Hdig.
  set (q := Z.to_pos (53 - Zpos (digits2_pos p))) in *.
  assert (Hq : 5 <= Zpos q <= 52) by (unfold q; lia).
  set (mx := Pos.iter xO p q) in *.
  assert (Hmx : Zpos mx = Zpos p * 2 ^ Zpos q) by apply pos_iter_xO.
  pose proof (digits2_pos_bounds mx) as [Hmxl Hmxh].
  rewrite Hdig in Hmxl, Hmxh. change (53 - 1) with 52 in Hmxl.
  unfold area_of, b64_mul. rewrite Hconv, PIXEL_AREA_M2_value. cbn [SFmul xorb].
  set (P := (mx * 6485183463413514)%positive).
  assert (HP : Zpos P = Zpos mx * 6485183463413514) by reflexivity.
  pose proof (digits2_pos_bounds P) as [HPl HPh].
  assert (HD : 105 <= Zpos (digits2_pos P) <= 106).
  { split.
    - destruct (Z_le_gt_dec 105 (Zpos (digits2_pos P))) as [?|Hgt]; [assumption|].
      assert (2 ^ Zpos (digits2_pos P) <= 2 ^ 104) by (apply Z.pow_le_mono_r; lia).
      change (2 ^ 52) with 4503599627370496 in Hmxl.
      change (2 ^ 104) with (4503599627370496 * 4503599627370496) in *.
      nia.
    - destruct (Z_le_gt_dec (Zpos (digits2_pos P)) 106) as [?|Hgt]; [assumption|].
      assert (2 ^ 106 <= 2 ^ (Zpos (digits2_pos P) - 1))
        by (apply Z.pow_le_mono_r; lia).
      change (2 ^ 53) with 9007199254740992 in Hmxh.
      change (2 ^ 106) with (9007199254740992 * 9007199254740992) in *.
      nia. }
  destruct (binary_round_aux_long P (- Zpos q + -56)) as (mf & ef & Hr & Hef & Herr);
    try lia.
  exists mf, ef. split; [exact Hr|].
  set (D := Zpos (digits2_pos P)) in *.
  assert (Hneg : ef < 0) by lia.
  unfold hundredths.
  replace (0 <=? ef) with false by (symmetry; apply Z.leb_gt; lia).
  apply round_half_even_near; [apply Z.pow_pos_nonneg; lia|].
  (* scale by T = 2^(ef - e) > 0, where e = -q - 56 *)
  set (T := 2 ^ (ef - (- Zpos q + -56))) in *.
  assert (HT : 0 < T) by (apply Z.pow_pos_nonneg; lia).
  assert (HUT : 2 ^ (- ef) * T = 2 ^ Zpos q * 2 ^ 56).
  { unfold T. rewrite <- !Z.pow_add_r by lia. f_equal. lia. }
  assert (Hhalf : 2 ^ (D - 54) <= 2 ^ 52) by (apply Z.pow_le_mono_r; lia).
  assert (Hq5 : 2 ^ 5 <= 2 ^ Zpos q) by (apply Z.pow_le_mono_r; lia).
  set (Q := 2 ^ Zpos q) in *. set (U := 2 ^ (- ef)) in *.
  set (E := 2 ^ (D - 54)) in *.
  assert (HY : (100 * Zpos mf - 9 * Zpos p * U) * T
               = 100 * (Zpos mf * T - Zpos P) - 24 * Zpos mx).
  { rewrite HP, Hmx. fold Q.
    replace ((100 * Zpos mf - 9 * Zpos p * U) * T)
      with (100 * (Zpos mf * T) - 9 * Zpos p * (U * T)) by ring.
    rewrite HUT. change (2 ^ 56) with 72057594037927936. ring. }
  change (2 ^ 56) with 72057594037927936 in HUT.
  change (2 ^ 52) with 4503599627370496 in *.
  change (2 ^ 53) with 9007199254740992 in *.
  change (2 ^ 5) with 32 in *.
  set (X := 100 * Zpos mf - 9 * Zpos p * U) in *.
  apply (Z.mul_lt_mono_pos_r T); [exact HT|].
  destruct (Z.abs_spec X) as [[_ ->] | [_ ->]].
  - replace (2 * X * T) with (2 * (X * T)) by ring. rewrite HY, HUT. lia.
  - replace (2 * - X * T) with (- (2 * (X * T))) by ring. rewrite HY, HUT. lia.
Qed.

(** The area line shows the exact decimal [0.09 * n]. *)
Lemma fmt_area_exact (n : Z) :
  0 <= n < 2 ^ 48 -> fmt_2f (area_of n) = fixed2 false (9 * n).
Proof.
  intros [Hn0 Hn]. destruct (Z.eq_dec n 0) as [-> | Hne]; [reflexivity|].
  destruct (area_of_hundredths n ltac:(lia)) as (mf & ef & -> & Hh).
  simpl fmt_2f. rewrite Hh. reflexivity.
Qed.

(** The bound 2^48 is sharp: just above it the binary64 product is too
    coarse for two exact decimals. *)
Example area_bound_sharp :
  2 ^ 48 <= 456740638590057 < 2 ^ 49
  /\ fmt_2f (area_of 456740638590057) = "41106657473105.12"%string
  /\ fixed2 false (9 * 456740638590057) = "41106657473105.13"%string.
Proof. repeat split; reflexivity || (vm_compute; discriminate). Qed.

(** The count returned for an image is at most its number of pixels. *)
Lemma infer_total_bound {tensor logit : Type}
    (transform : image -> tensor) (beats : logit -> logit -> bool)
    (model : tensor -> grid (logit * logit)) (img : image) :
  patch_shaped model ->
  Z.of_nat (nrows img) * Z.of_nat (ncols img) < 2 ^ 63 ->
  exists mask n,
    infer_full_mask transform beats model img = Ok (mask, n)
    /\ 0 <= n <= Z.of_nat (nrows img) * Z.of_nat (ncols img).
Proof.
  intros Hmodel Hsize.
  destruct (infer_any_order transform beats model Hmodel img (grid_tiles img)
              Hsize (reflexivity _)) as (mask & Hrun & _).
  exists mask, (patch_sum transform beats model (grid_tiles img).*1).
  split; [rewrite infer_full_mask_loop; exact Hrun|].
  rewrite patch_sum_tiles.
  pose proof (tile_ones_bound transform beats model Hmodel (grid_tiles img)) as Hb.
  pose proof (grid_tiles_length img) as Hlen.
  pose proof (tiles_area_bound (Z.of_nat (nrows img)) (Z.of_nat (ncols img))
                ltac:(lia) ltac:(lia)).
  lia.
Qed.

(** C4: the area is the binary64 product of the pixel count and the
    constant 0.09, and the ROOFTOP_AREA line shows it with two decimals;
    for an image of fewer than 2^48 pixels the digits shown are those of
    the exact product [n * 0.09 = 9 n / 100], whose two decimals need no
    further rounding. *)
Theorem reported_area_exact {tensor logit : Type}
    (transform : image -> tensor) (beats : logit -> logit -> bool)
    (str_round2 : spec_float -> string) (w : world)
    (prog path : string) (model : tensor -> grid (logit * logit))
    (src : dataset) (img : image) :
  os_path_exists w path = true ->
  load_model w = Ok model ->
  patch_shaped model ->
  rasterio_open w path = Ok src ->
  read_rgb src = Ok img ->
  Z.of_nat (nrows img) * Z.of_nat (ncols img) < 2 ^ 48 ->
  (forall mask title, save_figure w img mask title = Ok tt) ->
  exists mask n,
    infer_full_mask transform beats model img = Ok (mask, n)
    /\ area_of n = b64_mul (b64_of_Z n) PIXEL_AREA_M2
    /\ PIXEL_AREA_M2 = b64_of_ratio false 9 100
    /\ stdout (run transform beats str_round2 w [prog; path])
       = progress_lines str_round2 n (area_of n)
         ++ [ "RESULTS_START"; "ROOFTOP_PIXELS:" ++ str_int n;
              "ROOFTOP_AREA:" ++ fmt_2f (area_of n); "RESULTS_END" ]%string
    /\ fmt_2f (area_of n) = fixed2 false (9 * n)
    /\ fixed2 false (9 * n)
       = (str_int (9 * n / 100) ++ "."
          ++ String (digit_char (9 * n mod 100 / 10))
               (String (digit_char (9 * n mod 10)) EmptyString))%string.
Proof.
  intros Hex Hm Hmodel Ho Hr Hsize Hfig.
  destruct (infer_total_bound transform beats model img Hmodel)
    as (mask & n & Hinf & Hn); [change (2 ^ 63) with (2 ^ 48 * 2 ^ 15); lia|].
  exists mask, n. split; [exact Hinf|].
  split; [reflexivity|]. split; [reflexivity|]. split.
  - unfold run, script. simpl. rewrite Hex. simpl. unfold run_io.
    rewrite (main_runs transform beats str_round2 w path model src img mask n [])
      by (try assumption; apply Hfig).
    reflexivity.
  - split; [apply fmt_area_exact; lia | reflexivity].
Qed.

Lemma reported_area_exact_witness :
  exists mask n,
    infer_full_mask toy_transform toy_beats toy_model
      (Grid 130 140 ((fun r => (fun c => (7, 7, 7)) <$> seq 0 140) <$> seq 0 130))
    = Ok (mask, n)
    /\ stdout (run toy_transform toy_beats fmt_2f
                   (toy_world (Ok (toy_dataset 3))) toy_argv)
       = progress_lines fmt_2f n (area_of n)
         ++ [ "RESULTS_START"; "ROOFTOP_PIXELS:" ++ str_int n;
              "ROOFTOP_AREA:" ++ fmt_2f (area_of n); "RESULTS_END" ]%string
    /\ fmt_2f (area_of n) = fixed2 false (9 * n).
Proof.
  destruct (reported_area_exact toy_transform toy_beats fmt_2f
              (toy_world (Ok (toy_dataset 3)))
              "modeltester_UI.py" "tile.tif" toy_model (toy_dataset 3)
              (Grid 130 140
                 ((fun r => (fun c => (7, 7, 7)) <$> seq 0 140) <$> seq 0 130)))
    as (mask & n & Hinf & _ & _ & Hout & Hfmt & _);
    try reflexivity.
  - exact toy_model_ok.
  - exists mask, n. split; [exact Hinf|]. split; [exact Hout | exact Hfmt].
Defined.

(* ===================================================================== *)
(** * Further properties *)

(** ** The tiler with any patch size and positive stride *)

Lemma extract_patches_tiling (img : image) (size stride : Z) :
  0 < stride ->
  extract_patches img size stride
  = Ok ((tiling img size stride).*1, (tiling img size stride).*2,
        Z.of_nat (nrows img), Z.of_nat (ncols img)).
Proof.
  intros Hs. unfold extract_patches. rewrite !py_range_pos by exact Hs.
  reflexivity.
Qed.

Lemma range_len_0 (stop step : Z) :
  0 < step ->
  range_len 0 stop step = if 0 <? stop then (stop - 1) / step + 1 else 0.
Proof.
  intros Hs. unfold range_len.
  replace (0 <? step) with true by (symmetry; apply Z.ltb_lt; exact Hs).
  replace (stop - 0 - 1) with (stop - 1) by lia. reflexivity.
Qed.

Lemma range_len_0_nonneg (stop step : Z) :
  0 < step -> 0 <= range_len 0 stop step.
Proof.
  intros Hs. rewrite range_len_0 by exact Hs.
  destruct (Z.ltb_spec 0 stop); [|lia].
  assert (0 <= (stop - 1) / step) by (apply Z.div_pos; lia). lia.
Qed.

(** The values of the range are the multiples of the step below [stop]. *)
Lemma range_from_0_elem (stop step y : Z) :
  0 < step ->
  y ∈ range_from_0 stop step <-> 0 <= y < stop /\ y mod step = 0.
Proof.
  intros Hs. unfold range_from_0. rewrite list_elem_of_fmap.
  rewrite range_len_0 by exact Hs. split.
  - intros (i & -> & Hi). apply elem_of_seq in Hi.
    destruct (Z.ltb_spec 0 stop) as [Hstop | Hstop]; [|simpl in Hi; lia].
    assert (0 <= (stop - 1) / step) by (apply Z.div_pos; lia).
    pose proof (Z.mul_div_le (stop - 1) step Hs).
    rewrite Z.add_0_l, Z.mod_mul by lia.
    split; [|reflexivity]. nia.
  - intros [[Hy0 Hy] Hmod].
    destruct (Z.ltb_spec 0 stop) as [Hstop | Hstop]; [|lia].
    exists (Z.to_nat (y / step)).
    assert (0 <= y / step) by (apply Z.div_pos; lia).
    assert (y / step <= (stop - 1) / step) by (apply Z.div_le_mono; lia).
    pose proof (Z.div_mod y step ltac:(lia)).
    split; [rewrite Z2Nat.id by assumption; lia|].
    apply elem_of_seq. lia.
Qed.

Lemma tiling_elem (img : image) (size stride : Z) (tile : image * (Z * Z)) :
  0 < stride ->
  tile ∈ tiling img size stride <->
  exists y x,
    tile = patch_at img size y x
    /\ (0 <= y < Z.of_nat (nrows img) - size + 1 /\ y mod stride = 0)
    /\ (0 <= x < Z.of_nat (ncols img) - size + 1 /\ x mod stride = 0).
Proof.
  intros Hs. unfold tiling. rewrite list_elem_of_bind. split.
  - intros (y & Ht & Hy). apply list_elem_of_fmap in Ht as (x & -> & Hx).
    exists y, x. split; [reflexivity|].
    split; apply range_from_0_elem; assumption.
  - intros (y & x & -> & Hy & Hx). exists y. split.
    + apply list_elem_of_fmap. exists x. split; [reflexivity|].
      apply range_from_0_elem; assumption.
    + apply range_from_0_elem; assumption.
Qed.

(** The k-th patch and the k-th position come from the same tile. *)
Lemma tiling_lookup (img : image) (size stride : Z) (k : nat) patch y x :
  0 < stride ->
  (tiling img size stride).*1 !! k = Some patch ->
  (tiling img size stride).*2 !! k = Some (y, x) ->
  patch = grid_slice img y (y + size) x (x + size)
  /\ (0 <= y < Z.of_nat (nrows img) - size + 1 /\ y mod stride = 0)
  /\ (0 <= x < Z.of_nat (ncols img) - size + 1 /\ x mod stride = 0).
Proof.
  intros Hs Hp Hq.
  rewrite list_lookup_fmap in Hp. rewrite list_lookup_fmap in Hq.
  destruct (tiling img size stride !! k) as [tile|] eqn:Hk; [|discriminate].
  simpl in Hp, Hq. injection Hp as <-. injection Hq as Hq.
  apply list_elem_of_lookup_2 in Hk.
  apply tiling_elem in Hk as (y' & x' & -> & Hy & Hx); [|exact Hs].
  simpl in Hq. injection Hq as -> ->. auto.
Qed.

(** X1: with a positive stride [extract_patches] returns as many patches
    as positions; the k-th patch is the slice of the image at the k-th
    position, it is a full [size] x [size] block that lies inside the
    image, and both offsets are multiples of the stride. *)
Theorem extract_patches_full_blocks (img : image) (size stride : Z) :
  0 < stride -> 0 <= size ->
  exists patches positions,
    extract_patches img size stride
    = Ok (patches, positions, Z.of_nat (nrows img), Z.of_nat (ncols img))
    /\ length patches = length positions
    /\ forall k patch y x,
         patches !! k = Some patch -> positions !! k = Some (y, x) ->
         patch = grid_slice img y (y + size) x (x + size)
         /\ shape patch = (Z.to_nat size, Z.to_nat size)
         /\ (0 <= y /\ y + size <= Z.of_nat (nrows img) /\ y mod stride = 0)
         /\ (0 <= x /\ x + size <= Z.of_nat (ncols img) /\ x mod stride = 0).
Proof.
  intros Hs Hsize.
  exists (tiling img size stride).*1, (tiling img size stride).*2.
  split; [apply extract_patches_tiling; exact Hs|].
  split; [rewrite !length_fmap; reflexivity|].
  intros k patch y x Hp Hq.
  destruct (tiling_lookup img size stride k patch y x Hs Hp Hq)
    as (-> & [Hy Hym] & [Hx Hxm]).
  split; [reflexivity|].
  split; [|split; split; lia || (split; [lia | assumption])].
  unfold shape, grid_slice. simpl.
  rewrite !slice_len_in by lia. reflexivity.
Qed.

Lemma extract_patches_full_blocks_witness :
  exists patches positions,
    extract_patches (flat_image 10 7 (1, 2, 3)) 4 3
    = Ok (patches, positions, 10, 7)
    /\ length patches = length positions.
Proof.
  destruct (extract_patches_full_blocks (flat_image 10 7 (1, 2, 3)) 4 3)
    as (ps & qs & E & Hl & _); [lia | lia |].
  exists ps, qs. split; [exact E | exact Hl].
Defined.

(** X2: the number of patches for any patch size and positive stride is
    the product of the window counts along the height and the width,
    [(H - size) / stride + 1] when [size <= H] and 0 otherwise. *)
Theorem extract_patches_count_any (img : image) (size stride : Z) :
  0 < stride ->
  exists patches positions,
    extract_patches img size stride
    = Ok (patches, positions, Z.of_nat (nrows img), Z.of_nat (ncols img))
    /\ Z.of_nat (length patches)
       = window_count (Z.of_nat (nrows img)) size stride
         * window_count (Z.of_nat (ncols img)) size stride.
Proof.
  intros Hs.
  exists (tiling img size stride).*1, (tiling img size stride).*2.
  split; [apply extract_patches_tiling; exact Hs|].
  rewrite length_fmap. unfold tiling, range_from_0.
  rewrite length_tiles, !length_fmap, !length_seq, Nat2Z.inj_mul.
  rewrite !Z2Nat.id by (apply range_len_0_nonneg; exact Hs).
  rewrite !range_len_0 by exact Hs. unfold window_count.
  f_equal.
  - destruct (Z.ltb_spec 0 (Z.of_nat (nrows img) - size + 1));
      destruct (Z.leb_spec size (Z.of_nat (nrows img))); try lia.
    do 2 f_equal. lia.
  - destruct (Z.ltb_spec 0 (Z.of_nat (ncols img) - size + 1));
      destruct (Z.leb_spec size (Z.of_nat (ncols img))); try lia.
    do 2 f_equal. lia.
Qed.

Lemma extract_patches_count_any_witness :
  exists patches positions,
    extract_patches (flat_image 10 7 (1, 2, 3)) 4 3
    = Ok (patches, positions, 10, 7)
    /\ Z.of_nat (length patches) = 3 * 2.
Proof.
  apply (extract_patches_count_any (flat_image 10 7 (1, 2, 3)) 4 3). lia.
Defined.

Lemma lookup_tiles {A B C} (f : A -> B -> C) (ys : list A) (xs : list B)
      (i j : nat) :
  (j < length xs)%nat ->
  (y ← ys; f y <$> xs) !! (i * length xs + j)%nat
  = ys !! i ≫= fun y => f y <$> xs !! j.
Proof.
  intros Hj. revert i. induction ys as [|y ys IH]; intros i.
  - destruct i; reflexivity.
  - rewrite bind_cons. destruct i as [|i].
    + simpl. rewrite lookup_app_l by (rewrite length_fmap; exact Hj).
      apply list_lookup_fmap.
    + rewrite lookup_app_r by (rewrite length_fmap; lia).
      rewrite length_fmap.
      replace (S i * length xs + j - length xs)%nat
        with (i * length xs + j)%nat by lia.
      apply IH.
Qed.

Lemma range_from_0_lookup (stop step : Z) (i : nat) :
  0 < step ->
  Z.of_nat i < range_len 0 stop step ->
  range_from_0 stop step !! i = Some (Z.of_nat i * step).
Proof.
  intros Hs Hi. unfold range_from_0.
  rewrite list_lookup_fmap, lookup_seq_lt by lia. reflexivity.
Qed.

Lemma range_from_0_length (stop step : Z) :
  0 < step ->
  Z.of_nat (length (range_from_0 stop step)) = range_len 0 stop step.
Proof.
  intros Hs. unfold range_from_0. rewrite length_fmap, length_seq.
  apply Z2Nat.id, range_len_0_nonneg. exact Hs.
Qed.

Lemma range_len_window (len size stride : Z) :
  0 < stride ->
  range_len 0 (len - size + 1) stride = window_count len size stride.
Proof.
  intros Hs. rewrite range_len_0 by exact Hs. unfold window_count.
  destruct (Z.ltb_spec 0 (len - size + 1)); destruct (Z.leb_spec size len);
    try lia.
  do 2 f_equal. lia.
Qed.

(** X3: the patches are generated in row-major order: with [cols] windows
    along the width, the patch number [i * cols + j] is the one at offset
    [(i * stride, j * stride)]. *)
Theorem extract_patches_row_major (img : image) (size stride : Z) (i j : nat) :
  0 < stride ->
  Z.of_nat i < window_count (Z.of_nat (nrows img)) size stride ->
  Z.of_nat j < window_count (Z.of_nat (ncols img)) size stride ->
  exists patches positions,
    extract_patches img size stride
    = Ok (patches, positions, Z.of_nat (nrows img), Z.of_nat (ncols img))
    /\ let cols := Z.to_nat (window_count (Z.of_nat (ncols img)) size stride) in
       positions !! (i * cols + j)%nat
       = Some (Z.of_nat i * stride, Z.of_nat j * stride)
       /\ patches !! (i * cols + j)%nat
          = Some (grid_slice img (Z.of_nat i * stride) (Z.of_nat i * stride + size)
                             (Z.of_nat j * stride) (Z.of_nat j * stride + size)).
Proof.
  intros Hs Hi Hj.
  exists (tiling img size stride).*1, (tiling img size stride).*2.
  split; [apply extract_patches_tiling; exact Hs|].
  cbv zeta. rewrite <- !range_len_window in * by exact Hs.
  set (xs := range_from_0 (Z.of_nat (ncols img) - size + 1) stride).
  assert (Hlen : Z.to_nat (range_len 0 (Z.of_nat (ncols img) - size + 1) stride)
                 = length xs).
  { unfold xs. rewrite <- (range_from_0_length _ _ Hs). apply Nat2Z.id. }
  rewrite Hlen, !list_lookup_fmap. unfold tiling. fold xs.
  rewrite lookup_tiles by (apply Nat2Z.inj_lt; rewrite <- Hlen, Z2Nat.id; lia).
  rewrite range_from_0_lookup by assumption. simpl.
  unfold xs. rewrite range_from_0_lookup by assumption. split; reflexivity.
Qed.

Lemma extract_patches_row_major_witness :
  exists patches positions,
    extract_patches (flat_image 10 7 (1, 2, 3)) 4 3 = Ok (patches, positions, 10, 7)
    /\ positions !! 5%nat = Some (6, 3).
Proof.
  destruct (extract_patches_row_major (flat_image 10 7 (1, 2, 3)) 4 3 2 1)
    as (ps & qs & E & Hq & _); [lia | reflexivity | reflexivity |].
  exists ps, qs. split; [exact E | exact Hq].
Defined.

(** A cell of a slice that fits is the cell of the array at the shifted
    index. *)
Lemma cell_grid_slice {A} (g : grid A) (y x size : Z) (i j : nat) :
  well_shaped g ->
  0 <= y -> y + size <= Z.of_nat (nrows g) ->
  0 <= x -> x + size <= Z.of_nat (ncols g) ->
  Z.of_nat i < size -> Z.of_nat j < size ->
  cell (grid_slice g y (y + size) x (x + size)) i j
  = cell g (Z.to_nat y + i) (Z.to_nat x + j).
Proof.
  intros [Hl Hw] Hy0 Hy1 Hx0 Hx1 Hi Hj.
  unfold cell, grid_slice, py_slice. simpl.
  rewrite list_lookup_fmap, Hl.
  rewrite slice_start_in, slice_len_in by lia.
  rewrite lookup_take_lt by lia. rewrite lookup_drop.
  destruct (cells g !! (Z.to_nat y + i)%nat) as [row|] eqn:Hr; [|reflexivity].
  simpl. rewrite (proj1 (Forall_lookup _ _) Hw _ _ Hr).
  rewrite slice_start_in, slice_len_in by lia.
  rewrite lookup_take_lt by lia. apply lookup_drop.
Qed.

(** X4: a patch is a sub-view of the image: its pixel at row [i], column
    [j] is the pixel of the image at row [y + i], column [x + j], where
    [(y, x)] is the position recorded for the patch. *)
Theorem patch_pixels (img : image) (size stride : Z) :
  well_shaped img -> 0 < stride ->
  exists patches positions,
    extract_patches img size stride
    = Ok (patches, positions, Z.of_nat (nrows img), Z.of_nat (ncols img))
    /\ forall k patch y x i j,
         patches !! k = Some patch -> positions !! k = Some (y, x) ->
         Z.of_nat i < size -> Z.of_nat j < size ->
         cell patch i j = cell img (Z.to_nat y + i) (Z.to_nat x + j)
         /\ is_Some (cell patch i j).
Proof.
  intros Himg Hs.
  exists (tiling img size stride).*1, (tiling img size stride).*2.
  split; [apply extract_patches_tiling; exact Hs|].
  intros k patch y x i j Hp Hq Hi Hj.
  destruct (tiling_lookup img size stride k patch y x Hs Hp Hq)
    as (-> & [Hy Hym] & [Hx Hxm]).
  rewrite cell_grid_slice by (trivial; lia).
  split; [reflexivity|].
  destruct Himg as [Hl Hw]. unfold cell.
  destruct (lookup_lt_is_Some_2 (cells img) (Z.to_nat y + i)) as [row Hr]; [lia|].
  rewrite Hr. simpl. apply lookup_lt_is_Some_2.
  rewrite (proj1 (Forall_lookup _ _) Hw _ _ Hr). lia.
Qed.

Lemma patch_pixels_witness :
  exists patches positions,
    extract_patches (flat_image 10 7 (1, 2, 3)) 4 3 = Ok (patches, positions, 10, 7)
    /\ forall k patch y x i j,
         patches !! k = Some patch -> positions !! k = Some (y, x) ->
         Z.of_nat i < 4 -> Z.of_nat j < 4 ->
         cell patch i j
         = cell (flat_image 10 7 (1, 2, 3)) (Z.to_nat y + i) (Z.to_nat x + j)
         /\ is_Some (cell patch i j).
Proof.
  apply (patch_pixels (flat_image 10 7 (1, 2, 3)) 4 3); [|lia].
  split; [reflexivity|]. apply Forall_replicate. reflexivity.
Defined.

(** X5: when the stride equals the patch size the patches partition the
    tiled region: a pixel of the first [floor(H/s)*s] rows and
    [floor(W/s)*s] columns is covered by exactly one patch, and a pixel
    beyond them by none. *)
Theorem patches_partition (img : image) (s : Z) :
  0 < s ->
  exists patches positions,
    extract_patches img s s
    = Ok (patches, positions, Z.of_nat (nrows img), Z.of_nat (ncols img))
    /\ (forall r c,
          0 <= r < Z.of_nat (nrows img) / s * s ->
          0 <= c < Z.of_nat (ncols img) / s * s ->
          exists pos,
            pos ∈ positions /\ covers s pos r c
            /\ forall pos', pos' ∈ positions -> covers s pos' r c -> pos' = pos)
    /\ (forall r c pos,
          Z.of_nat (nrows img) / s * s <= r \/ Z.of_nat (ncols img) / s * s <= c ->
          pos ∈ positions -> ~ covers s pos r c).
Proof.
  intros Hs.
  exists (tiling img s s).*1, (tiling img s s).*2.
  split; [apply extract_patches_tiling; exact Hs|].
  assert (Hin : forall pos,
             pos ∈ (tiling img s s).*2 <->
             (0 <= pos.1 < Z.of_nat (nrows img) - s + 1 /\ pos.1 mod s = 0)
             /\ (0 <= pos.2 < Z.of_nat (ncols img) - s + 1 /\ pos.2 mod s = 0)).
  { intros pos. rewrite list_elem_of_fmap. split.
    - intros (tile & -> & Ht).
      apply tiling_elem in Ht as (y & x & -> & Hy & Hx); [|exact Hs]. auto.
    - intros [Hy Hx]. exists (patch_at img s pos.1 pos.2).
      split; [destruct pos; reflexivity|].
      apply tiling_elem; [exact Hs|]. exists pos.1, pos.2. auto. }
  assert (Hfloor : forall n, 0 <= n -> 0 <= n / s /\ n / s * s <= n).
  { intros n Hn. split; [apply Z.div_pos; lia|].
    rewrite Z.mul_comm. apply Z.mul_div_le. exact Hs. }
  assert (Hal : forall y r, y mod s = 0 -> y <= r < y + s -> y = s * (r / s)).
  { intros y r Hm Hr.
    pose proof (Z.div_mod y s ltac:(lia)) as Hy. rewrite Hm in Hy.
    assert (y / s <= r / s) by (apply Z.div_le_lower_bound; lia).
    assert (r / s < y / s + 1) by (apply Z.div_lt_upper_bound; lia).
    assert (r / s = y / s) by lia. congruence || lia. }
  assert (Hcov : forall n r, 0 <= r < n / s * s ->
             (0 <= s * (r / s) < n - s + 1 /\ (s * (r / s)) mod s = 0)
             /\ s * (r / s) <= r < s * (r / s) + s).
  { intros n r Hr.
    assert (0 <= n).
    { destruct (Z_lt_le_dec n 0) as [Hn|]; [|assumption].
      assert (n / s < 0) by (apply Z.div_lt_upper_bound; lia). nia. }
    destruct (Hfloor n ltac:(assumption)) as [Hq Hle].
    assert (0 <= r / s) by (apply Z.div_pos; lia).
    assert (r / s < n / s) by (apply Z.div_lt_upper_bound; lia).
    pose proof (Z.mul_div_le r s Hs). pose proof (Z.mul_succ_div_gt r s Hs).
    rewrite Z.mul_comm, Z.mod_mul by lia. repeat split; nia. }
  split.
  - intros r c Hr Hc.
    destruct (Hcov _ r Hr) as [Hy Hyc]. destruct (Hcov _ c Hc) as [Hx Hxc].
    exists (s * (r / s), s * (c / s)). split; [apply Hin; split; assumption|].
    split; [split; assumption|].
    intros [y' x'] Hpos' [Hcy Hcx]. apply Hin in Hpos' as [[_ Hym] [_ Hxm]].
    simpl in *. f_equal; apply Hal; assumption.
  - intros r c [y x] Hout Hpos [Hcy Hcx].
    apply Hin in Hpos as [[Hy Hym] [Hx Hxm]]. simpl in *.
    destruct Hout as [Hout | Hout].
    + pose proof (Hal y r Hym Hcy) as Ey.
      assert (r / s + 1 <= Z.of_nat (nrows img) / s)
        by (apply Z.div_le_lower_bound; lia).
      nia.
    + pose proof (Hal x c Hxm Hcx) as Ex.
      assert (c / s + 1 <= Z.of_nat (ncols img) / s)
        by (apply Z.div_le_lower_bound; lia).
      nia.
Qed.

Lemma patches_partition_witness :
  exists patches positions,
    extract_patches (flat_image 10 7 (1, 2, 3)) 3 3 = Ok (patches, positions, 10, 7)
    /\ forall r c pos,
         Z.of_nat 10 / 3 * 3 <= r \/ Z.of_nat 7 / 3 * 3 <= c ->
         pos ∈ positions -> ~ covers 3 pos r c.
Proof.
  destruct (patches_partition (flat_image 10 7 (1, 2, 3)) 3)
    as (ps & qs & E & _ & Hout); [lia|].
  exists ps, qs. split; [exact E | exact Hout].
Defined.

(** ** The stitched mask, cell by cell *)

(** A cell inside a stored block holds the matching cell of the rows
    stored. *)
Lemma store_block_inside (g : grid Z) (r0 c0 nr nc : nat) (rows : list (list Z))
      (r c : nat) :
  well_shaped g ->
  length rows = nr ->
  Forall (fun row => length row = nc) rows ->
  (r0 + nr <= nrows g)%nat -> (c0 + nc <= ncols g)%nat ->
  (r0 <= r < r0 + nr)%nat -> (c0 <= c < c0 + nc)%nat ->
  cell (store_block g r0 c0 nr rows) r c
  = rows !! (r - r0)%nat ≫= fun row => row !! (c - c0)%nat.
Proof.
  intros Hg Hlen Hw Hfr Hfc Hr Hc. pose proof Hg as [Hl _].
  unfold cell. rewrite store_block_cells.
  rewrite lookup_splice_inside
    by (rewrite (block_length g r0 c0 nr nc rows) by assumption; lia).
  destruct (lookup_lt_is_Some_2 rows (r - r0)) as [new Hnew]; [lia|].
  destruct (lookup_lt_is_Some_2 (cells g) (r0 + (r - r0))) as [old Hold]; [lia|].
  rewrite (block_lookup g r0 c0 nr nc rows Hlen Hfr Hfc _ _ _ Hnew Hold).
  rewrite Hnew. simpl.
  pose proof (proj1 (Forall_lookup _ _) Hw _ _ Hnew) as Hn. cbv beta in Hn.
  apply lookup_splice_inside.
  - rewrite Hn, (row_width g Hg _ _ Hold). lia.
  - rewrite Hn. lia.
Qed.

(** Two well-shaped grids of one shape with the same cells are equal. *)
Lemma grid_ext {A} (a b : grid A) :
  well_shaped a -> well_shaped b -> shape a = shape b ->
  (forall r c, cell a r c = cell b r c) -> a = b.
Proof.
  destruct a as [ha wa ca], b as [hb wb cb].
  unfold well_shaped, shape, cell. simpl.
  intros [Hla Hwa] [Hlb Hwb] [= -> ->] Hcell. f_equal.
  apply list_eq. intros r.
  destruct (ca !! r) as [ra|] eqn:Ha; destruct (cb !! r) as [rb|] eqn:Hb.
  - f_equal. apply list_eq. intros c.
    specialize (Hcell r c). rewrite Ha, Hb in Hcell. exact Hcell.
  - apply lookup_lt_Some in Ha. apply lookup_ge_None in Hb. lia.
  - apply lookup_ge_None in Ha. apply lookup_lt_Some in Hb. lia.
  - reflexivity.
Qed.

Lemma cell_in_range {A} (g : grid A) (r c : nat) :
  well_shaped g -> is_Some (cell g r c) <-> (r < nrows g)%nat /\ (c < ncols g)%nat.
Proof.
  intros [Hl Hw]. unfold cell. split.
  - intros [v Hv].
    destruct (cells g !! r) as [row|] eqn:Hr; [|discriminate]. simpl in Hv.
    pose proof (proj1 (Forall_lookup _ _) Hw _ _ Hr) as Hn. cbv beta in Hn.
    apply lookup_lt_Some in Hr. apply lookup_lt_Some in Hv. lia.
  - intros [Hr Hc].
    destruct (lookup_lt_is_Some_2 (cells g) r) as [row Hrow]; [lia|].
    rewrite Hrow. simpl. apply lookup_lt_is_Some_2.
    rewrite (proj1 (Forall_lookup _ _) Hw _ _ Hrow). exact Hc.
Qed.

(** Every pixel of the tiled region lies under a tile of the default
    tiling. *)
Lemma covering_tile (img : image) (r c : nat) :
  Z.of_nat r < Z.of_nat (nrows img) / 128 * 128 ->
  Z.of_nat c < Z.of_nat (ncols img) / 128 * 128 ->
  exists patch y x,
    (patch, (y, x)) ∈ grid_tiles img
    /\ covers PATCH_SIZE (y, x) (Z.of_nat r) (Z.of_nat c).
Proof.
  intros Hr Hc.
  assert (Hpos : (Z.of_nat (r / 128) * 128, Z.of_nat (c / 128) * 128)
                 ∈ (grid_tiles img).*2).
  { apply grid_tiles_offset. exists (r / 128)%nat, (c / 128)%nat.
    rewrite !Nat2Z.inj_div. change (Z.of_nat 128) with 128.
    split; [|split; [|reflexivity]]; apply Z.div_lt_upper_bound; lia. }
  apply list_elem_of_fmap in Hpos as ([patch [y x]] & E & Hin).
  simpl in E. injection E as <- <-.
  exists patch, (Z.of_nat (r / 128) * 128), (Z.of_nat (c / 128) * 128).
  split; [exact Hin|].
  unfold covers, PATCH_SIZE. cbn [fst snd].
  rewrite !Nat2Z.inj_div. change (Z.of_nat 128) with 128.
  pose proof (Z.mul_div_le (Z.of_nat r) 128 ltac:(lia)).
  pose proof (Z.mul_succ_div_gt (Z.of_nat r) 128 ltac:(lia)).
  pose proof (Z.mul_div_le (Z.of_nat c) 128 ltac:(lia)).
  pose proof (Z.mul_succ_div_gt (Z.of_nat c) 128 ltac:(lia)).
  lia.
Qed.

Section StitchedCells.
Context {tensor logit : Type}.
Variable transform : image -> tensor.
Variable beats : logit -> logit -> bool.
Variable model : tensor -> grid (logit * logit).
Hypothesis model_ok : patch_shaped model.

Local Abbreviation predict_ := (predict transform beats model).
Local Abbreviation step_ := (infer_step transform beats model).

(** After the loop over distinct tile offsets, the block of every tile
    holds the labels predicted for its patch. *)
Lemma infer_loop_cells (tiles : list (image * (Z * Z))) :
  forall (mask mask' : grid Z) (total total' : Z),
    well_shaped mask ->
    Forall (tile_ok (Z.of_nat (nrows mask)) (Z.of_nat (ncols mask))) tiles.*2 ->
    NoDup tiles.*2 ->
    for_each step_ tiles (mask, total) = Ok (mask', total') ->
    forall patch y x r c,
      (patch, (y, x)) ∈ tiles ->
      covers PATCH_SIZE (y, x) (Z.of_nat r) (Z.of_nat c) ->
      cell mask' r c
      = cell (predict_ patch) (r - Z.to_nat y) (c - Z.to_nat x).
Proof.
  induction tiles as [|[p0 [y0 x0]] tiles IH];
    intros mask mask' total total' Hm Hok Hnd Hrun patch y x r c Hin Hcov.
  - apply elem_of_nil in Hin. contradiction.
  - rewrite fmap_cons in Hok, Hnd. simpl in Hok, Hnd.
    apply Forall_cons in Hok as [Hyx Hok].
    apply NoDup_cons in Hnd as [Hfresh Hnd].
    destruct (predict_rows transform beats model model_ok p0) as [Hl Hw].
    assert (Hfit : (Z.to_nat y0 + 128 <= nrows mask)%nat
                   /\ (Z.to_nat x0 + 128 <= ncols mask)%nat).
    { destruct Hyx as [(? & ? & _) (? & ? & _)].
      unfold PATCH_SIZE in *. simpl in *. lia. }
    destruct Hfit as [Hfr Hfc].
    set (mask1 := store_block mask (Z.to_nat y0) (Z.to_nat x0) 128
                              (cells (predict_ p0))) in *.
    assert (Hm1 : well_shaped mask1)
      by (apply (store_block_well_shaped mask _ _ 128 128); assumption).
    simpl in Hrun. unfold infer_step at 1 in Hrun.
    rewrite (grid_assign_tile transform beats model model_ok) in Hrun by exact Hyx.
    simpl in Hrun. fold mask1 in Hrun.
    apply elem_of_cons in Hin as [Hhead | Htail].
    + injection Hhead as -> -> ->.
      destruct (infer_loop_spec transform beats model model_ok tiles mask1
                  (int64_add total (count_eq 1 (predict_ p0))) Hm1 Hok Hnd)
        as (m'' & Hrun' & _ & _ & Hkeep & _).
      pose proof (eq_trans (eq_sym Hrun) Hrun') as E. injection E as -> _.
      rewrite Hkeep.
      * apply (store_block_inside mask _ _ 128 128); try assumption;
          destruct Hyx as [(? & ? & _) (? & ? & _)];
          unfold covers, PATCH_SIZE in *; simpl in *; lia.
      * intros pos Hpos Hcov'. apply Hfresh.
        assert (pos = (y0, x0)) as <-; [|exact Hpos].
        eapply tiles_disjoint; [|exact Hyx|exact Hcov'|exact Hcov].
        exact (proj1 (Forall_forall _ _) Hok pos Hpos).
    + exact (IH mask1 mask' _ total' Hm1 Hok Hnd Hrun patch y x r c Htail Hcov).
Qed.

(** The cells of the mask after the loop over any order of the default
    tiles, from the zero mask. *)
Lemma stitched_cells (img : image) (tiles : list (image * (Z * Z)))
      (mask : grid Z) (total : Z) :
  tiles ≡ₚ grid_tiles img ->
  for_each step_ tiles (zero_mask (nrows img) (ncols img), 0) = Ok (mask, total) ->
  well_shaped mask /\ shape mask = (nrows img, ncols img)
  /\ (forall patch y x r c,
        (patch, (y, x)) ∈ grid_tiles img ->
        covers PATCH_SIZE (y, x) (Z.of_nat r) (Z.of_nat c) ->
        cell mask r c = cell (predict_ patch) (r - Z.to_nat y) (c - Z.to_nat x))
  /\ (forall r c,
        (r < nrows img)%nat -> (c < ncols img)%nat ->
        (Z.of_nat (nrows img) / 128 * 128 <= Z.of_nat r
         \/ Z.of_nat (ncols img) / 128 * 128 <= Z.of_nat c) ->
        cell mask r c = Some 0).
Proof.
  intros Hperm Hrun.
  assert (Hpos : tiles.*2 ≡ₚ (grid_tiles img).*2) by (rewrite Hperm; reflexivity).
  assert (Hok : Forall (tile_ok (Z.of_nat (nrows img)) (Z.of_nat (ncols img)))
                       tiles.*2) by (rewrite Hpos; apply grid_tiles_ok).
  assert (Hnd : NoDup tiles.*2) by (rewrite Hpos; apply grid_tiles_NoDup).
  destruct (infer_loop_spec transform beats model model_ok tiles
              (zero_mask (nrows img) (ncols img)) 0
              (zero_mask_well_shaped _ _) Hok Hnd)
    as (m' & Hrun' & Hm & Hshape & Hkeep & _).
  pose proof (eq_trans (eq_sym Hrun) Hrun') as E. injection E as E _.
  subst m'.
  split; [exact Hm|]. split; [exact Hshape|]. split.
  - intros patch y x r c Hin Hcov.
    apply (infer_loop_cells tiles _ mask 0 total (zero_mask_well_shaped _ _)
             Hok Hnd Hrun patch y x r c); [|exact Hcov].
    rewrite Hperm. exact Hin.
  - intros r c Hr Hc Hout. rewrite Hkeep.
    + apply zero_mask_cell; assumption.
    + intros pos Hin. apply (proj2 (uncovered_iff img r c) Hout).
      rewrite <- Hpos. exact Hin.
Qed.
End StitchedCells.

(** X6: the stitching is faithful.  For the k-th patch returned by the
    tiler, at position (y, x), the cell (y + i, x + j) of the stitched
    mask holds the label that the network's arg-max gives to pixel (i, j)
    of that patch, for all i, j below 128. *)
Theorem stitched_mask_faithful {tensor logit : Type}
    (transform : image -> tensor) (beats : logit -> logit -> bool)
    (model : tensor -> grid (logit * logit)) (img : image) :
  patch_shaped model ->
  exists patches positions H W mask total,
    extract_patches img PATCH_SIZE STRIDE = Ok (patches, positions, H, W)
    /\ infer_full_mask transform beats model img = Ok (mask, total)
    /\ forall (k : nat) patch y x (i j : nat),
         patches !! k = Some patch -> positions !! k = Some (y, x) ->
         (i < 128)%nat -> (j < 128)%nat ->
         cell mask (Z.to_nat y + i) (Z.to_nat x + j)
         = cell (predict transform beats model patch) i j.
Proof.
  intros Hmodel.
  destruct (infer_loop_spec transform beats model Hmodel (grid_tiles img)
              (zero_mask (nrows img) (ncols img)) 0
              (zero_mask_well_shaped _ _) (grid_tiles_ok img)
              (grid_tiles_NoDup img)) as (mask & Hrun & _).
  destruct (stitched_cells transform beats model Hmodel img (grid_tiles img)
              mask _ (reflexivity _) Hrun) as (_ & _ & Hcells & _).
  exists (grid_tiles img).*1, (grid_tiles img).*2,
         (Z.of_nat (nrows img)), (Z.of_nat (ncols img)), mask,
         (running_total transform beats model 0 (grid_tiles img)).
  split; [apply extract_patches_tiles|].
  split; [rewrite infer_full_mask_loop; exact Hrun|].
  intros k patch y x i j Hp Hq Hi Hj.
  rewrite list_lookup_fmap in Hp. rewrite list_lookup_fmap in Hq.
  destruct (grid_tiles img !! k) as [[p [y' x']]|] eqn:Hk; [|discriminate].
  simpl in Hp, Hq. injection Hp as ->. injection Hq as -> ->.
  assert (Hin : (patch, (y, x)) ∈ grid_tiles img)
    by (apply list_elem_of_lookup; exists k; exact Hk).
  assert (Hok : tile_ok (Z.of_nat (nrows img)) (Z.of_nat (ncols img)) (y, x)).
  { apply (proj1 (Forall_forall _ _) (grid_tiles_ok img)).
    apply list_elem_of_fmap. exists (patch, (y, x)). split; [reflexivity|exact Hin]. }
  destruct Hok as [(Hy & _) (Hx & _)]. simpl in Hy, Hx.
  rewrite (Hcells patch y x (Z.to_nat y + i)%nat (Z.to_nat x + j)%nat Hin).
  - f_equal; lia.
  - unfold covers, PATCH_SIZE. simpl. lia.
Qed.

Lemma stitched_mask_faithful_witness :
  exists patches positions H W mask total,
    extract_patches (flat_image 200 300 (5, 0, 0)) PATCH_SIZE STRIDE
    = Ok (patches, positions, H, W)
    /\ infer_full_mask toy_transform toy_beats toy_model
         (flat_image 200 300 (5, 0, 0)) = Ok (mask, total)
    /\ forall (k : nat) patch y x (i j : nat),
         patches !! k = Some patch -> positions !! k = Some (y, x) ->
         (i < 128)%nat -> (j < 128)%nat ->
         cell mask (Z.to_nat y + i) (Z.to_nat x + j)
         = cell (predict toy_transform toy_beats toy_model patch) i j.
Proof.
  exact (stitched_mask_faithful toy_transform toy_beats toy_model
           (flat_image 200 300 (5, 0, 0)) toy_model_ok).
Defined.

(** X7: the stitched mask is binary: every cell of the returned mask
    holds 0 or 1. *)
Theorem stitched_mask_binary {tensor logit : Type}
    (transform : image -> tensor) (beats : logit -> logit -> bool)
    (model : tensor -> grid (logit * logit)) (img : image) :
  patch_shaped model ->
  exists mask total,
    infer_full_mask transform beats model img = Ok (mask, total)
    /\ forall r c v, cell mask r c = Some v -> v = 0 \/ v = 1.
Proof.
  intros Hmodel.
  destruct (infer_loop_spec transform beats model Hmodel (grid_tiles img)
              (zero_mask (nrows img) (ncols img)) 0
              (zero_mask_well_shaped _ _) (grid_tiles_ok img)
              (grid_tiles_NoDup img)) as (mask & Hrun & _).
  destruct (stitched_cells transform beats model Hmodel img (grid_tiles img)
              mask _ (reflexivity _) Hrun) as (Hm & Hshape & Hcells & Hzero).
  exists mask, (running_total transform beats model 0 (grid_tiles img)).
  split; [rewrite infer_full_mask_loop; exact Hrun|].
  intros r c v Hv.
  assert (Hin : (r < nrows img)%nat /\ (c < ncols img)%nat).
  { injection Hshape as <- <-. apply (cell_in_range mask r c Hm).
    exists v. exact Hv. }
  destruct Hin as [Hr Hc].
  destruct (Z_le_gt_dec (Z.of_nat (nrows img) / 128 * 128) (Z.of_nat r)) as [Hor|Hir].
  { rewrite (Hzero r c Hr Hc (or_introl Hor)) in Hv. injection Hv as <-. now left. }
  destruct (Z_le_gt_dec (Z.of_nat (ncols img) / 128 * 128) (Z.of_nat c)) as [Hoc|Hic].
  { rewrite (Hzero r c Hr Hc (or_intror Hoc)) in Hv. injection Hv as <-. now left. }
  destruct (covering_tile img r c ltac:(lia) ltac:(lia))
    as (patch & y & x & Htile & Hcov).
  rewrite (Hcells patch y x r c Htile Hcov) in Hv.
  exact (predict_binary transform beats model patch _ _ v Hv).
Qed.

Lemma stitched_mask_binary_witness :
  exists mask total,
    infer_full_mask toy_transform toy_beats toy_model
      (flat_image 200 300 (5, 0, 0)) = Ok (mask, total)
    /\ forall r c v, cell mask r c = Some v -> v = 0 \/ v = 1.
Proof.
  exact (stitched_mask_binary toy_transform toy_beats toy_model
           (flat_image 200 300 (5, 0, 0)) toy_model_ok).
Defined.

(** X8: the result does not depend on the order in which the patches
    are processed: the loop of [infer_full_mask] run over any
    rearrangement of the (patch, position) pairs returns the same mask
    and the same count as the function itself (for an image of fewer
    than 2^63 pixels). *)
Theorem infer_order_irrelevant {tensor logit : Type}
    (transform : image -> tensor) (beats : logit -> logit -> bool)
    (model : tensor -> grid (logit * logit)) (img : image)
    (patches : list image) (positions : list (Z * Z)) (H W : Z)
    (tiles : list (image * (Z * Z))) :
  patch_shaped model ->
  Z.of_nat (nrows img) * Z.of_nat (ncols img) < 2 ^ 63 ->
  extract_patches img PATCH_SIZE STRIDE = Ok (patches, positions, H, W) ->
  tiles ≡ₚ zip patches positions ->
  for_each (infer_step transform beats model) tiles
           (zero_mask (nrows img) (ncols img), 0)
  = infer_full_mask transform beats model img.
Proof.
  intros Hmodel Hsize Hext Hperm.
  rewrite extract_patches_tiles in Hext. injection Hext as <- <- _ _.
  rewrite zip_fst_snd in Hperm.
  destruct (infer_any_order transform beats model Hmodel img tiles Hsize Hperm)
    as (m1 & Hrun1 & _).
  destruct (infer_any_order transform beats model Hmodel img (grid_tiles img)
              Hsize (reflexivity _)) as (m2 & Hrun2 & _).
  destruct (stitched_cells transform beats model Hmodel img tiles m1 _ Hperm Hrun1)
    as (Hm1 & Hs1 & Hc1 & Hz1).
  destruct (stitched_cells transform beats model Hmodel img (grid_tiles img) m2 _
              (reflexivity _) Hrun2) as (Hm2 & Hs2 & Hc2 & Hz2).
  rewrite infer_full_mask_loop, Hrun1, Hrun2. do 2 f_equal.
  apply grid_ext; [exact Hm1|exact Hm2|congruence|].
  intros r c.
  destruct (decide (r < nrows img)%nat) as [Hr|Hr].
  2:{ transitivity (@None Z); [|symmetry]; apply eq_None_not_Some;
      intros Hsome; [apply (cell_in_range m1 r c Hm1) in Hsome
                    |apply (cell_in_range m2 r c Hm2) in Hsome];
      [injection Hs1 as E1 E2|injection Hs2 as E1 E2]; lia. }
  destruct (decide (c < ncols img)%nat) as [Hc|Hc].
  2:{ transitivity (@None Z); [|symmetry]; apply eq_None_not_Some;
      intros Hsome; [apply (cell_in_range m1 r c Hm1) in Hsome
                    |apply (cell_in_range m2 r c Hm2) in Hsome];
      [injection Hs1 as E1 E2|injection Hs2 as E1 E2]; lia. }
  destruct (Z_le_gt_dec (Z.of_nat (nrows img) / 128 * 128) (Z.of_nat r)) as [Hor|Hir].
  { rewrite (Hz1 r c Hr Hc (or_introl Hor)), (Hz2 r c Hr Hc (or_introl Hor)).
    reflexivity. }
  destruct (Z_le_gt_dec (Z.of_nat (ncols img) / 128 * 128) (Z.of_nat c)) as [Hoc|Hic].
  { rewrite (Hz1 r c Hr Hc (or_intror Hoc)), (Hz2 r c Hr Hc (or_intror Hoc)).
    reflexivity. }
  destruct (covering_tile img r c ltac:(lia) ltac:(lia))
    as (patch & y & x & Htile & Hcov).
  rewrite (Hc1 patch y x r c Htile Hcov), (Hc2 patch y x r c Htile Hcov).
  reflexivity.
Qed.

Lemma infer_order_irrelevant_witness :
  for_each (infer_step toy_transform toy_beats toy_model)
           (reverse (grid_tiles (flat_image 130 260 (5, 0, 0))))
           (zero_mask 130 260, 0)
  = infer_full_mask toy_transform toy_beats toy_model
      (flat_image 130 260 (5, 0, 0)).
Proof.
  apply (infer_order_irrelevant toy_transform toy_beats toy_model
           (flat_image 130 260 (5, 0, 0))
           (grid_tiles (flat_image 130 260 (5, 0, 0))).*1
           (grid_tiles (flat_image 130 260 (5, 0, 0))).*2
           130 260).
  - exact toy_model_ok.
  - simpl. lia.
  - apply extract_patches_tiles.
  - rewrite zip_fst_snd. apply reverse_Permutation.
Defined.

(** ** Degenerate networks *)

Lemma cell_predict {tensor logit : Type}
    (transform : image -> tensor) (beats : logit -> logit -> bool)
    (model : tensor -> grid (logit * logit)) (patch : image) (r c : nat) :
  cell (predict transform beats model patch) r c
  = argmax2 beats <$> cell (model (transform patch)) r c.
Proof.
  unfold cell, predict. cbn [cells].
  rewrite list_lookup_fmap.
  destruct (cells (model (transform patch)) !! r) as [row|]; [|reflexivity].
  simpl. apply list_lookup_fmap.
Qed.

(** X9: a network that never prefers class 1 gives the all-zero mask
    and the count 0, whatever the image. *)
Theorem background_only_gives_zero {tensor logit : Type}
    (transform : image -> tensor) (beats : logit -> logit -> bool)
    (model : tensor -> grid (logit * logit)) (img : image) :
  patch_shaped model ->
  (forall t r c s, cell (model t) r c = Some s -> beats s.2 s.1 = false) ->
  infer_full_mask transform beats model img
  = Ok (zero_mask (nrows img) (ncols img), 0).
Proof.
  intros Hmodel Hbg.
  assert (Hlabel : forall patch r c v,
             cell (predict transform beats model patch) r c = Some v -> v = 0).
  { intros patch r c v Hv. rewrite cell_predict in Hv.
    destruct (cell (model (transform patch)) r c) as [s|] eqn:Hs; [|discriminate].
    simpl in Hv. injection Hv as <-. unfold argmax2.
    rewrite (Hbg _ _ _ _ Hs). reflexivity. }
  assert (Hcount : forall patch, count_eq 1 (predict transform beats model patch) = 0).
  { intros patch. unfold count_eq. rewrite sum_count_none; [reflexivity|].
    intros i row j v Hi Hj.
    assert (v = 0); [|lia].
    apply (Hlabel patch i j v). unfold cell. rewrite Hi. exact Hj. }
  assert (Htotal : forall tiles, running_total transform beats model 0 tiles = 0).
  { induction tiles as [|tile tiles IH]; [reflexivity|].
    unfold running_total in *. simpl. rewrite Hcount. exact IH. }
  destruct (infer_loop_spec transform beats model Hmodel (grid_tiles img)
              (zero_mask (nrows img) (ncols img)) 0
              (zero_mask_well_shaped _ _) (grid_tiles_ok img)
              (grid_tiles_NoDup img)) as (mask & Hrun & _).
  destruct (stitched_cells transform beats model Hmodel img (grid_tiles img)
              mask _ (reflexivity _) Hrun) as (Hm & Hshape & Hcells & Hzero).
  rewrite infer_full_mask_loop, Hrun, Htotal. do 2 f_equal.
  apply grid_ext; [exact Hm|apply zero_mask_well_shaped|exact Hshape|].
  intros r c.
  destruct (cell mask r c) as [v|] eqn:Hv.
  - assert (Hin : (r < nrows img)%nat /\ (c < ncols img)%nat).
    { injection Hshape as <- <-. apply (cell_in_range mask r c Hm).
      exists v. exact Hv. }
    destruct Hin as [Hr Hc]. rewrite zero_mask_cell by assumption. f_equal.
    destruct (Z_le_gt_dec (Z.of_nat (nrows img) / 128 * 128) (Z.of_nat r))
      as [Hor|Hir].
    { rewrite (Hzero r c Hr Hc (or_introl Hor)) in Hv. congruence. }
    destruct (Z_le_gt_dec (Z.of_nat (ncols img) / 128 * 128) (Z.of_nat c))
      as [Hoc|Hic].
    { rewrite (Hzero r c Hr Hc (or_intror Hoc)) in Hv. congruence. }
    destruct (covering_tile img r c ltac:(lia) ltac:(lia))
      as (patch & y & x & Htile & Hcov).
    rewrite (Hcells patch y x r c Htile Hcov) in Hv.
    exact (Hlabel _ _ _ _ Hv).
  - symmetry. apply eq_None_not_Some. intros Hsome.
    apply (cell_in_range _ r c (zero_mask_well_shaped _ _)) in Hsome.
    assert (Hnone : ~ is_Some (cell mask r c)) by (rewrite Hv; apply is_Some_None).
    apply Hnone. apply (cell_in_range mask r c Hm).
    injection Hshape as -> ->. exact Hsome.
Qed.

Lemma background_only_gives_zero_witness :
  infer_full_mask toy_transform toy_beats
    (fun _ : image => Grid 128 128 (replicate 128 (replicate 128 (0, 0))))
    (flat_image 200 300 (5, 9, 9))
  = Ok (zero_mask 200 300, 0).
Proof.
  apply (background_only_gives_zero toy_transform toy_beats
           (fun _ : image => Grid 128 128 (replicate 128 (replicate 128 (0, 0))))
           (flat_image 200 300 (5, 9, 9))).
  - intros t. split; [split|reflexivity].
    + apply length_replicate.
    + apply Forall_replicate. apply length_replicate.
  - intros t r c s Hs. unfold cell in Hs. cbn [cells] in Hs.
    destruct (replicate 128 (replicate 128 (0, 0)) !! r) as [row|] eqn:Hr;
      [|discriminate].
    apply lookup_replicate_1 in Hr as [-> _].
    apply lookup_replicate_1 in Hs as [-> _]. reflexivity.
Defined.

(** A prediction that cannot be broadcast into a 128 x 128 block. *)
Lemma infer_loop_bad_shape {tensor logit : Type}
    (transform : image -> tensor) (beats : logit -> logit -> bool)
    (model : tensor -> grid (logit * logit))
    (patch : image) (tiles : list (image * (Z * Z))) :
  (nrows (model (transform patch)) <> 128%nat
   /\ nrows (model (transform patch)) <> 1%nat)
  \/ (ncols (model (transform patch)) <> 128%nat
      /\ ncols (model (transform patch)) <> 1%nat) ->
  patch ∈ tiles.*1 ->
  forall (mask : grid Z) (total : Z),
    Forall (tile_ok (Z.of_nat (nrows mask)) (Z.of_nat (ncols mask))) tiles.*2 ->
    for_each (infer_step transform beats model) tiles (mask, total)
    = Raise ValueError.
Proof.
  intros Hbad. induction tiles as [|[p [y x]] tiles IH]; intros Hin mask total Hok.
  - apply elem_of_nil in Hin. contradiction.
  - rewrite fmap_cons in Hok. apply Forall_cons in Hok as [Hyx Hok].
    destruct Hyx as [(Hy0 & Hy1 & _) (Hx0 & Hx1 & _)]. cbn [fst snd] in *.
    simpl. unfold infer_step at 1. unfold grid_assign.
    rewrite (slice_len_in y PATCH_SIZE) by (unfold PATCH_SIZE in *; lia).
    rewrite (slice_len_in x PATCH_SIZE) by (unfold PATCH_SIZE in *; lia).
    change (Z.to_nat PATCH_SIZE) with 128%nat. cbv zeta.
    destruct (broadcastable (nrows (predict transform beats model p)) 128
              && broadcastable (ncols (predict transform beats model p)) 128)
      eqn:Hb; [|reflexivity].
    rewrite fmap_cons in Hin. apply elem_of_cons in Hin as [-> | Hin].
    + exfalso. apply andb_prop in Hb as [Hr Hc].
      unfold broadcastable, predict in Hr, Hc. cbn [nrows ncols] in Hr, Hc.
      apply orb_prop in Hr. apply orb_prop in Hc.
      rewrite !Nat.eqb_eq in Hr, Hc. cbn [fst] in Hbad. tauto.
    + simpl. apply (IH Hin). exact Hok.
Qed.

(** X10: when the network's output for some patch has a height or a
    width that is neither 128 nor 1, the slice assignment cannot
    broadcast it and [infer_full_mask] raises [ValueError]. *)
Theorem bad_prediction_shape_raises {tensor logit : Type}
    (transform : image -> tensor) (beats : logit -> logit -> bool)
    (model : tensor -> grid (logit * logit)) (img : image)
    (patches : list image) (positions : list (Z * Z)) (H W : Z)
    (patch : image) :
  extract_patches img PATCH_SIZE STRIDE = Ok (patches, positions, H, W) ->
  patch ∈ patches ->
  (nrows (model (transform patch)) <> 128%nat
   /\ nrows (model (transform patch)) <> 1%nat)
  \/ (ncols (model (transform patch)) <> 128%nat
      /\ ncols (model (transform patch)) <> 1%nat) ->
  infer_full_mask transform beats model img = Raise ValueError.
Proof.
  intros Hext Hin Hbad.
  rewrite extract_patches_tiles in Hext. injection Hext as <- _ _ _.
  rewrite infer_full_mask_loop.
  apply (infer_loop_bad_shape transform beats model patch); try assumption.
  apply grid_tiles_ok.
Qed.

Lemma bad_prediction_shape_raises_witness :
  infer_full_mask toy_transform toy_beats
    (fun _ : image => Grid 64 64 (replicate 64 (replicate 64 (0, 1))))
    (flat_image 130 130 (5, 9, 9))
  = Raise ValueError.
Proof.
  apply (bad_prediction_shape_raises toy_transform toy_beats
           (fun _ : image => Grid 64 64 (replicate 64 (replicate 64 (0, 1))))
           (flat_image 130 130 (5, 9, 9))
           (grid_tiles (flat_image 130 130 (5, 9, 9))).*1
           (grid_tiles (flat_image 130 130 (5, 9, 9))).*2
           130 130
           (grid_slice (flat_image 130 130 (5, 9, 9)) 0 128 0 128)).
  - apply extract_patches_tiles.
  - apply list_elem_of_here.
  - left. cbn [nrows]. split; discriminate.
Defined.

(** X11: the count returned is between 0 and the number of pixels of
    the tiled region, 16384 for each of the floor(H/128) * floor(W/128)
    patches (for an image of fewer than 2^63 pixels). *)
Theorem infer_total_tiled_bound {tensor logit : Type}
    (transform : image -> tensor) (beats : logit -> logit -> bool)
    (model : tensor -> grid (logit * logit)) (img : image) :
  patch_shaped model ->
  Z.of_nat (nrows img) * Z.of_nat (ncols img) < 2 ^ 63 ->
  exists mask total,
    infer_full_mask transform beats model img = Ok (mask, total)
    /\ 0 <= total
       <= 16384 * ((Z.of_nat (nrows img) / 128) * (Z.of_nat (ncols img) / 128)).
Proof.
  intros Hmodel Hsize.
  destruct (infer_any_order transform beats model Hmodel img (grid_tiles img)
              Hsize (reflexivity _)) as (mask & Hrun & _).
  exists mask, (patch_sum transform beats model (grid_tiles img).*1).
  split; [rewrite infer_full_mask_loop; exact Hrun|].
  rewrite patch_sum_tiles.
  pose proof (tile_ones_bound transform beats model Hmodel (grid_tiles img)) as Hb.
  pose proof (grid_tiles_length img) as Hlen.
  lia.
Qed.

Lemma infer_total_tiled_bound_witness :
  exists mask total,
    infer_full_mask toy_transform toy_beats toy_model
      (flat_image 200 300 (5, 0, 0)) = Ok (mask, total)
    /\ 0 <= total <= 16384 * ((200 / 128) * (300 / 128)).
Proof.
  apply (infer_total_tiled_bound toy_transform toy_beats toy_model
           (flat_image 200 300 (5, 0, 0)) toy_model_ok).
  simpl. lia.
Defined.

(** ** The runner: what a failed run has printed *)

Section RunnerFailures.
Context {tensor logit : Type}.
Variable transform : image -> tensor.
Variable beats : logit -> logit -> bool.
Variable str_round2 : spec_float -> string.

Local Abbreviation runner_ := (run transform beats str_round2).
Local Abbreviation progress_ := (progress_lines str_round2).

(** A run that ends with an exception has printed the usage text, or the
    text about the missing file, or the first lines of the progress
    report. *)
Lemma run_failure_stdout (w : world) (argv : list string) (e : exn) :
  raised (runner_ w argv) = Some e ->
  stdout (runner_ w argv) = ["Usage: python modeltester_UI.py <image_path>"%string]
  \/ (exists prog path,
        argv = [prog; path]
        /\ stdout (runner_ w argv)
           = [("Error: Image file " ++ path ++ " not found")%string])
  \/ (exists (k : nat) (n : Z),
        stdout (runner_ w argv) = take k (progress_ n (area_of n))).
Proof.
  unfold run, script.
  destruct (negb (length argv =? 2)%nat) eqn:Hlen; [intros _; left; reflexivity|].
  destruct argv as [|prog [|path [|x rest]]]; try discriminate.
  cbn [lookup list_lookup].
  destruct (os_path_exists w path) eqn:Hex; cbn [negb];
    [|intros _; right; left; exists prog, path; split; reflexivity].
  intros Hrun. right. right.
  unfold main, mbind, io_bind, lift, print, run_io in *.
  destruct (load_model w) as [model|e1];
    [|exists 1%nat, 0; reflexivity].
  destruct (rasterio_open w path) as [src|e2];
    [|exists 2%nat, 0; reflexivity].
  destruct (read_rgb src) as [img|e3];
    [|exists 2%nat, 0; reflexivity].
  destruct (infer_full_mask transform beats model img) as [[mask n]|e4];
    [|exists 3%nat, 0; reflexivity].
  destruct (save_figure w img mask (figure_title (area_of n))) as [[]|e5];
    [discriminate|exists 5%nat, n; reflexivity].
Qed.

(** None of the progress lines is a line of a results block, and none
    starts with a key of the caller's scan. *)
Lemma progress_not_results (n : Z) (a : spec_float) (k : nat) :
  Forall (fun l => results_line l = false /\ key_line l = false)
         (take k (progress_ n a)).
Proof.
  apply Forall_take. unfold progress_lines.
  repeat apply Forall_cons_2; try apply Forall_nil_2; split; reflexivity.
Qed.
End RunnerFailures.

(** X12: the results block is all or nothing.  Whatever the arguments
    and the environment, either the run ends normally and its output is
    the progress lines followed by the complete results block, or it
    ends with an exception and no line of its output is a sentinel or
    starts with ROOFTOP_PIXELS: or ROOFTOP_AREA: (for a path of one
    line). *)
Theorem results_block_all_or_nothing {tensor logit : Type}
    (transform : image -> tensor) (beats : logit -> logit -> bool)
    (str_round2 : spec_float -> string) (w : world) (argv : list string) :
  (raised (run transform beats str_round2 w argv) = None
   /\ exists n,
        stdout (run transform beats str_round2 w argv)
        = progress_lines str_round2 n (area_of n) ++ results_block n (area_of n))
  \/ (exists e,
        raised (run transform beats str_round2 w argv) = Some e
        /\ forallb (fun l => negb (results_line l))
                   (stdout (run transform beats str_round2 w argv)) = true).
Proof.
  destruct (raised (run transform beats str_round2 w argv)) as [e|] eqn:Hr.
  - right. exists e. split; [reflexivity|].
    destruct (run_failure_stdout transform beats str_round2 w argv e Hr)
      as [-> | [(prog & path & _ & ->) | (k & n & ->)]]; [reflexivity..|].
    apply List.forallb_forall. intros l Hl. apply list_elem_of_In in Hl.
    pose proof (proj1 (Forall_forall _ _)
                  (progress_not_results str_round2 n (area_of n) k) l Hl)
      as [Hres _].
    rewrite Hres. reflexivity.
  - left. split; [reflexivity|].
    destruct (run_success_inv transform beats str_round2 w argv Hr)
      as (prog & path & model & src & img & mask & n & _ & _ & _ & _ & _ & _ & _ & ->).
    exists n. reflexivity.
Qed.

(** ** The caller's scan *)

Lemma py_split_cons (sep : ascii) (s : string) :
  exists w ws, py_split sep s = w :: ws.
Proof.
  induction s as [|a s (w & ws & IH)]; simpl; [eauto|].
  destruct (Ascii.eqb a sep); [eauto|]. rewrite IH. eauto.
Qed.

Lemma prefix_split (p s : string) :
  String.prefix p s = true -> exists rest, s = (p ++ rest)%string.
Proof.
  revert s. induction p as [|a p IH]; intros s.
  - intros _. exists s. reflexivity.
  - destruct s as [|b s]; simpl; [discriminate|].
    destruct (ascii_dec a b) as [<- | _]; [|discriminate].
    intros H. destruct (IH s H) as (rest & ->). exists rest. reflexivity.
Qed.

Lemma py_int_raises (s : string) (e : exn) : py_int s = Raise e -> e = ValueError.
Proof.
  assert (Hd : forall neg t, int_digits neg t = Raise e -> e = ValueError).
  { intros neg t. unfold int_digits.
    destruct (NilZero.uint_of_string t); [discriminate|congruence]. }
  unfold py_int. destruct s as [|a t]; [apply Hd|].
  destruct a as [[] [] [] [] [] [] [] []]; apply Hd.
Qed.

Lemma py_float_raises (s : string) (e : exn) :
  py_float s = Raise e -> e = ValueError.
Proof.
  assert (Hv : forall neg ip fp, float_value neg ip fp = Raise e -> e = ValueError).
  { intros neg ip fp. unfold float_value.
    destruct (NilEmpty.uint_of_string ip); [|congruence].
    destruct (NilEmpty.uint_of_string fp); [|congruence].
    destruct (_ =? _)%nat; [congruence|discriminate]. }
  assert (Hb : forall neg t, float_body neg t = Raise e -> e = ValueError).
  { intros neg t. unfold float_body.
    destruct (_ || _); [discriminate|].
    destruct (String.eqb t "nan"); [discriminate|].
    destruct (py_split "." t) as [|ip [|fp [|x rest]]]; try congruence; apply Hv. }
  unfold py_float. destruct s as [|a t]; [apply Hb|].
  destruct a as [[] [] [] [] [] [] [] []]; apply Hb.
Qed.

(** A line that starts with a key and its colon has a second field. *)
Lemma key_field (key rest : string) :
  contains_char ":" key = false ->
  exists field, py_split ":" (key ++ String ":" rest) !! 1%nat = Some field.
Proof.
  intros Hkey. rewrite py_split_app_sep by exact Hkey.
  destruct (py_split_cons ":" rest) as (w & ws & ->). exists w. reflexivity.
Qed.

Lemma scan_line_raises (st : option Z * option spec_float) (l : string) (e : exn) :
  scan_line st l = Raise e -> e = ValueError.
Proof.
  unfold scan_line.
  destruct (String.prefix "ROOFTOP_PIXELS:" l) eqn:Hp.
  - apply prefix_split in Hp as (rest & ->).
    destruct (key_field "ROOFTOP_PIXELS" rest eq_refl) as (field & Hf).
    change ("ROOFTOP_PIXELS:" ++ rest)%string
      with ("ROOFTOP_PIXELS" ++ String ":" rest)%string.
    rewrite Hf.
    destruct (py_int field) eqn:Hi; [discriminate|].
    simpl. intros [= <-]. exact (py_int_raises _ _ Hi).
  - destruct (String.prefix "ROOFTOP_AREA:" l) eqn:Ha; [|discriminate].
    apply prefix_split in Ha as (rest & ->).
    destruct (key_field "ROOFTOP_AREA" rest eq_refl) as (field & Hf).
    change ("ROOFTOP_AREA:" ++ rest)%string
      with ("ROOFTOP_AREA" ++ String ":" rest)%string.
    rewrite Hf.
    destruct (py_float field) eqn:Hi; [discriminate|].
    simpl. intros [= <-]. exact (py_float_raises _ _ Hi).
Qed.

Lemma for_each_raises {A S} (body : S -> A -> result S) (P : exn -> Prop) :
  (forall s a e, body s a = Raise e -> P e) ->
  forall l s e, for_each body l s = Raise e -> P e.
Proof.
  intros Hbody. induction l as [|a l IH]; intros s e; simpl; [discriminate|].
  destruct (body s a) as [s'|e'] eqn:Hb.
  - apply IH.
  - simpl. intros [= <-]. exact (Hbody _ _ _ Hb).
Qed.

Lemma parse_stdout_raises (text : string) (e : exn) :
  parse_stdout text = Raise e -> e = ValueError.
Proof.
  apply (for_each_raises scan_line (fun e => e = ValueError)).
  intros s a e'. apply scan_line_raises.
Qed.

(** X13: the scan of the child's output raises nothing but
    [ValueError]: a line that starts with a key always has the field
    after the colon, so the index [1] never fails, and the only failure
    left is a field that [int] or [float] cannot read. *)
Theorem scan_raises_only_ValueError (text : string) (e : exn) :
  parse_stdout text = Raise e ->
  e = ValueError
  /\ exists line field,
       line ∈ py_split LF text /\ key_line line = true
       /\ py_split ":" line !! 1%nat = Some field
       /\ (py_int field = Raise ValueError \/ py_float field = Raise ValueError).
Proof.
  intros Hraise. split; [exact (parse_stdout_raises text e Hraise)|].
  unfold parse_stdout in Hraise.
  generalize dependent (@None Z, @None spec_float).
  induction (py_split LF text) as [|l lines IH]; intros st; simpl; [discriminate|].
  destruct (scan_line st l) as [st'|e'] eqn:Hl.
  - simpl. intros Hrest. destruct (IH _ Hrest) as (line & field & Hin & Hrestk).
    exists line, field. split; [apply list_elem_of_further; exact Hin|exact Hrestk].
  - intros _. unfold scan_line in Hl. unfold key_line.
    destruct (String.prefix "ROOFTOP_PIXELS:" l) eqn:Hp.
    + destruct (py_split ":" l !! 1%nat) as [field|] eqn:Hf.
      * exists l, field. split; [apply list_elem_of_here|].
        rewrite Hp. split; [reflexivity|]. split; [exact Hf|]. left.
        destruct (py_int field) as [v|e''] eqn:Hi; [discriminate|].
        rewrite (py_int_raises _ _ Hi). reflexivity.
      * exfalso. apply prefix_split in Hp as (rest & ->).
        destruct (key_field "ROOFTOP_PIXELS" rest eq_refl) as (field & Hf').
        change ("ROOFTOP_PIXELS" ++ String ":" rest)%string
          with ("ROOFTOP_PIXELS:" ++ rest)%string in Hf'. congruence.
    + destruct (String.prefix "ROOFTOP_AREA:" l) eqn:Ha; [|discriminate].
      destruct (py_split ":" l !! 1%nat) as [field|] eqn:Hf.
      * exists l, field. split; [apply list_elem_of_here|].
        rewrite Hp, Ha. split; [reflexivity|]. split; [exact Hf|]. right.
        destruct (py_float field) as [v|e''] eqn:Hi; [discriminate|].
        rewrite (py_float_raises _ _ Hi). reflexivity.
      * exfalso. apply prefix_split in Ha as (rest & ->).
        destruct (key_field "ROOFTOP_AREA" rest eq_refl) as (field & Hf').
        change ("ROOFTOP_AREA" ++ String ":" rest)%string
          with ("ROOFTOP_AREA:" ++ rest)%string in Hf'. congruence.
Qed.

Lemma scan_raises_only_ValueError_witness :
  parse_stdout
    (stdout_text ["Loading model..."; "ROOFTOP_PIXELS:12 px"; "ROOFTOP_AREA:1.08"]%string)
  = Raise ValueError
  /\ ValueError = ValueError
  /\ exists line field,
       line ∈ py_split LF
                (stdout_text ["Loading model..."; "ROOFTOP_PIXELS:12 px";
                              "ROOFTOP_AREA:1.08"]%string)
       /\ key_line line = true
       /\ py_split ":" line !! 1%nat = Some field
       /\ (py_int field = Raise ValueError \/ py_float field = Raise ValueError).
Proof.
  split; [reflexivity|].
  apply (scan_raises_only_ValueError _ ValueError). reflexivity.
Defined.

(** The scan skips the lines that start with neither key. *)
Lemma scan_skips (lines : list string) (st : option Z * option spec_float) :
  for_each scan_line lines st
  = for_each scan_line (List.filter key_line lines) st.
Proof.
  revert st. induction lines as [|l lines IH]; intros st; [reflexivity|].
  simpl. unfold key_line at 1.
  destruct (String.prefix "ROOFTOP_PIXELS:" l) eqn:Hp.
  - simpl. destruct (scan_line st l); [apply IH|reflexivity].
  - destruct (String.prefix "ROOFTOP_AREA:" l) eqn:Ha.
    + simpl. destruct (scan_line st l); [apply IH|reflexivity].
    + simpl. rewrite (scan_other st l Hp Ha). apply IH.
Qed.

(** X14: only the lines that start with ROOFTOP_PIXELS: or
    ROOFTOP_AREA: matter to the caller: two outputs whose key lines are
    the same, in the same order, are read alike, whatever else they
    hold (the sentinel lines included). *)
Theorem scan_reads_key_lines_only (text text' : string) :
  List.filter key_line (py_split LF text)
  = List.filter key_line (py_split LF text') ->
  parse_stdout text = parse_stdout text'.
Proof.
  intros Hkeys. unfold parse_stdout.
  rewrite (scan_skips (py_split LF text)), (scan_skips (py_split LF text')), Hkeys.
  reflexivity.
Qed.

Lemma scan_reads_key_lines_only_witness :
  parse_stdout
    (stdout_text ["RESULTS_START"; "ROOFTOP_PIXELS:12"; "ROOFTOP_AREA:1.08";
                  "RESULTS_END"]%string)
  = parse_stdout
      (stdout_text ["ROOFTOP_PIXELS:12"; "some warning"; "ROOFTOP_AREA:1.08"]%string).
Proof.
  apply scan_reads_key_lines_only. reflexivity.
Defined.




(** ** The dashboard: solar figures *)

(** A divisor that passed the test [> 0] is not a zero. *)
Lemma guarded_div (a b : spec_float) :
  b64_gt_0 b = true -> py_truediv a b = Ok (b64_div a b).
Proof.
  unfold py_truediv. destruct b as [s | s | | s m e]; try reflexivity.
  destruct s; discriminate.
Qed.

Lemma roi_calculator_ok (location : string) (rooftop_area irradiance : spec_float) :
  exists r, roi_calculator location rooftop_area irradiance = Ok r.
Proof.
  unfold roi_calculator. cbv zeta.
  set (city := dict_get CITY_PRICING location _).
  set (savings := b64_mul (b64_mul _ _) (rate city)).
  set (cost := b64_mul (b64_mul _ (install city)) _).
  destruct (b64_gt_0 cost) eqn:Hc; destruct (b64_gt_0 savings) eqn:Hs;
    rewrite ?(guarded_div savings cost Hc), ?(guarded_div cost savings Hs);
    eexists; reflexivity.
Qed.

(** X16: the pricing and ROI calculator never raises: each of its two
    divisions is guarded by a test that its divisor is positive, and a
    float that is positive is not a zero. *)
Theorem roi_calculator_never_raises (location : string)
    (rooftop_area irradiance : spec_float) :
  exists r,
    roi_calculator location rooftop_area irradiance = Ok r
    /\ roi r = (if b64_gt_0 (install_cost r)
                then b64_div (annual_savings r) (install_cost r)
                else S754_zero false)
    /\ payback_years r = (if b64_gt_0 (annual_savings r)
                          then b64_div (install_cost r) (annual_savings r)
                          else S754_zero false).
Proof.
  unfold roi_calculator. cbv zeta.
  set (city := dict_get CITY_PRICING location _).
  set (savings := b64_mul (b64_mul _ _) (rate city)).
  set (cost := b64_mul (b64_mul _ (install city)) _).
  destruct (b64_gt_0 cost) eqn:Hc; destruct (b64_gt_0 savings) eqn:Hs;
    rewrite ?(guarded_div savings cost Hc), ?(guarded_div cost savings Hs);
    eexists; (split; [reflexivity|]); cbn [roi payback_years install_cost annual_savings];
    rewrite Hc, Hs; split; reflexivity.
Qed.

Lemma mul_zero_or_nan (x y : spec_float) :
  zero_or_nan x = true -> zero_or_nan (b64_mul x y) = true.
Proof.
  destruct x as [s | s | | s m e]; try discriminate; intros _;
    destruct y as [s' | s' | | s' m' e']; reflexivity.
Qed.

Lemma zero_or_nan_not_gt (x : spec_float) :
  zero_or_nan x = true -> b64_gt_0 x = false.
Proof. destruct x as [s | s | | s m e]; try discriminate; reflexivity. Qed.

(** X17: with an area of zero the calculator divides nothing: the
    installation cost and the savings are not positive, and the ROI and
    the payback period shown are 0, whatever the location and the
    irradiance. *)
Theorem zero_area_roi (location : string) (rooftop_area irradiance : spec_float) :
  is_zero rooftop_area = true ->
  exists r,
    roi_calculator location rooftop_area irradiance = Ok r
    /\ b64_gt_0 (install_cost r) = false
    /\ b64_gt_0 (annual_savings r) = false
    /\ roi r = S754_zero false
    /\ payback_years r = S754_zero false.
Proof.
  intros Hz.
  assert (Ha : zero_or_nan rooftop_area = true)
    by (destruct rooftop_area; try discriminate; reflexivity).
  unfold roi_calculator. cbv zeta.
  set (city := dict_get CITY_PRICING location _).
  set (savings := b64_mul (b64_mul _ _) (rate city)).
  set (cost := b64_mul (b64_mul _ (install city)) _).
  assert (Hs : b64_gt_0 savings = false)
    by (apply zero_or_nan_not_gt; unfold savings;
        do 5 (try apply mul_zero_or_nan); exact Ha).
  assert (Hc : b64_gt_0 cost = false)
    by (apply zero_or_nan_not_gt; unfold cost;
        do 3 (try apply mul_zero_or_nan); exact Ha).
  rewrite Hs, Hc. eexists. split; [reflexivity|].
  cbn [roi payback_years install_cost annual_savings].
  repeat split; assumption.
Qed.

Lemma zero_area_roi_witness :
  exists r,
    roi_calculator "Houston, TX" (S754_zero false) (dec 527 100) = Ok r
    /\ b64_gt_0 (install_cost r) = false
    /\ b64_gt_0 (annual_savings r) = false
    /\ roi r = S754_zero false
    /\ payback_years r = S754_zero false.
Proof.
  apply (zero_area_roi "Houston, TX" (S754_zero false) (dec 527 100)).
  reflexivity.
Defined.

(** X18: every option of the location select box has an entry in the
    irradiance table and in the pricing table, so the fallback values
    of the two lookups are never used. *)
Theorem locations_have_entries (location : string)
    (irr irr' : spec_float) (price price' : city_pricing) :
  location ∈ LOCATIONS ->
  dict_get LOCATION_IRRADIANCE location irr
  = dict_get LOCATION_IRRADIANCE location irr'
  /\ dict_get CITY_PRICING location price = dict_get CITY_PRICING location price'.
Proof.
  unfold LOCATIONS. intros Hin.
  repeat (apply elem_of_cons in Hin as [-> | Hin]; [split; reflexivity|]).
  apply elem_of_nil in Hin. contradiction.
Qed.

Lemma locations_have_entries_witness :
  dict_get LOCATION_IRRADIANCE "Dallas, TX" (dec 5 1)
  = dict_get LOCATION_IRRADIANCE "Dallas, TX" S754_nan
  /\ dict_get CITY_PRICING "Dallas, TX" (CityPricing (dec 12 100) (dec 110 100))
     = dict_get CITY_PRICING "Dallas, TX" (CityPricing S754_nan S754_nan).
Proof.
  apply (locations_have_entries "Dallas, TX").
  unfold LOCATIONS. apply list_elem_of_further, list_elem_of_further, list_elem_of_here.
Defined.

(** ** The dashboard: the handler of the run button *)

(** The figures of the insights row fail only in [int], on an area
    that is infinite or not a number. *)
Lemma solar_insights_raises (location : string) (rooftop_area : spec_float) (e : exn) :
  solar_insights location rooftop_area = Raise e ->
  e = ValueError \/ e = OtherError "OverflowError".
Proof.
  unfold solar_insights, py_truediv.
  change (is_zero (b64_of_Z 20)) with false.
  change (is_zero (b64_of_Z 1000)) with false. cbv iota.
  cbn [mbind result_bind].
  destruct (b64_div rooftop_area (b64_of_Z 20)) as [s | s | | s m ex];
    cbn [int_of_float mbind result_bind]; intros H; try discriminate H;
    injection H as <-; auto.
Qed.

Section HandlerFacts.
Variable exn_text : exn -> string.
Variable results_png : bool.

Local Abbreviation handler_ := (run_detection exn_text results_png).

(** The page shown for a parsed pair of values. *)
Lemma show_results_spec (location : string) (n : Z) (a : spec_float) :
  exists rest r,
    show_results results_png location n a []
    = (ShowSuccess :: ShowCounts n a :: rest, r)
    /\ forallb (fun ev => negb (is_unlink ev)) rest = true
    /\ forall e, r = Raise e -> is_Exception e = true.
Proof.
  unfold show_results, mbind, act_bind, emit, lift_act, mret, act_ret.
  cbn [app].
  destruct (solar_insights location a) as [i|e] eqn:Hi.
  - destruct (roi_calculator_ok location a (irradiance i)) as (r & ->).
    destruct results_png; cbn [app]; eexists _, _;
      (split; [reflexivity|]); (split; [reflexivity|]); discriminate.
  - destruct (solar_insights_raises _ _ _ Hi) as [-> | ->];
      destruct results_png; cbn [app]; eexists _, _;
      (split; [reflexivity|]); (split; [reflexivity|]);
      intros e' [= <-]; reflexivity.
Qed.

(** What the [try] block shows, and what it raises. *)
Lemma detect_spec (sub : result completed_process) (location : string) :
  exists shown r,
    detect results_png sub location [] = (shown, r)
    /\ forallb (fun ev => negb (is_unlink ev)) shown = true
    /\ forall e, r = Raise e -> sub = Raise e \/ is_Exception e = true.
Proof.
  unfold detect, mbind, act_bind, lift_act.
  destruct sub as [cp|e0].
  2:{ eexists _, _. split; [reflexivity|]. split; [reflexivity|].
      intros e [= <-]. left. reflexivity. }
  destruct (returncode cp =? 0).
  2:{ eexists _, _. split; [reflexivity|]. split; [reflexivity|]. discriminate. }
  destruct (parse_stdout (cp_stdout cp)) as [[[n|] [a|]]|e0] eqn:Hp.
  - destruct (show_results_spec location n a) as (rest & r & -> & Hrest & Hr).
    eexists _, _. split; [reflexivity|]. split; [exact Hrest|].
    intros e He. right. exact (Hr e He).
  - eexists _, _. split; [reflexivity|]. split; [reflexivity|]. discriminate.
  - eexists _, _. split; [reflexivity|]. split; [reflexivity|]. discriminate.
  - eexists _, _. split; [reflexivity|]. split; [reflexivity|]. discriminate.
  - eexists _, _. split; [reflexivity|]. split; [reflexivity|].
    intros e [= <-]. right. rewrite (parse_stdout_raises _ _ Hp). reflexivity.
Qed.

Lemma forallb_snoc {A} (f : A -> bool) (l : list A) (a : A) :
  forallb f (l ++ [a]) = forallb f l && f a.
Proof. rewrite List.forallb_app. simpl. rewrite andb_true_r. reflexivity. Qed.
End HandlerFacts.

(** X19: whatever the child process did, the handler ends by
    removing the temporary image, exactly once and after everything it
    shows; and no error of the parsing or of the figures escapes it: it
    raises only when [subprocess.run] itself raised an exception that is
    neither a timeout nor an [Exception]. *)
Theorem handler_cleans_up_and_contains (exn_text : exn -> string)
    (results_png : bool) (sub : result completed_process)
    (location temp_image_path : string) :
  exists shown,
    fst (run_detection exn_text results_png sub location temp_image_path)
    = shown ++ [Unlink temp_image_path]
    /\ forallb (fun ev => negb (is_unlink ev)) shown = true
    /\ snd (run_detection exn_text results_png sub location temp_image_path)
       = match sub with
         | Ok _ => Ok tt
         | Raise e =>
             if is_TimeoutExpired e || is_Exception e then Ok tt else Raise e
         end.
Proof.
  unfold run_detection, try_finally, try_except.
  destruct (detect_spec results_png sub location) as (shown & r & Hd & Hshown & Hr).
  rewrite Hd.
  destruct r as [[]|e].
  - exists shown. split; [reflexivity|]. split; [exact Hshown|].
    destruct sub as [cp|e0]; [reflexivity|].
    unfold detect, mbind, act_bind, lift_act in Hd. discriminate.
  - unfold on_exception, emit, lift_act.
    assert (Hcase : sub = Raise e \/ is_Exception e = true) by (apply Hr; reflexivity).
    destruct (is_TimeoutExpired e) eqn:Ht.
    { eexists. split; [reflexivity|]. rewrite forallb_snoc, Hshown.
      split; [reflexivity|].
      destruct sub as [cp|e0]; [reflexivity|].
      unfold detect, mbind, act_bind, lift_act in Hd. injection Hd as _ ->.
      rewrite Ht. reflexivity. }
    destruct (is_Exception e) eqn:He.
    { eexists. split; [reflexivity|]. rewrite forallb_snoc, Hshown.
      split; [reflexivity|].
      destruct sub as [cp|e0]; [reflexivity|].
      unfold detect, mbind, act_bind, lift_act in Hd. injection Hd as _ ->.
      rewrite Ht, He. reflexivity. }
    destruct Hcase as [-> | Hex]; [|discriminate].
    exists shown. split; [reflexivity|]. split; [exact Hshown|].
    rewrite Ht, He. reflexivity.
Qed.

(** ** The runner under the dashboard *)

(** X20: a successful run is shown.  When the runner, started as the
    dashboard starts it, ends normally, its arguments were a program
    name and a path, and the handler reads its output back, shows the
    success banner and then the count that [infer_full_mask] returns for
    the loaded network on the image read from that path, together with
    the area as printed (the binary64 value of its two-decimal text),
    and ends normally after removing the temporary image. *)
Theorem successful_run_is_shown {tensor logit : Type}
    (transform : image -> tensor) (beats : logit -> logit -> bool)
    (str_round2 : spec_float -> string) (w : world) (argv : list string)
    (exn_text : exn -> string) (results_png : bool)
    (err location temp_image_path : string) :
  (forall x, contains_char LF (str_round2 x) = false) ->
  raised (run transform beats str_round2 w argv) = None ->
  exists prog path model src img mask n rest,
    argv = [prog; path]
    /\ os_path_exists w path = true
    /\ load_model w = Ok model
    /\ rasterio_open w path = Ok src
    /\ read_rgb src = Ok img
    /\ infer_full_mask transform beats model img = Ok (mask, n)
    /\ run_detection exn_text results_png
         (Ok (completed (run transform beats str_round2 w argv) err))
         location temp_image_path
       = (ShowSuccess :: ShowCounts n (round2 (area_of n)) :: rest
            ++ [Unlink temp_image_path],
          Ok tt).
Proof.
  intros Hnl Hok.
  destruct (run_success_inv transform beats str_round2 w argv Hok)
    as (prog & path & model & src & img & mask & n
        & -> & Hex & H1 & H2 & H3 & H4 & H5 & Hrun).
  destruct (parse_results str_round2 n (area_of n) (Hnl _)) as [Hp _].
  destruct (show_results_spec results_png location n (round2 (area_of n)))
    as (rest & r & Hshow & _ & Hr).
  assert (Hdet : detect results_png
                   (Ok (completed (run transform beats str_round2 w [prog; path]) err))
                   location []
                 = (ShowSuccess :: ShowCounts n (round2 (area_of n)) :: rest, r)).
  { rewrite Hrun. unfold detect, completed, mbind, act_bind, lift_act.
    cbn [returncode cp_stdout exit_code raised stdout Z.eqb].
    rewrite Hp. exact Hshow. }
  exists prog, path, model, src, img, mask, n.
  unfold run_detection, try_finally, try_except. rewrite Hdet.
  destruct r as [[]|e].
  - exists rest. repeat (split; [first [reflexivity | assumption]|]). reflexivity.
  - exists (rest ++ [ShowError
                       (if is_TimeoutExpired e
                        then "❌ Model execution timed out. Please try with a smaller image."%string
                        else ("❌ Error running detection: " ++ exn_text e)%string)]).
    repeat (split; [first [reflexivity | assumption]|]).
    unfold on_exception, emit. rewrite (Hr e eq_refl).
    destruct (is_TimeoutExpired e); cbn [fst app]; rewrite <- !app_assoc; reflexivity.
Qed.

Lemma successful_run_is_shown_witness :
  exists prog path model src img mask n rest,
    toy_argv = [prog; path]
    /\ os_path_exists (toy_world (Ok (toy_dataset 3))) path = true
    /\ load_model (toy_world (Ok (toy_dataset 3))) = Ok model
    /\ rasterio_open (toy_world (Ok (toy_dataset 3))) path = Ok src
    /\ read_rgb src = Ok img
    /\ infer_full_mask toy_transform toy_beats model img = Ok (mask, n)
    /\ run_detection (fun _ => EmptyString) true
         (Ok (completed (run toy_transform toy_beats fmt_2f
                             (toy_world (Ok (toy_dataset 3))) toy_argv)
                        EmptyString))
         "Houston, TX" "tile.tif"
       = (ShowSuccess :: ShowCounts n (round2 (area_of n)) :: rest
            ++ [Unlink "tile.tif"],
          Ok tt).
Proof.
  apply (successful_run_is_shown toy_transform toy_beats fmt_2f
           (toy_world (Ok (toy_dataset 3))) toy_argv).
  - exact fmt_2f_no_newline.
  - vm_compute. reflexivity.
Defined.



(** ** Binary64 division *)

(** The location of a remainder [r] against the divisor [B] rounds the
    quotient to the nearest integer. *)
Lemma round_new_location (q B r : Z) :
  0 < B -> 0 <= r < B ->
  let m := round_nearest_even q (new_location B r) in
  q <= m <= q + 1 /\ 2 * Z.abs (m * B - (q * B + r)) <= B.
Proof.
  intros HB Hr. cbv zeta. unfold new_location.
  destruct (Z.even B) eqn:Hev.
  - unfold new_location_even.
    destruct (Z.eqb_spec r 0) as [-> | Hr0]; cbn [round_nearest_even]; [lia|].
    destruct (Z.compare_spec (2 * r) B) as [E | E | E]; cbn [round_nearest_even];
      try destruct (Z.even q); lia.
  - unfold new_location_odd.
    destruct (Z.eqb_spec r 0) as [-> | Hr0]; cbn [round_nearest_even]; [lia|].
    destruct (Z.compare_spec (2 * r + 1) B) as [E | E | E]; cbn [round_nearest_even];
      lia.
Qed.

(** The same after one more bit of the quotient is shifted out. *)
Lemma round_new_location_shr (q B r : Z) :
  0 <= q -> 0 < B -> 0 <= r < B ->
  let mrs := shr_1 (shr_record_of_loc q (new_location B r)) in
  let m := round_nearest_even (shr_m mrs) (loc_of_shr_record mrs) in
  q / 2 <= m <= q / 2 + 1 /\ Z.abs (m * 2 * B - (q * B + r)) <= B.
Proof.
  intros Hq HB Hr. cbv zeta.
  pose proof (Z.div_mod q 2 ltac:(lia)) as Hdm. rewrite Zmod_odd in Hdm.
  assert (Hloc : (r = 0 /\ new_location B r = loc_Exact)
                 \/ (0 < r /\ exists c, new_location B r = loc_Inexact c)).
  { unfold new_location.
    destruct (Z.even B); unfold new_location_even, new_location_odd;
      (destruct (Z.eqb_spec r 0) as [-> | Hr0];
       [left; split; reflexivity | right; split; [lia | eexists; reflexivity]]). }
  destruct Hloc as [[-> ->] | [Hr0 (c & ->)]].
  - cbn [shr_record_of_loc]. rewrite shr_1_spec by exact Hq.
    cbn [shr_m loc_of_shr_record orb].
    destruct (Z.odd q); cbn [loc_of_shr_record round_nearest_even].
    + destruct (Z.even (q / 2)); nia.
    + nia.
  - assert (Hrec : exists rb sb,
               shr_record_of_loc q (loc_Inexact c) = Build_shr_record q rb sb
               /\ rb || sb = true)
      by (destruct c; cbn [shr_record_of_loc]; eauto).
    destruct Hrec as (rb & sb & -> & Hor).
    rewrite shr_1_spec by exact Hq. rewrite Hor.
    cbn [shr_m loc_of_shr_record].
    destruct (Z.odd q); cbn [loc_of_shr_record round_nearest_even]; nia.
Qed.

Lemma loc_of_record_of_loc (m : Z) (l : location) :
  loc_of_shr_record (shr_record_of_loc m l) = l
  /\ shr_m (shr_record_of_loc m l) = m.
Proof. destruct l as [|[]]; split; reflexivity. Qed.

(** A quotient of exactly 53 bits is rounded as it is. *)
Lemma shr_fexp_keep (m : positive) (e : Z) (l : location) :
  Zpos (digits2_pos m) = 53 -> - 1074 <= e ->
  shr_fexp 53 1024 (Zpos m) e l = (shr_record_of_loc (Zpos m) l, e).
Proof.
  intros Hd He. unfold shr_fexp. cbn [Zdigits2].
  rewrite Hd, fexp_normal by lia.
  replace (53 + e - 53 - e) with 0 by lia. reflexivity.
Qed.

(** A quotient of 54 bits loses one bit first. *)
Lemma shr_fexp_one (m : positive) (e : Z) (l : location) :
  Zpos (digits2_pos m) = 54 -> - 1074 <= e + 1 ->
  shr_fexp 53 1024 (Zpos m) e l = (shr_1 (shr_record_of_loc (Zpos m) l), e + 1).
Proof.
  intros Hd He. unfold shr_fexp. cbn [Zdigits2].
  rewrite Hd, fexp_normal by lia.
  replace (54 + e - 53 - e) with 1 by lia. reflexivity.
Qed.

(** The end of a rounding: a mantissa between 2^52 and 2^53 gives a
    finite number of the same value. *)
Lemma round_finish (sgn : bool) (m2 e : Z) :
  2 ^ 52 <= m2 <= 2 ^ 53 -> - 1074 <= e <= 970 ->
  exists mf ef,
    (let '(mrs, e') := shr_fexp 53 1024 m2 e loc_Exact in
     match shr_m mrs with
     | Z0 => S754_zero sgn
     | Zpos m => if e' <=? 1024 - 53 then S754_finite sgn m e' else S754_infinity sgn
     | Zneg _ => S754_nan
     end) = S754_finite sgn mf ef
    /\ Zpos (digits2_pos mf) = 53
    /\ e <= ef <= e + 1
    /\ Zpos mf * 2 ^ (ef - e) = m2.
Proof.
  intros Hm He.
  destruct (Z_lt_le_dec m2 (2 ^ 53)) as [Hlt | Hge].
  - destruct m2 as [|p2|p2]; try lia.
    assert (Hd2 : Zpos (digits2_pos p2) = 53)
      by (apply digits2_pos_unique; change (53 - 1) with 52; lia).
    rewrite shr_fexp_normal by (trivial; lia).
    cbn [shr_m].
    replace (e <=? 1024 - 53) with true by (symmetry; apply Z.leb_le; lia).
    exists p2, e. split; [reflexivity|]. split; [exact Hd2|]. split; [lia|].
    rewrite Z.sub_diag. lia.
  - assert (E2 : m2 = 2 ^ 53) by lia. rewrite E2.
    rewrite shr_fexp_carry by lia.
    cbn [shr_m].
    replace (e + 1 <=? 1024 - 53) with true by (symmetry; apply Z.leb_le; lia).
    exists (Z.to_pos (2 ^ 52)), (e + 1). split; [reflexivity|].
    split; [reflexivity|]. split; [lia|].
    replace (e + 1 - e) with 1 by lia. reflexivity.
Qed.

(** The correctly rounded quotient of [A * 2^e1] by [B * 2^e2], in the
    normal range: the mantissa of the result is the integer nearest to
    the quotient counted in units of the result's exponent. *)
Lemma div_core_round (sgn : bool) (A B : positive) (e1 e2 : Z) :
  Zpos (digits2_pos A) - Zpos (digits2_pos B) <= 51 ->
  - 1074 <= Zpos (digits2_pos A) + e1 - Zpos (digits2_pos B) - e2 - 53 ->
  Zpos (digits2_pos A) + e1 - Zpos (digits2_pos B) - e2 - 53 + 2 <= 971 ->
  exists mf ef,
    (let '(q, e, l) := SFdiv_core_binary 53 1024 (Zpos A) e1 (Zpos B) e2 in
     binary_round_aux 53 1024 sgn q e l) = S754_finite sgn mf ef
    /\ Zpos (digits2_pos mf) = 53
    /\ Zpos (digits2_pos A) + e1 - Zpos (digits2_pos B) - e2 - 53 <= ef
       <= Zpos (digits2_pos A) + e1 - Zpos (digits2_pos B) - e2 - 51
    /\ 2 * Z.abs (Zpos mf * Zpos B - Zpos A * 2 ^ (e1 - e2 - ef)) <= Zpos B.
Proof.
  intros Hdd Hlo Hhi.
  pose proof (digits2_pos_bounds A) as [HAl HAh].
  pose proof (digits2_pos_bounds B) as [HBl HBh].
  set (dA := Zpos (digits2_pos A)) in *. set (dB := Zpos (digits2_pos B)) in *.
  assert (HdA : 0 < dA) by (unfold dA; lia).
  assert (HdB : 0 < dB) by (unfold dB; lia).
  set (s := 53 + dB - dA). set (e' := e1 - e2 - s).
  assert (Hs : 2 <= s) by (unfold s; lia).
  unfold SFdiv_core_binary. cbn [Zdigits2]. fold dA dB.
  rewrite fexp_normal by lia.
  rewrite Z.min_l by lia.
  replace (dA + e1 - (dB + e2) - 53) with e' by (unfold e', s; lia).
  replace (e1 - e2 - e') with (Zpos (Z.to_pos s)) by (unfold e'; lia).
  rewrite Z.shiftl_mul_pow2 by lia.
  rewrite Z2Pos.id by lia.
  set (m' := Zpos A * 2 ^ s).
  assert (Hps : 0 < 2 ^ s) by (apply Z.pow_pos_nonneg; lia).
  assert (Hm'l : 2 ^ 52 * 2 ^ dB <= m').
  { unfold m'. replace (2 ^ 52 * 2 ^ dB) with (2 ^ (dA - 1) * 2 ^ s)
      by (rewrite <- !Z.pow_add_r by lia; f_equal; unfold s; lia).
    apply Z.mul_le_mono_nonneg_r; lia. }
  assert (Hm'h : m' < 2 ^ 54 * 2 ^ (dB - 1)).
  { unfold m'. replace (2 ^ 54 * 2 ^ (dB - 1)) with (2 ^ dA * 2 ^ s)
      by (rewrite <- !Z.pow_add_r by lia; f_equal; unfold s; lia).
    apply Z.mul_lt_mono_pos_r; lia. }
  destruct (Z.div_eucl m' (Zpos B)) as [q r] eqn:Hqr.
  assert (Hq : q = m' / Zpos B) by (unfold Z.div; rewrite Hqr; reflexivity).
  assert (Hr : r = m' mod Zpos B) by (unfold Z.modulo; rewrite Hqr; reflexivity).
  pose proof (Z.div_mod m' (Zpos B) ltac:(lia)) as Hdm.
  pose proof (Z.mod_pos_bound m' (Zpos B) ltac:(lia)) as Hrb.
  rewrite <- Hq, <- Hr in Hdm. rewrite <- Hr in Hrb.
  assert (Hqb : 2 ^ 52 <= q < 2 ^ 54).
  { split.
    - rewrite Hq. apply Z.div_le_lower_bound; [lia|].
      apply Z.le_trans with (2 ^ 52 * 2 ^ dB); [|exact Hm'l].
      rewrite (Z.mul_comm (Zpos B)). apply Z.mul_le_mono_nonneg_l; lia.
    - rewrite Hq. apply Z.div_lt_upper_bound; [lia|].
      apply Z.lt_le_trans with (2 ^ 54 * 2 ^ (dB - 1)); [exact Hm'h|].
      rewrite (Z.mul_comm (Zpos B)). apply Z.mul_le_mono_nonneg_l; lia. }
  assert (Hs1 : 2 ^ s = 2 ^ (s - 1) * 2)
    by (replace s with (s - 1 + 1) at 1 by lia; rewrite Z.pow_add_r by lia; reflexivity).
  assert (Hs2 : 2 ^ (s - 1) = 2 ^ (s - 2) * 2)
    by (replace (s - 1) with (s - 2 + 1) by lia; rewrite Z.pow_add_r by lia; reflexivity).
  assert (Hps2 : 0 < 2 ^ (s - 2)) by (apply Z.pow_pos_nonneg; lia).
  destruct q as [|pq|pq]; try lia.
  unfold binary_round_aux.
  destruct (Z_lt_le_dec (Zpos pq) (2 ^ 53)) as [Hq53 | Hq54].
  - (* 53 bits *)
    assert (Hdq : Zpos (digits2_pos pq) = 53)
      by (apply digits2_pos_unique; change (53 - 1) with 52; lia).
    rewrite shr_fexp_keep by (trivial; unfold e'; lia).
    destruct (loc_of_record_of_loc (Zpos pq) (new_location (Zpos B) r)) as [-> ->].
    destruct (round_new_location (Zpos pq) (Zpos B) r ltac:(lia) Hrb) as [Hm2 Herr].
    cbv zeta in Hm2, Herr.
    set (m2 := round_nearest_even (Zpos pq) (new_location (Zpos B) r)) in *.
    destruct (round_finish sgn m2 e' ltac:(lia) ltac:(unfold e', s; lia))
      as (mf & ef & Hfin & Hdf & Hef & Hval).
    exists mf, ef. split; [exact Hfin|]. split; [exact Hdf|].
    split; [unfold e', s in Hef; lia|].
    destruct (Z.eq_dec ef e') as [-> | Hne].
    + rewrite Z.sub_diag, Z.mul_1_r in Hval.
      replace (e1 - e2 - e') with s by (unfold e'; lia).
      rewrite Hval. fold m'. rewrite Hdm. lia.
    + assert (ef = e' + 1) as -> by lia.
      replace (e' + 1 - e') with 1 in Hval by lia.
      replace (e1 - e2 - (e' + 1)) with (s - 1) by (unfold e'; lia).
      change (2 ^ 1) with 2 in Hval.
      assert (Hm' : m' = Zpos A * 2 ^ (s - 1) * 2) by (unfold m'; rewrite Hs1; ring).
      lia.
  - (* 54 bits *)
    assert (Hdq : Zpos (digits2_pos pq) = 54)
      by (apply digits2_pos_unique; change (54 - 1) with 53; lia).
    rewrite shr_fexp_one by (trivial; unfold e'; lia).
    destruct (round_new_location_shr (Zpos pq) (Zpos B) r ltac:(lia) ltac:(lia) Hrb)
      as [Hm2 Herr].
    cbv zeta in Hm2, Herr.
    set (mrs := shr_1 (shr_record_of_loc (Zpos pq) (new_location (Zpos B) r))) in *.
    set (m2 := round_nearest_even (shr_m mrs) (loc_of_shr_record mrs)) in *.
    assert (Hhalf : 2 ^ 52 <= Zpos pq / 2 < 2 ^ 53).
    { split; [apply Z.div_le_lower_bound | apply Z.div_lt_upper_bound]; lia. }
    destruct (round_finish sgn m2 (e' + 1) ltac:(lia) ltac:(unfold e', s; lia))
      as (mf & ef & Hfin & Hdf & Hef & Hval).
    exists mf, ef. split; [exact Hfin|]. split; [exact Hdf|].
    split; [unfold e', s in Hef; lia|].
    destruct (Z.eq_dec ef (e' + 1)) as [-> | Hne].
    + rewrite Z.sub_diag, Z.mul_1_r in Hval.
      replace (e1 - e2 - (e' + 1)) with (s - 1) by (unfold e'; lia).
      assert (Hm' : m' = Zpos A * 2 ^ (s - 1) * 2) by (unfold m'; rewrite Hs1; ring).
      rewrite Hval. lia.
    + assert (ef = e' + 2) as -> by lia.
      replace (e' + 2 - (e' + 1)) with 1 in Hval by lia.
      replace (e1 - e2 - (e' + 2)) with (s - 2) by (unfold e'; lia).
      change (2 ^ 1) with 2 in Hval.
      assert (Hm' : m' = Zpos A * 2 ^ (s - 2) * 4)
        by (unfold m'; rewrite Hs1, Hs2; ring).
      lia.
Qed.

(** The binary64 value of a ratio of two positive integers: its mantissa
    is the integer nearest to the ratio counted in units of its
    exponent. *)
Lemma b64_of_ratio_round (p den : positive) :
  Zpos (digits2_pos p) - Zpos (digits2_pos den) <= 51 ->
  Zpos (digits2_pos den) <= 64 ->
  exists mf ef,
    b64_of_ratio false (Npos p) den = S754_finite false mf ef
    /\ Zpos (digits2_pos mf) = 53
    /\ Zpos (digits2_pos p) - Zpos (digits2_pos den) - 53 <= ef
       <= Zpos (digits2_pos p) - Zpos (digits2_pos den) - 51
    /\ 2 * Z.abs (Zpos mf * Zpos den - Zpos p * 2 ^ (- ef)) <= Zpos den.
Proof.
  intros Hdd Hden.
  pose proof (Pos2Z.is_pos (digits2_pos p)).
  pose proof (Pos2Z.is_pos (digits2_pos den)).
  destruct (div_core_round false p den 0 0) as (mf & ef & Hr & Hd & He & Herr);
    try lia.
  exists mf, ef. unfold b64_of_ratio. split; [exact Hr|].
  split; [exact Hd|]. split; [lia|].
  replace (0 - 0 - ef) with (- ef) in Herr by lia. exact Herr.
Qed.

(** The binary64 quotient of two positive finite numbers. *)
Lemma b64_div_round (mx my : positive) (ex ey : Z) :
  Zpos (digits2_pos mx) - Zpos (digits2_pos my) <= 51 ->
  - 1074 <= Zpos (digits2_pos mx) + ex - Zpos (digits2_pos my) - ey - 53 ->
  Zpos (digits2_pos mx) + ex - Zpos (digits2_pos my) - ey - 53 + 2 <= 971 ->
  exists mf ef,
    b64_div (S754_finite false mx ex) (S754_finite false my ey)
    = S754_finite false mf ef
    /\ Zpos (digits2_pos mf) = 53
    /\ Zpos (digits2_pos mx) + ex - Zpos (digits2_pos my) - ey - 53 <= ef
       <= Zpos (digits2_pos mx) + ex - Zpos (digits2_pos my) - ey - 51
    /\ 2 * Z.abs (Zpos mf * Zpos my - Zpos mx * 2 ^ (ex - ey - ef)) <= Zpos my.
Proof.
  intros Hdd Hlo Hhi.
  exact (div_core_round false mx my ex ey Hdd Hlo Hhi).
Qed.

Lemma b64_of_Z_20 : b64_of_Z 20 = S754_finite false 5629499534213120 (-48).
Proof. reflexivity. Qed.

(** [int(area / 20)] for the area of [n] pixels as the runner prints it:
    the exact quotient [9 n / 2000], rounded down. *)
Lemma panels_exact (n : Z) :
  0 <= n < 2 ^ 48 ->
  py_truediv (round2 (area_of n)) (b64_of_Z 20) ≫= int_of_float = Ok (9 * n / 2000).
Proof.
  intros [Hn0 Hn].
  destruct (Z.eq_dec n 0) as [-> | Hne]; [reflexivity|].
  destruct (area_of_hundredths n ltac:(lia)) as (ma & ea & -> & Hh).
  unfold round2. rewrite Hh.
  destruct n as [|p|p]; try lia.
  change (Z.to_N (9 * Zpos p)) with (Npos (9 * p)).
  set (p9 := (9 * p)%positive).
  assert (Hp9 : Zpos p9 = 9 * Zpos p) by reflexivity.
  pose proof (digits2_pos_bounds p9) as [Hp9l Hp9h].
  assert (Hd9 : 4 <= Zpos (digits2_pos p9) <= 52).
  { split.
    - destruct (Z_le_gt_dec 4 (Zpos (digits2_pos p9))) as [?|Hgt]; [assumption|].
      assert (2 ^ Zpos (digits2_pos p9) <= 2 ^ 3) by (apply Z.pow_le_mono_r; lia).
      change (2 ^ 3) with 8 in *. lia.
    - destruct (Z_le_gt_dec (Zpos (digits2_pos p9)) 52) as [?|Hgt]; [assumption|].
      assert (2 ^ 52 <= 2 ^ (Zpos (digits2_pos p9) - 1))
        by (apply Z.pow_le_mono_r; lia).
      change (2 ^ 48) with 281474976710656 in Hn.
      change (2 ^ 52) with 4503599627370496 in *. lia. }
  destruct (b64_of_ratio_round p9 100) as (mx & ex & -> & Hdx & Hex & Hxerr).
  { change (Zpos (digits2_pos 100)) with 7. lia. }
  { change (Zpos (digits2_pos 100)) with 7. lia. }
  change (Zpos (digits2_pos 100)) with 7 in Hex.
  rewrite b64_of_Z_20. unfold py_truediv. cbn [is_zero].
  destruct (b64_div_round mx 5629499534213120 ex (-48))
    as (mq & eq & Hq & Hdq & Heq & Hqerr).
  { rewrite Hdx. change (Zpos (digits2_pos 5629499534213120)) with 53. lia. }
  { rewrite Hdx. change (Zpos (digits2_pos 5629499534213120)) with 53. lia. }
  { rewrite Hdx. change (Zpos (digits2_pos 5629499534213120)) with 53. lia. }
  rewrite Hdx in Heq. change (Zpos (digits2_pos 5629499534213120)) with 53 in Heq.
  cbn [mbind result_bind]. rewrite Hq. cbn [int_of_float].
  replace (0 <=? eq) with false by (symmetry; apply Z.leb_gt; lia).
  f_equal.
  pose proof (digits2_pos_bounds mx) as [Hmxl Hmxh].
  pose proof (digits2_pos_bounds mq) as [Hmql Hmqh].
  rewrite Hdx in Hmxl, Hmxh. rewrite Hdq in Hmql, Hmqh.
  change (53 - 1) with 52 in *.
  (* the units: Ux = 2^(-ex), J = 2^(ex - eq), T = 2^(-eq) = Ux * J *)
  set (Ux := 2 ^ (- ex)) in *.
  assert (HUx : 0 < Ux) by (apply Z.pow_pos_nonneg; lia).
  assert (HT : 2 ^ (- eq) = Ux * 2 ^ (ex - eq))
    by (unfold Ux; rewrite <- Z.pow_add_r by lia; f_equal; lia).
  assert (HJ48 : 2 ^ (ex - -48 - eq) = 2 ^ 48 * 2 ^ (ex - eq))
    by (rewrite <- Z.pow_add_r by lia; f_equal; lia).
  rewrite HJ48 in Hqerr.
  change (Zpos 5629499534213120) with (20 * 2 ^ 48) in Hqerr.
  assert (Hq10 : Z.abs (20 * Zpos mq - Zpos mx * 2 ^ (ex - eq)) <= 10).
  { change (2 ^ 48) with 281474976710656 in Hqerr.
    set (y := Zpos mx * 2 ^ (ex - eq)).
    replace (Zpos mq * (20 * 281474976710656) - Zpos mx * (281474976710656 * 2 ^ (ex - eq)))
      with (281474976710656 * (20 * Zpos mq - y)) in Hqerr by (unfold y; ring).
    lia. }
  assert (Hx50 : Z.abs (100 * Zpos mx - 9 * Zpos p * Ux) <= 50).
  { rewrite Hp9 in Hxerr. change (Zpos 100) with 100 in Hxerr. lia. }
  clear Hqerr Hxerr HJ48.
  set (T := 2 ^ (- eq)) in *.
  assert (HTpos : 0 < T) by (apply Z.pow_pos_nonneg; lia).
  pose proof (Z.div_mod (9 * Zpos p) 2000 ltac:(lia)) as Hkf.
  pose proof (Z.mod_pos_bound (9 * Zpos p) 2000 ltac:(lia)) as Hf.
  set (k := 9 * Zpos p / 2000) in *. set (f := (9 * Zpos p) mod 2000) in *.
  assert (Hk0 : 0 <= k) by (apply Z.div_pos; lia).
  (* the three possible shifts between the two exponents *)
  assert (HJ : ex - eq = 3 \/ ex - eq = 4 \/ ex - eq = 5) by lia.
  set (b := Zpos p * Ux) in *.
  assert (Hkb : 9 * b = 2000 * (k * Ux) + f * Ux) by (unfold b; nia).
  set (kU := k * Ux) in *. set (fU := f * Ux) in *.
  assert (HfU : 0 <= fU <= 1999 * Ux) by (unfold fU; nia).
  assert (HkT : forall J, T = Ux * J -> k * T = kU * J) by (intros J ->; unfold kU; ring).
  symmetry. apply (Z.div_unique_pos _ _ _ (Zpos mq - k * T)); [|lia].
  destruct (Z.eq_dec f 0) as [Hf0 | Hf0].
  - (* the quotient is an integer: both roundings are exact *)
    assert (HfU0 : fU = 0) by (unfold fU; rewrite Hf0; ring).
    assert (Hmx : Zpos mx = 20 * kU) by lia.
    destruct HJ as [E | [E | E]]; rewrite E in *;
      [change (2 ^ 3) with 8 in * | change (2 ^ 4) with 16 in *
       | change (2 ^ 5) with 32 in *];
      rewrite (HkT _ HT); lia.
  - (* otherwise the quotient is at least 1/2000 away from an integer *)
    assert (HfU1 : Ux <= fU) by (unfold fU; nia).
    assert (HT12 : 4096 <= T).
    { destruct (Z_le_gt_dec 12 (- eq)) as [H12 | H11].
      - change 4096 with (2 ^ 12). apply Z.pow_le_mono_r; lia.
      - exfalso.
        assert (HT11 : T <= 2 ^ 11) by (apply Z.pow_le_mono_r; lia).
        change (2 ^ 11) with 2048 in HT11.
        change (2 ^ 48) with 281474976710656 in Hn.
        change (2 ^ 52) with 4503599627370496 in *.
        assert (Hb : 9 * b * 2 ^ (ex - eq) <= 9 * 281474976710656 * 2048).
        { replace (9 * b * 2 ^ (ex - eq)) with (9 * Zpos p * T)
            by (rewrite HT; unfold b; ring).
          nia. }
        destruct HJ as [E | [E | E]]; rewrite E in *;
          [change (2 ^ 3) with 8 in * | change (2 ^ 4) with 16 in *
           | change (2 ^ 5) with 32 in *]; lia. }
    destruct HJ as [E | [E | E]]; rewrite E in *;
      [change (2 ^ 3) with 8 in * | change (2 ^ 4) with 16 in *
       | change (2 ^ 5) with 32 in *];
      rewrite (HkT _ HT); lia.
Qed.

(** The insights row for the area of [n] pixels. *)
Lemma solar_insights_area (location : string) (n : Z) :
  0 <= n < 2 ^ 48 ->
  exists i,
    solar_insights location (round2 (area_of n)) = Ok i
    /\ potential_panels i = 9 * n / 2000.
Proof.
  intros Hn. pose proof (panels_exact n Hn) as Hp.
  unfold solar_insights.
  destruct (py_truediv (round2 (area_of n)) (b64_of_Z 20)) as [q|e]; [|discriminate].
  cbn [mbind result_bind] in Hp |- *. rewrite Hp.
  unfold py_truediv. change (is_zero (b64_of_Z 1000)) with false.
  cbn [mbind result_bind]. eexists. split; reflexivity.
Qed.

(** X22: the number of panels shown is exact.  For a count [n] below
    2^48, the figure [int(rooftop_area / 20)] computed from the area that
    the runner prints for [n] pixels is the integer part of the exact
    quotient [0.09 n / 20 = 9 n / 2000]: neither the binary64 product, nor
    the two-decimal text, nor the binary64 division moves it across an
    integer; the irradiance used is the table entry of the location, or
    5.0 for a location without one. *)
Theorem potential_panels_exact (location : string) (n : Z) :
  0 <= n < 2 ^ 48 ->
  py_float (fmt_2f (area_of n)) = Ok (round2 (area_of n))
  /\ exists i,
       solar_insights location (round2 (area_of n)) = Ok i
       /\ potential_panels i = 9 * n / 2000
       /\ irradiance i = dict_get LOCATION_IRRADIANCE location (dec 5 1)
       /\ potential_power i = b64_mul (round2 (area_of n)) (dec 15 100)
       /\ carbon_reduction i = b64_mul (potential_power i) (dec 14 10).
Proof.
  intros Hn. split; [apply py_float_fmt_2f|].
  pose proof (panels_exact n Hn) as Hp.
  unfold solar_insights.
  destruct (py_truediv (round2 (area_of n)) (b64_of_Z 20)) as [q|e]; [|discriminate].
  cbn [mbind result_bind] in Hp |- *. rewrite Hp.
  unfold py_truediv. change (is_zero (b64_of_Z 1000)) with false.
  cbn [mbind result_bind]. eexists. split; [reflexivity|].
  cbn [potential_panels irradiance potential_power carbon_reduction].
  repeat split.
Qed.

Lemma potential_panels_exact_witness :
  py_float (fmt_2f (area_of 2000000)) = Ok (round2 (area_of 2000000))
  /\ exists i,
       solar_insights "Houston, TX" (round2 (area_of 2000000)) = Ok i
       /\ potential_panels i = 9 * 2000000 / 2000
       /\ irradiance i = dict_get LOCATION_IRRADIANCE "Houston, TX" (dec 5 1)
       /\ potential_power i = b64_mul (round2 (area_of 2000000)) (dec 15 100)
       /\ carbon_reduction i = b64_mul (potential_power i) (dec 14 10).
Proof.
  apply (potential_panels_exact "Houston, TX" 2000000). vm_compute. split; congruence.
Defined.

(** X23: the whole page of a successful run.  For an image of fewer
    than 2^48 pixels and a network with 128 x 128 outputs, when the file
    exists and loads and the figure is saved, the handler shows, in this
    order, the success banner, the count of the inference with the
    two-decimal area, the figure if [results.png] exists, the insights
    row with [9 n / 2000] panels, and the ROI row; nothing raises, and the
    temporary image is removed last. *)
Theorem successful_run_full_page {tensor logit : Type}
    (transform : image -> tensor) (beats : logit -> logit -> bool)
    (str_round2 : spec_float -> string) (w : world)
    (prog path : string) (model : tensor -> grid (logit * logit))
    (src : dataset) (img : image)
    (exn_text : exn -> string) (results_png : bool) (err location : string) :
  (forall x, contains_char LF (str_round2 x) = false) ->
  os_path_exists w path = true ->
  load_model w = Ok model ->
  patch_shaped model ->
  rasterio_open w path = Ok src ->
  read_rgb src = Ok img ->
  Z.of_nat (nrows img) * Z.of_nat (ncols img) < 2 ^ 48 ->
  (forall mask title, save_figure w img mask title = Ok tt) ->
  exists mask n i r,
    infer_full_mask transform beats model img = Ok (mask, n)
    /\ solar_insights location (round2 (area_of n)) = Ok i
    /\ potential_panels i = 9 * n / 2000
    /\ roi_calculator location (round2 (area_of n)) (irradiance i) = Ok r
    /\ run_detection exn_text results_png
         (Ok (completed (run transform beats str_round2 w [prog; path]) err))
         location path
       = ([ShowSuccess; ShowCounts n (round2 (area_of n))]
            ++ (if results_png then [ShowFigure] else [])
            ++ [ShowInsights i; ShowRoi r; Unlink path],
          Ok tt).
Proof.
  intros Hnl Hex Hm Hmodel Ho Hr Hsize Hfig.
  destruct (infer_total_bound transform beats model img Hmodel)
    as (mask & n & Hinf & Hn); [change (2 ^ 63) with (2 ^ 48 * 2 ^ 15); lia|].
  destruct (solar_insights_area location n ltac:(lia)) as (i & Hi & Hpanels).
  destruct (roi_calculator_ok location (round2 (area_of n)) (irradiance i))
    as (r & Hroi).
  exists mask, n, i, r.
  split; [exact Hinf|]. split; [exact Hi|]. split; [exact Hpanels|].
  split; [exact Hroi|].
  assert (Hrun : run transform beats str_round2 w [prog; path]
                 = Outcome (progress_lines str_round2 n (area_of n)
                            ++ results_block n (area_of n)) None).
  { unfold run, script. simpl. rewrite Hex. simpl. unfold run_io.
    rewrite (main_runs transform beats str_round2 w path model src img mask n [])
      by (try assumption; apply Hfig).
    reflexivity. }
  destruct (parse_results str_round2 n (area_of n) (Hnl _)) as [Hp _].
  rewrite Hrun.
  unfold run_detection, try_finally, try_except, detect, completed,
    mbind, act_bind, lift_act.
  cbn [returncode cp_stdout exit_code raised stdout Z.eqb].
  rewrite Hp.
  unfold show_results, mbind, act_bind, emit, lift_act, mret, act_ret.
  rewrite Hi, Hroi.
  destruct results_png; reflexivity.
Qed.

Lemma successful_run_full_page_witness :
  exists mask n i r,
    infer_full_mask toy_transform toy_beats toy_model
      (Grid 130 140 ((fun r => (fun c => (7, 7, 7)) <$> seq 0 140) <$> seq 0 130))
    = Ok (mask, n)
    /\ solar_insights "Houston, TX" (round2 (area_of n)) = Ok i
    /\ potential_panels i = 9 * n / 2000
    /\ roi_calculator "Houston, TX" (round2 (area_of n)) (irradiance i) = Ok r
    /\ run_detection (fun _ => EmptyString) true
         (Ok (completed (run toy_transform toy_beats fmt_2f
                             (toy_world (Ok (toy_dataset 3))) toy_argv)
                        EmptyString))
         "Houston, TX" "tile.tif"
       = ([ShowSuccess; ShowCounts n (round2 (area_of n))]
            ++ [ShowFigure]
            ++ [ShowInsights i; ShowRoi r; Unlink "tile.tif"],
          Ok tt).
Proof.
  apply (successful_run_full_page toy_transform toy_beats fmt_2f
           (toy_world (Ok (toy_dataset 3)))
           "modeltester_UI.py" "tile.tif" toy_model (toy_dataset 3)
           (Grid 130 140
              ((fun r => (fun c => (7, 7, 7)) <$> seq 0 140) <$> seq 0 130))
           (fun _ => EmptyString) true EmptyString "Houston, TX").
  - exact fmt_2f_no_newline.
  - reflexivity.
  - reflexivity.
  - exact toy_model_ok.
  - reflexivity.
  - reflexivity.
  - simpl. lia.
  - reflexivity.
Defined.

(** ** The runner: where a run can stop *)

(** X24: what a run has printed when one of its steps fails, for a
    path that exists.  A failure to load the weights leaves the first
    progress line only; a failure of the inference (for instance the
    [ValueError] of a prediction of the wrong shape) leaves the first
    three; a failure to save the figure leaves all five progress lines,
    the count and the area included, but no results block.  In each
    case the run ends with the exception of the failed step. *)
Theorem run_failure_stages {tensor logit : Type}
    (transform : image -> tensor) (beats : logit -> logit -> bool)
    (str_round2 : spec_float -> string) (w : world) (prog path : string)
    (e : exn) :
  os_path_exists w path = true ->
  (load_model w = Raise e ->
   run transform beats str_round2 w [prog; path]
   = Outcome ["Loading model..."%string] (Some e))
  /\ (forall model src img,
        load_model w = Ok model -> rasterio_open w path = Ok src ->
        read_rgb src = Ok img ->
        infer_full_mask transform beats model img = Raise e ->
        run transform beats str_round2 w [prog; path]
        = Outcome ["Loading model..."; "Reading image..."; "Running inference..."]%string
                  (Some e))
  /\ (forall model src img mask n,
        load_model w = Ok model -> rasterio_open w path = Ok src ->
        read_rgb src = Ok img ->
        infer_full_mask transform beats model img = Ok (mask, n) ->
        save_figure w img mask (figure_title (area_of n)) = Raise e ->
        run transform beats str_round2 w [prog; path]
        = Outcome (progress_lines str_round2 n (area_of n)) (Some e)).
Proof.
  intros Hex.
  assert (Hscript : run transform beats str_round2 w [prog; path]
                    = run_io (main transform beats str_round2 w path)).
  { unfold run, script. simpl. rewrite Hex. reflexivity. }
  rewrite Hscript. unfold run_io, main, mbind, io_bind, lift, print.
  split; [|split].
  - intros ->. reflexivity.
  - intros model src img -> -> -> ->. reflexivity.
  - intros model src img mask n -> -> -> -> ->. reflexivity.
Qed.

Lemma run_failure_stages_witness :
  run toy_transform toy_beats fmt_2f
      (World (fun _ => true) (Raise (OtherError "FileNotFoundError"))
             (fun _ => Ok (toy_dataset 3)) (fun _ _ _ => Ok tt))
      toy_argv
  = Outcome ["Loading model..."%string] (Some (OtherError "FileNotFoundError")).
Proof.
  destruct (run_failure_stages toy_transform toy_beats fmt_2f
              (World (fun _ => true) (Raise (OtherError "FileNotFoundError"))
                     (fun _ => Ok (toy_dataset 3)) (fun _ _ _ => Ok tt))
              "modeltester_UI.py" "tile.tif" (OtherError "FileNotFoundError")
              eq_refl) as [Hload _].
  apply Hload. reflexivity.
Defined.
